(** * gltf2ozz: the glTF importer of ozz-animation

    A shallow embedding of [src/animation/offline/gltf/gltf2ozz.cc]: the
    skeleton builder ([Import] on a [RawSkeleton]), the joint naming
    ([CreateJointName]), and the animation resampler ([Import] on a
    [RawAnimation]) with its three samplers.

    Conventions of the embedding
    - [float] is IEEE binary32 and [double] is IEEE binary64, both carried by
      [spec_float] with the operations of [SpecFloat] at the matching
      precision;
    - [int] and [size_t] values are in [Z]; [size_t] arithmetic is written
      with its wrap-around modulo [2^64];
    - glTF buffers are lists of bytes, reinterpreted as little-endian
      binary32 cells by [BufferView];
    - a call ends in an [outcome]: a returned value, a failed [assert]
      (the process is aborted), undefined behaviour (an access out of range,
      a null dereference, a conversion out of range), or an exhausted loop
      budget;
    - memory is unbounded: growing a vector never fails;
    - log output is not modelled. *)

From Stdlib Require Import ZArith List Lia Bool Sorted.
From Stdlib Require Import Floats.SpecFloat.
From stdpp Require Import base option list strings pretty gmap.

Local Open Scope Z_scope.

(** ** Numbers *)

Definition float := spec_float.
Definition double := spec_float.

Module F32.
Definition prec : Z := 24.
Definition emax : Z := 128.
Definition add : float -> float -> float := SFadd prec emax.
Definition sub : float -> float -> float := SFsub prec emax.
Definition mul : float -> float -> float := SFmul prec emax.
Definition div : float -> float -> float := SFdiv prec emax.
Definition sqrt : float -> float := SFsqrt prec emax.
Definition ltb : float -> float -> bool := SFltb.
Definition eqb : float -> float -> bool := SFeqb.
(** [a > b] in C++ *)
Definition gtb (a b : float) : bool := SFltb b a.
(** the binary32 value nearest to [m * 2^e] *)
Definition of_scaled (m e : Z) : float := binary_normalize prec emax m e false.
(** conversion of an integer to [float] *)
Definition of_Z (z : Z) : float := of_scaled z 0.
(** narrowing conversion [double] to [float] *)
Definition of_double (d : double) : float :=
  match d with
  | S754_finite s m e => binary_normalize prec emax (cond_Zopp s (Zpos m)) e s
  | _ => d
  end.
Definition zero : float := S754_zero false.
Definition one : float := of_Z 1.
(** [floor] at type [float]: the greatest integer not above [x], which is
    a [float] again; zeros, infinities and NaN are returned as they are *)
Definition floor (x : float) : float :=
  match x with
  | S754_finite s m e =>
      if 0 <=? e then x else of_Z (cond_Zopp s (Zpos m) / 2 ^ (- e))
  | _ => x
  end.
(** conversion [float] to [size_t]: truncation toward zero; the conversion
    is undefined when the truncated value is not a [size_t], and on
    infinities and NaN *)
Definition to_size_t (x : float) : option Z :=
  match x with
  | S754_zero _ => Some 0
  | S754_finite s m e =>
      let t := if 0 <=? e then cond_Zopp s (Zpos m) * 2 ^ e
               else Z.quot (cond_Zopp s (Zpos m)) (2 ^ (- e)) in
      if (0 <=? t) && (t <? 2 ^ 64) then Some t else None
  | _ => None
  end.
(** conversion [float] to [int]: truncation toward zero; the conversion is
    undefined when the truncated value is not an [int] *)
Definition to_int (x : float) : option Z :=
  match x with
  | S754_zero _ => Some 0
  | S754_finite s m e =>
      let t := if 0 <=? e then cond_Zopp s (Zpos m) * 2 ^ e
               else Z.quot (cond_Zopp s (Zpos m)) (2 ^ (- e)) in
      if (- 2 ^ 31 <=? t) && (t <? 2 ^ 31) then Some t else None
  | _ => None
  end.
(** the 32-bit pattern of a binary32 cell *)
Definition of_bits (w : Z) : float :=
  let s := Z.testbit w 31 in
  let e := Z.land (Z.shiftr w 23) 255 in
  let m := Z.land w (2 ^ 23 - 1) in
  if e =? 0 then
    match m with Zpos p => S754_finite s p (-149) | _ => S754_zero s end
  else if e =? 255 then
    (if m =? 0 then S754_infinity s else S754_nan)
  else
    match m + 2 ^ 23 with Zpos p => S754_finite s p (e - 150) | _ => S754_nan end.
Definition to_bits (x : float) : Z :=
  let sgn (s : bool) := if s then 2 ^ 31 else 0 in
  match x with
  | S754_zero s => sgn s
  | S754_infinity s => sgn s + 255 * 2 ^ 23
  | S754_nan => 255 * 2 ^ 23 + 2 ^ 22
  | S754_finite s m e =>
      if Zpos m <? 2 ^ 23 then sgn s + Zpos m
      else sgn s + (e + 150) * 2 ^ 23 + (Zpos m - 2 ^ 23)
  end.
End F32.

Module F64.
Definition prec : Z := 53.
Definition emax : Z := 1024.
Definition of_scaled (m e : Z) : double := binary_normalize prec emax m e false.
Definition of_Z (z : Z) : double := of_scaled z 0.
End F64.

(** [size_t] is 64 bits wide. *)
Definition size_t_wrap (z : Z) : Z := z mod 2 ^ 64.

(** ** Outcomes of a call *)

Inductive outcome (A : Type) : Type :=
| Ret (a : A)      (* the call returns *)
| Aborted            (* a failed [assert] ends the process *)
| Undef            (* undefined behaviour *)
| OutOfBudget.         (* the loop budget of the model ran out *)
Arguments Ret {A} a.
Arguments Aborted {A}.
Arguments Undef {A}.
Arguments OutOfBudget {A}.

Definition obind {A B} (x : outcome A) (f : A -> outcome B) : outcome B :=
  match x with
  | Ret a => f a
  | Aborted => Aborted
  | Undef => Undef
  | OutOfBudget => OutOfBudget
  end.

Global Instance outcome_ret : MRet outcome := fun A a => Ret a.
Global Instance outcome_bind : MBind outcome := fun A B f x => obind x f.

(** an access that is undefined out of range *)
Definition defined {A} (o : option A) : outcome A :=
  match o with Some a => Ret a | None => Undef end.

(** [v[i]] on a [std::vector], for an [int] or [size_t] index *)
Definition at_ {A} (v : list A) (i : Z) : outcome A :=
  if i <? 0 then Undef else defined (v !! Z.to_nat i).

(** ** Bytes *)

Definition byte_val (b : Byte.byte) : Z := Z.of_N (Byte.to_N b).

Definition byte_of_Z (z : Z) : Byte.byte :=
  match Byte.of_N (Z.to_N (z mod 256)) with Some b => b | None => Byte.x00 end.

(** four bytes at cell [k] of a byte sequence, little endian *)
Definition read_float (mem : list Byte.byte) (k : nat) : option float :=
  match mem !! (4 * k)%nat, mem !! (4 * k + 1)%nat,
        mem !! (4 * k + 2)%nat, mem !! (4 * k + 3)%nat with
  | Some b0, Some b1, Some b2, Some b3 =>
      Some (F32.of_bits (byte_val b0 + 2 ^ 8 * byte_val b1
                         + 2 ^ 16 * byte_val b2 + 2 ^ 24 * byte_val b3))
  | _, _, _, _ => None
  end.

Definition bytes_of_float (x : float) : list Byte.byte :=
  let w := F32.to_bits x in
  [byte_of_Z w; byte_of_Z (Z.shiftr w 8); byte_of_Z (Z.shiftr w 16); byte_of_Z (Z.shiftr w 24)].

(** ** Values carried by keys: ozz [math::Float3] and [math::Quaternion] *)

Record Float3 := mkFloat3 { f3_x : float; f3_y : float; f3_z : float }.
Record Quaternion := mkQuaternion { q_x : float; q_y : float; q_z : float; q_w : float }.

(** What the sampler templates use of their [KeyType::Value]: its size, the
    reinterpretation of buffer bytes as an element, the value-initialised
    element that [resize] creates, and the operators [*] (by a [float]) and
    [+], which ozz defines componentwise. *)
Class ValueType (V : Type) := {
  sizeof : Z;
  read_value : list Byte.byte -> nat -> option V;
  value_init : V;
  vscale : V -> float -> V;
  vadd : V -> V -> V
}.

#[export] Instance Float3_value : ValueType Float3 := {
  sizeof := 12;
  read_value mem i :=
    match read_float mem (3 * i), read_float mem (3 * i + 1), read_float mem (3 * i + 2) with
    | Some x, Some y, Some z => Some (mkFloat3 x y z)
    | _, _, _ => None
    end;
  value_init := mkFloat3 F32.zero F32.zero F32.zero;
  vscale v f := mkFloat3 (F32.mul (f3_x v) f) (F32.mul (f3_y v) f) (F32.mul (f3_z v) f);
  vadd a b := mkFloat3 (F32.add (f3_x a) (f3_x b)) (F32.add (f3_y a) (f3_y b))
                       (F32.add (f3_z a) (f3_z b))
}.

#[export] Instance Quaternion_value : ValueType Quaternion := {
  sizeof := 16;
  read_value mem i :=
    match read_float mem (4 * i), read_float mem (4 * i + 1),
          read_float mem (4 * i + 2), read_float mem (4 * i + 3) with
    | Some x, Some y, Some z, Some w => Some (mkQuaternion x y z w)
    | _, _, _, _ => None
    end;
  value_init := mkQuaternion F32.zero F32.zero F32.zero F32.zero;
  vscale q f := mkQuaternion (F32.mul (q_x q) f) (F32.mul (q_y q) f)
                             (F32.mul (q_z q) f) (F32.mul (q_w q) f);
  vadd a b := mkQuaternion (F32.add (q_x a) (q_x b)) (F32.add (q_y a) (q_y b))
                           (F32.add (q_z a) (q_z b)) (F32.add (q_w a) (q_w b))
}.

(** [Float3::zero()], [Float3::one()], [Quaternion::identity()] *)
Definition Float3_zero : Float3 := mkFloat3 F32.zero F32.zero F32.zero.
Definition Float3_one : Float3 := mkFloat3 F32.one F32.one F32.one.
Definition Quaternion_identity : Quaternion := mkQuaternion F32.zero F32.zero F32.zero F32.one.

(** ** The destination format: raw skeleton and raw animation *)

Record Transform := mkTransform {
  tr_translation : Float3; tr_rotation : Quaternion; tr_scale : Float3 }.

Definition Transform_identity : Transform :=
  mkTransform Float3_zero Quaternion_identity Float3_one.

#[warnings="-register-all"]
Inductive Joint := mkJoint {
  joint_name : string;
  joint_transform : Transform;
  joint_children : list Joint }.

Record RawSkeleton := mkRawSkeleton { roots : list Joint }.

Record Key (V : Type) := mkKey { time : float; value : V }.
Arguments mkKey {V} _ _.
Arguments time {V} _.
Arguments value {V} _.

(** the key a [resize] creates *)
Definition Key_init {V} `{ValueType V} : Key V := mkKey F32.zero value_init.

Record JointTrack := mkJointTrack {
  translations : list (Key Float3);
  rotations : list (Key Quaternion);
  scales : list (Key Float3) }.

Definition JointTrack_init : JointTrack := mkJointTrack [] [] [].

Record RawAnimation := mkRawAnimation {
  anim_name : string;
  duration : float;
  tracks : list JointTrack }.

(** The runtime skeleton handed to the animation import; the importer reads
    [num_joints()] and [joint_names()] only. *)
Record Skeleton := mkSkeleton { joint_names : list string }.
Definition num_joints (s : Skeleton) : Z := Z.of_nat (length (joint_names s)).

(** ** The source format: the tinygltf object model *)

Record Node := mkNode {
  node_name : string;
  node_children : list Z;
  node_matrix : list double;
  node_translation : list double;
  node_rotation : list double;
  node_scale : list double }.

Record Skin := mkSkin { skin_joints : list Z }.

Record Scene := mkScene { scene_name : string; scene_nodes : list Z }.

Record AnimationChannel := mkChannel {
  sampler : Z;
  target_node : Z;
  target_path : string }.

Record AnimationSampler := mkSampler {
  input : Z;
  output : Z;
  interpolation : string }.

Record Animation := mkAnimation {
  animation_name : string;
  channels : list AnimationChannel;
  samplers : list AnimationSampler }.

Record Accessor := mkAccessor {
  acc_bufferView : Z;
  acc_byteOffset : Z;
  componentType : Z;
  count : Z;
  type : Z;
  maxValues : list double }.

Record BufferViewT := mkBufferView { bv_buffer : Z; bv_byteOffset : Z }.

Record Buffer := mkBuffer { data : list Byte.byte }.

Record Model := mkModel {
  accessors : list Accessor;
  animations : list Animation;
  buffers : list Buffer;
  bufferViews : list BufferViewT;
  nodes : list Node;
  scenes : list Scene;
  skins : list Skin;
  defaultScene : Z }.

(** ** What the importer takes from headers that are not among the sources

    The build configuration ([NDEBUG] removes every [assert]), the constants
    and the two size tables of [tiny_gltf.h], the validation of the two
    destination objects, and ozz's quaternion normalisation. *)
Class Env := {
  NDEBUG : bool;
  TINYGLTF_TYPE_SCALAR : Z;
  TINYGLTF_TYPE_VEC3 : Z;
  TINYGLTF_TYPE_VEC4 : Z;
  GetComponentSizeInBytes : Z -> Z;
  GetTypeSizeInBytes : Z -> Z;
  RawSkeleton_Validate : RawSkeleton -> bool;
  RawAnimation_Validate : RawAnimation -> bool;
  Normalize : Quaternion -> outcome Quaternion
}.

(** ** The importer *)

Section Importer.

Context `{Env}.

(** [m_model], read-only once loaded *)
Variable m_model : Model.

(** [assert(c)] *)
Definition assert_ (c : bool) : outcome unit :=
  if NDEBUG then Ret tt else if c then Ret tt else Aborted.

(** [v[i] = x] on a [std::vector] *)
Definition store {A} (v : list A) (i : nat) (x : A) : outcome (list A) :=
  if decide (i < length v)%nat then Ret (<[i := x]> v) else Undef.

(** a [for] loop over the elements of [l], threading the state [s] *)
Fixpoint for_each {A S} (l : list A) (body : A -> S -> outcome S) (s : S) : outcome S :=
  match l with
  | [] => Ret s
  | a :: l' => s' ← body a s; for_each l' body s'
  end.

(** [BufferView<T>(accessor)]: [None] is the null pointer; the pointer
    returned is modelled by the bytes of the buffer from the pointed address
    on. *)
Definition BufferView (sizeof_T : Z) (accessor : Accessor) : outcome (option (list Byte.byte)) :=
  let componentSize := GetComponentSizeInBytes (componentType accessor) in
  let elementSize := componentSize * GetTypeSizeInBytes (type accessor) in
  if negb (elementSize =? sizeof_T) then Ret None
  else
    bufferView ← at_ (bufferViews m_model) (acc_bufferView accessor);
    buffer ← at_ (buffers m_model) (bv_buffer bufferView);
    let offset := bv_byteOffset bufferView + acc_byteOffset accessor in
    if offset <? 0 then Undef
    else Ret (Some (drop (Z.to_nat offset) (data buffer))).

(** [timestamps[i]] and [values[i]] *)
Definition timestamp_at (timestamps : list Byte.byte) (i : nat) : outcome float :=
  defined (read_float timestamps i).
Definition value_at {V} `{ValueType V} (values : list Byte.byte) (i : nat) : outcome V :=
  defined (read_value values i).

Definition SampleLinearChannel {V} `{ValueType V} (output : Accessor)
    (timestamps : list Byte.byte) (keyframes : list (Key V))
  : outcome (bool * list (Key V)) :=
  values ← BufferView sizeof output;
  match values with
  | None => Ret (false, keyframes)
  | Some values =>
      let keyframes := resize (Z.to_nat (count output)) Key_init keyframes in
      keyframes ← for_each (seq 0 (Z.to_nat (count output)))
        (fun i keyframes =>
           t ← timestamp_at timestamps i;
           v ← value_at values i;
           store keyframes i (mkKey t v))
        keyframes;
      Ret (true, keyframes)
  end.

(** [const float eps = 1e-6f]: the binary32 value nearest to 1e-6 *)
Definition eps : float := S754_finite false 8796093 (-43).

(** The body of the loop of [SampleStepChannel] (index arithmetic on [i] is
    exact: [i] stays below the size of a vector). *)
Definition step_body {V} `{ValueType V} (output : Accessor)
    (timestamps values : list Byte.byte) (i : nat) (keyframes : list (Key V))
  : outcome (list (Key V)) :=
  t ← timestamp_at timestamps i;
  v ← value_at values i;
  keyframes ← store keyframes (i * 2) (mkKey t v);
  if Z.of_nat i <? size_t_wrap (count output - 1) then
    t' ← timestamp_at timestamps (i + 1);
    v' ← value_at values i;
    store keyframes (i * 2 + 1) (mkKey (F32.sub t' eps) v')
  else Ret keyframes.

Definition SampleStepChannel {V} `{ValueType V} (output : Accessor)
    (timestamps : list Byte.byte) (keyframes : list (Key V))
  : outcome (bool * list (Key V)) :=
  values ← BufferView sizeof output;
  match values with
  | None => Ret (false, keyframes)
  | Some values =>
      let numKeyframes := size_t_wrap (count output * 2) in
      let keyframes := resize (Z.to_nat numKeyframes) Key_init keyframes in
      keyframes ← for_each (seq 0 (Z.to_nat (count output)))
        (step_body output timestamps values) keyframes;
      Ret (true, keyframes)
  end.

Definition SampleHermiteSpline {T} `{ValueType T} (t : float) (p0 m0 p1 m1 : T) : T :=
  let t2 := F32.mul t t in
  let t3 := F32.mul t2 t in
  let two := F32.of_Z 2 in
  let three := F32.of_Z 3 in
  let a := F32.add (F32.sub (F32.mul two t3) (F32.mul three t2)) F32.one in
  let b := F32.add (F32.sub t3 (F32.mul two t2)) t in
  let c := F32.add (F32.mul (F32.of_Z (-2)) t3) (F32.mul three t2) in
  let d := F32.sub t3 t2 in
  vadd (vadd (vadd (vscale p0 a) (vscale m0 b)) (vscale p1 c)) (vscale m1 d).

(** The cursor loop of [SampleCubicSplineChannel]:
    [while (timestamps[currentKey] > time && currentKey < numKeyframes - 1) currentKey++;]
    Every turn reads one cell further, so the loop ends, by its guard or by
    a read outside the buffer, within [budget] turns when [budget] exceeds
    the size of the buffer. *)
Fixpoint advance_cursor (budget : nat) (timestamps : list Byte.byte)
    (numKeyframes : Z) (time : float) (currentKey : nat) : outcome nat :=
  match budget with
  | O => OutOfBudget
  | S budget' =>
      ts ← timestamp_at timestamps currentKey;
      if F32.gtb ts time && (Z.of_nat currentKey <? size_t_wrap (numKeyframes - 1))
      then advance_cursor budget' timestamps numKeyframes time (S currentKey)
      else Ret currentKey
  end.

(** The body of the [for] loop of [SampleCubicSplineChannel]; the state is
    the key vector and [currentKey]. *)
Definition cubic_body {V} `{ValueType V} (timestamps values : list Byte.byte)
    (numKeyframes : Z) (samplingRate : float) (i : nat)
    (st : list (Key V) * nat) : outcome (list (Key V) * nat) :=
  let '(keyframes, currentKey) := st in
  let time := F32.div (F32.of_Z (Z.of_nat i)) samplingRate in
  currentKey ← advance_cursor (S (length timestamps)) timestamps numKeyframes time currentKey;
  currentTime ← timestamp_at timestamps currentKey;
  nextTime ← timestamp_at timestamps (currentKey + 1);
  let t := F32.div (F32.sub time currentTime) (F32.sub nextTime currentTime) in
  p0 ← value_at values (currentKey * 3 + 1);
  v0 ← value_at values (currentKey * 3 + 2);
  let m0 := vscale v0 (F32.sub nextTime currentTime) in
  p1 ← value_at values ((currentKey + 1) * 3 + 1);
  v1 ← value_at values ((currentKey + 1) * 3);
  let m1 := vscale v1 (F32.sub nextTime currentTime) in
  keyframes ← store keyframes i (mkKey time (SampleHermiteSpline t p0 m0 p1 m1));
  Ret (keyframes, currentKey).

(** The argument of [keyframes.resize(floor(duration * samplingRate) + 1)]:
    the product is a [float], [floor] is taken at the type of its argument
    (the [float] overload of [<cmath>]), the [int] 1 is converted to [float]
    and added in [float] arithmetic (the sum is rounded from [2^24] on), and
    the sum is converted to the [size_t] parameter of [resize]; the
    conversion is undefined for a negative sum, a sum of [2^64] or more, an
    infinity and a NaN. *)
Definition cubic_key_count (duration samplingRate : float) : outcome nat :=
  n ← defined (F32.to_size_t
                 (F32.add (F32.floor (F32.mul duration samplingRate)) (F32.of_Z 1)));
  Ret (Z.to_nat n).

Definition SampleCubicSplineChannel {V} `{ValueType V} (output : Accessor)
    (timestamps : list Byte.byte) (keyframes : list (Key V))
    (samplingRate duration : float) : outcome (bool * list (Key V)) :=
  values ← BufferView sizeof output;
  match values with
  | None => Ret (false, keyframes)
  | Some values =>
      _ ← assert_ (count output mod 3 =? 0);
      let numKeyframes := count output / 3 in
      n ← cubic_key_count duration samplingRate;
      let keyframes := resize n Key_init keyframes in
      '(keyframes, _) ← for_each (seq 0 (length keyframes))
        (cubic_body timestamps values numKeyframes samplingRate) (keyframes, O);
      Ret (true, keyframes)
  end.

Definition set_translations (track : JointTrack) (k : list (Key Float3)) : JointTrack :=
  mkJointTrack k (rotations track) (scales track).
Definition set_rotations (track : JointTrack) (k : list (Key Quaternion)) : JointTrack :=
  mkJointTrack (translations track) k (scales track).
Definition set_scales (track : JointTrack) (k : list (Key Float3)) : JointTrack :=
  mkJointTrack (translations track) (rotations track) k.

(** [for (auto& key : track.rotations) key.value = math::Normalize(key.value);] *)
Fixpoint normalize_keys (keys : list (Key Quaternion)) : outcome (list (Key Quaternion)) :=
  match keys with
  | [] => Ret []
  | key :: keys' =>
      q ← Normalize (value key);
      keys' ← normalize_keys keys';
      Ret (mkKey (time key) q :: keys')
  end.

(** [SampleAnimationChannel]: [outDuration] and [track] are passed by
    reference, so the call returns them next to its boolean;
    [samplingRate] is the [int] parameter of the source. *)
Definition SampleAnimationChannel (sampler_ : AnimationSampler) (targetPath : string)
    (outDuration : float) (track : JointTrack) (samplingRate : Z)
  : outcome (bool * float * JointTrack) :=
  input_ ← at_ (accessors m_model) (input sampler_);
  _ ← assert_ (Z.of_nat (length (maxValues input_)) =? 1);
  max0 ← at_ (maxValues input_) 0;
  let duration_ := F32.of_double max0 in
  let outDuration := if F32.gtb duration_ outDuration then duration_ else outDuration in
  _ ← assert_ (type input_ =? TINYGLTF_TYPE_SCALAR);
  output_ ← at_ (accessors m_model) (output sampler_);
  _ ← assert_ ((type output_ =? TINYGLTF_TYPE_VEC3) || (type output_ =? TINYGLTF_TYPE_VEC4));
  timestamps ← BufferView 4 input_;
  match timestamps with
  | None => Ret (false, outDuration, track)
  | Some timestamps =>
      if String.eqb (interpolation sampler_) "" || String.eqb (interpolation sampler_) "LINEAR" then
        _ ← assert_ (count input_ =? count output_);
        if String.eqb targetPath "translation" then
          '(ok, k) ← SampleLinearChannel output_ timestamps (translations track);
          Ret (ok, outDuration, set_translations track k)
        else if String.eqb targetPath "rotation" then
          '(ok, k) ← SampleLinearChannel output_ timestamps (rotations track);
          Ret (ok, outDuration, set_rotations track k)
        else if String.eqb targetPath "scale" then
          '(ok, k) ← SampleLinearChannel output_ timestamps (scales track);
          Ret (ok, outDuration, set_scales track k)
        else Ret (false, outDuration, track)
      else if String.eqb (interpolation sampler_) "STEP" then
        _ ← assert_ (count input_ =? count output_);
        if String.eqb targetPath "translation" then
          '(ok, k) ← SampleStepChannel output_ timestamps (translations track);
          Ret (ok, outDuration, set_translations track k)
        else if String.eqb targetPath "rotation" then
          '(ok, k) ← SampleStepChannel output_ timestamps (rotations track);
          Ret (ok, outDuration, set_rotations track k)
        else if String.eqb targetPath "scale" then
          '(ok, k) ← SampleStepChannel output_ timestamps (scales track);
          Ret (ok, outDuration, set_scales track k)
        else Ret (false, outDuration, track)
      else if String.eqb (interpolation sampler_) "CUBICSPLINE" then
        _ ← assert_ (size_t_wrap (count input_ * 3) =? count output_);
        if String.eqb targetPath "translation" then
          '(ok, k) ← SampleCubicSplineChannel output_ timestamps (translations track)
                        (F32.of_Z samplingRate) duration_;
          Ret (ok, outDuration, set_translations track k)
        else if String.eqb targetPath "rotation" then
          '(ok, k) ← SampleCubicSplineChannel output_ timestamps (rotations track)
                        (F32.of_Z samplingRate) duration_;
          if negb ok then Ret (false, outDuration, set_rotations track k)
          else
            k ← normalize_keys k;
            Ret (true, outDuration, set_rotations track k)
        else if String.eqb targetPath "scale" then
          '(ok, k) ← SampleCubicSplineChannel output_ timestamps (scales track)
                        (F32.of_Z samplingRate) duration_;
          Ret (ok, outDuration, set_scales track k)
        else Ret (false, outDuration, track)
      else Ret (false, outDuration, track)
  end.

(** ** Bind pose *)

Definition CreateNodeTransform (node : Node) : outcome (bool * Transform) :=
  if negb (length (node_matrix node) =? 0)%nat then Ret (false, Transform_identity)
  else
    let transform := Transform_identity in
    translation ←
      (if negb (length (node_translation node) =? 0)%nat then
         x ← at_ (node_translation node) 0; y ← at_ (node_translation node) 1;
         z ← at_ (node_translation node) 2;
         Ret (mkFloat3 (F32.of_double x) (F32.of_double y) (F32.of_double z))
       else Ret (tr_translation transform));
    rotation ←
      (if negb (length (node_rotation node) =? 0)%nat then
         x ← at_ (node_rotation node) 0; y ← at_ (node_rotation node) 1;
         z ← at_ (node_rotation node) 2; w ← at_ (node_rotation node) 3;
         Ret (mkQuaternion (F32.of_double x) (F32.of_double y) (F32.of_double z) (F32.of_double w))
       else Ret (tr_rotation transform));
    scale ←
      (if negb (length (node_scale node) =? 0)%nat then
         x ← at_ (node_scale node) 0; y ← at_ (node_scale node) 1;
         z ← at_ (node_scale node) 2;
         Ret (mkFloat3 (F32.of_double x) (F32.of_double y) (F32.of_double z))
       else Ret (tr_scale transform));
    Ret (true, mkTransform translation rotation scale).

Definition CreateTranslationBindPoseKey (node : Node) : outcome (Key Float3) :=
  let key := mkKey F32.zero Float3_zero in
  if negb (length (node_translation node) =? 0)%nat then
    x ← at_ (node_translation node) 0; y ← at_ (node_translation node) 1;
    z ← at_ (node_translation node) 2;
    Ret (mkKey (time key) (mkFloat3 (F32.of_double x) (F32.of_double y) (F32.of_double z)))
  else Ret key.

Definition CreateRotationBindPoseKey (node : Node) : outcome (Key Quaternion) :=
  let key := mkKey F32.zero Quaternion_identity in
  if negb (length (node_rotation node) =? 0)%nat then
    x ← at_ (node_rotation node) 0; y ← at_ (node_rotation node) 1;
    z ← at_ (node_rotation node) 2; w ← at_ (node_rotation node) 3;
    Ret (mkKey (time key)
           (mkQuaternion (F32.of_double x) (F32.of_double y) (F32.of_double z) (F32.of_double w)))
  else Ret key.

Definition CreateScaleBindPoseKey (node : Node) : outcome (Key Float3) :=
  let key := mkKey F32.zero Float3_one in
  if negb (length (node_scale node) =? 0)%nat then
    x ← at_ (node_scale node) 0; y ← at_ (node_scale node) 1;
    z ← at_ (node_scale node) 2;
    Ret (mkKey (time key) (mkFloat3 (F32.of_double x) (F32.of_double y) (F32.of_double z)))
  else Ret key.

(** ** State kept between calls

    [existingNames] is the function-local [static] of [CreateJointName]: it
    lives as long as the process. [m_nodeNames] is a member of the importer
    object. *)
Record ImporterState := mkState {
  existingNames : gmap string Z;
  m_nodeNames : gmap Z string }.

Definition initial_state : ImporterState := mkState ∅ ∅.

(** [insert] of [std::unordered_map]: an existing key keeps its value *)
Definition map_insert_new `{Countable K} {V} (k : K) (v : V) (m : gmap K V) : gmap K V :=
  match m !! k with
  | Some _ => m
  | None => <[k := v]> m
  end.

Definition FindNodeByName (st : ImporterState) (name : string) : option Node :=
  nodeIndex ← List.find
    (fun nodeIndex : nat => bool_decide (m_nodeNames st !! Z.of_nat nodeIndex = Some name))
    (seq 0 (length (nodes m_model)));
  nodes m_model !! nodeIndex.

(** ** Import of one animation *)

(** the loop that fills [channelsPerJoint] *)
Definition group_channel (channel : AnimationChannel)
    (channelsPerJoint : gmap string (list AnimationChannel))
  : outcome (gmap string (list AnimationChannel)) :=
  if target_node channel =? -1 then Ret channelsPerJoint
  else
    targetNode ← at_ (nodes m_model) (target_node channel);
    Ret (<[node_name targetNode :=
             default [] (channelsPerJoint !! node_name targetNode) ++ [channel]]>
           channelsPerJoint).

(** [for (auto& channel : channels)] of one joint; a failed channel ends the
    import, with what was written so far left in place. *)
Fixpoint sample_channels (gltfAnimation : Animation) (channels_ : list AnimationChannel)
    (samplingRate : Z) (duration_ : float) (track : JointTrack)
  : outcome (bool * float * JointTrack) :=
  match channels_ with
  | [] => Ret (true, duration_, track)
  | channel :: rest =>
      sampler_ ← at_ (samplers gltfAnimation) (sampler channel);
      '(ok, duration_, track) ←
        SampleAnimationChannel sampler_ (target_path channel) duration_ track samplingRate;
      if negb ok then Ret (false, duration_, track)
      else sample_channels gltfAnimation rest samplingRate duration_ track
  end.

(** padding of the three key sequences of a track; [node] is the result of
    [FindNodeByName], dereferenced only where a key is created *)
Definition pad_track (node : option Node) (track : JointTrack) : outcome JointTrack :=
  translations_ ←
    (if (length (translations track) =? 0)%nat then
       node ← defined node; key ← CreateTranslationBindPoseKey node;
       Ret (translations track ++ [key])
     else Ret (translations track));
  rotations_ ←
    (if (length (rotations track) =? 0)%nat then
       node ← defined node; key ← CreateRotationBindPoseKey node;
       Ret (rotations track ++ [key])
     else Ret (rotations track));
  scales_ ←
    (if (length (scales track) =? 0)%nat then
       node ← defined node; key ← CreateScaleBindPoseKey node;
       Ret (scales track ++ [key])
     else Ret (scales track));
  Ret (mkJointTrack translations_ rotations_ scales_).

(** [for (int i = 0; i < numJoints; i++)]: [joints] holds the remaining
    values of [i]. The conversion of the [float] sampling rate to the [int]
    parameter of [SampleAnimationChannel] takes place at each call. *)
Fixpoint import_joints (st : ImporterState) (gltfAnimation : Animation)
    (channelsPerJoint : gmap string (list AnimationChannel)) (jointNames : list string)
    (samplingRate : float) (joints : list nat) (animation : RawAnimation)
  : outcome (bool * RawAnimation) :=
  match joints with
  | [] => Ret (true, animation)
  | i :: rest =>
      name ← defined (jointNames !! i);
      (* [channelsPerJoint[jointNames[i]]]: a missing key yields an empty vector *)
      let channels_ := default [] (channelsPerJoint !! name) in
      track ← defined (tracks animation !! i);
      rate ← (match channels_ with
              | [] => Ret 0
              | _ => defined (F32.to_int samplingRate)
              end);
      '(ok, duration_, track) ←
        sample_channels gltfAnimation channels_ rate (duration animation) track;
      let animation :=
        mkRawAnimation (anim_name animation) duration_ (<[i := track]> (tracks animation)) in
      if negb ok then Ret (false, animation)
      else
        let node := FindNodeByName st name in
        _ ← assert_ (bool_decide (is_Some node));
        track ← pad_track node track;
        import_joints st gltfAnimation channelsPerJoint jointNames samplingRate rest
          (mkRawAnimation (anim_name animation) duration_ (<[i := track]> (tracks animation)))
  end.

(** [Import(animationName, skeleton, samplingRate, animation)]: the
    caller's [*animation] goes in and comes out. *)
Definition Import_animation (st : ImporterState) (animationName : string)
    (skeleton : Skeleton) (samplingRate : float) (animation : RawAnimation)
  : outcome (bool * RawAnimation) :=
  let samplingRate :=
    if F32.eqb samplingRate F32.zero then F32.of_Z 60 else samplingRate in
  match List.find (fun a => String.eqb (animation_name a) animationName) (animations m_model) with
  | None => Ret (false, animation)
  | Some gltfAnimation =>
      let numJoints := num_joints skeleton in
      let animation :=
        mkRawAnimation (animation_name gltfAnimation) F32.zero
          (resize (Z.to_nat numJoints) JointTrack_init (tracks animation)) in
      channelsPerJoint ← for_each (channels gltfAnimation) group_channel ∅;
      let jointNames := joint_names skeleton in
      '(ok, animation) ←
        import_joints st gltfAnimation channelsPerJoint jointNames samplingRate
          (seq 0 (Z.to_nat numJoints)) animation;
      if negb ok then Ret (false, animation)
      else if negb (RawAnimation_Validate animation) then Ret (false, animation)
      else Ret (true, animation)
  end.

(** The declared maximum of the input accessor behind a channel, as
    [SampleAnimationChannel] reads it: [input.maxValues[0]] narrowed to
    [float]. *)
Definition sampler_input_max (sampler_ : AnimationSampler) : outcome float :=
  input_ ← at_ (accessors m_model) (input sampler_);
  max0 ← at_ (maxValues input_) 0;
  Ret (F32.of_double max0).

Definition channel_input_max (gltfAnimation : Animation) (channel : AnimationChannel)
  : outcome float :=
  sampler_ ← at_ (samplers gltfAnimation) (sampler channel);
  sampler_input_max sampler_.

(** ** Import of the skeleton *)

(** [std::set<int>]: a strictly increasing list; iteration is in increasing
    order and [*begin()] is the head. *)
Fixpoint set_insert (x : Z) (l : list Z) : list Z :=
  match l with
  | [] => [x]
  | y :: l' =>
      if x <? y then x :: l
      else if x =? y then l
      else y :: set_insert x l'
  end.

Definition set_mem (x : Z) (l : list Z) : bool := existsb (Z.eqb x) l.

(** the [while (!open.empty())] loop of [GetSkinsForScene] *)
Fixpoint scene_closure (budget : nat) (open found : list Z) : outcome (list Z) :=
  match budget with
  | O => OutOfBudget
  | S budget' =>
      match open with
      | [] => Ret found
      | nodeIndex :: open' =>
          let found := set_insert nodeIndex found in
          node ← at_ (nodes m_model) nodeIndex;
          let open := foldl (fun open childIndex => set_insert childIndex open)
                        open' (node_children node) in
          scene_closure budget' open found
      end
  end.

Definition GetSkinsForScene (budget : nat) (scene : Scene) : outcome (list Skin) :=
  let open := foldl (fun open nodeIndex => set_insert nodeIndex open) [] (scene_nodes scene) in
  found ← scene_closure budget open [];
  Ret (List.filter
         (fun skin =>
            match skin_joints skin with
            | [] => false
            | joint0 :: _ => set_mem joint0 found
            end)
         (skins m_model)).

(** the [while (parents.find(rootBoneIndex) != parents.end())] loop *)
Fixpoint follow_parents (budget : nat) (parents : gmap Z Z) (rootBoneIndex : Z) : outcome Z :=
  match budget with
  | O => OutOfBudget
  | S budget' =>
      match parents !! rootBoneIndex with
      | Some p => follow_parents budget' parents p
      | None => Ret rootBoneIndex
      end
  end.

Definition FindSkinRootJointIndex (budget : nat) (skin : Skin) : outcome Z :=
  match skin_joints skin with
  | [] => Ret (-1)
  | joint0 :: _ =>
      parents ← for_each (skin_joints skin)
        (fun nodeIndex parents =>
           node ← at_ (nodes m_model) nodeIndex;
           Ret (foldl (fun parents childIndex => map_insert_new childIndex nodeIndex parents)
                  parents (node_children node)))
        (∅ : gmap Z Z);
      follow_parents budget parents joint0
  end.

(** [CreateJointName]: returns the name and the state with both registries
    updated. *)
Definition CreateJointName (nodeIndex : Z) (st : ImporterState)
  : outcome (string * ImporterState) :=
  node ← at_ (nodes m_model) nodeIndex;
  let name := node_name node in
  let name :=
    if (String.length name =? 0)%nat then "gltf_node_" +:+ pretty nodeIndex else name in
  let name :=
    match existingNames st !! name with
    | Some _ => name +:+ "_" +:+ pretty nodeIndex
    | None => name
    end in
  Ret (name, mkState (map_insert_new name nodeIndex (existingNames st))
                     (map_insert_new nodeIndex name (m_nodeNames st))).

(** [ImportChildren(node, parent)]: [children_] is [parent.children], which
    the call extends; the recursion depth is bounded by [budget]. *)
Fixpoint ImportChildren (budget : nat) (node : Node) (children_ : list Joint)
    (st : ImporterState) : outcome (bool * list Joint * ImporterState) :=
  match budget with
  | O => OutOfBudget
  | S budget' =>
      (fix loop (indices : list Z) (children_ : list Joint) (st : ImporterState)
         : outcome (bool * list Joint * ImporterState) :=
         match indices with
         | [] => Ret (true, children_, st)
         | childIndex :: rest =>
             childNode ← at_ (nodes m_model) childIndex;
             '(name, st) ← CreateJointName childIndex st;
             '(ok, transform) ← CreateNodeTransform childNode;
             if negb ok then Ret (false, children_, st)
             else
               '(ok, grandchildren, st) ← ImportChildren budget' childNode [] st;
               if negb ok then Ret (false, children_, st)
               else loop rest (children_ ++ [mkJoint name transform grandchildren]) st
         end) (node_children node) children_ st
  end.

(** the loop over [rootJoints] of [Import] *)
Fixpoint import_roots (budget : nat) (rootJoints : list Z) (skeleton : RawSkeleton)
    (st : ImporterState) : outcome (bool * RawSkeleton * ImporterState) :=
  match rootJoints with
  | [] => Ret (true, skeleton, st)
  | rootJointIndex :: rest =>
      rootBone ← at_ (nodes m_model) rootJointIndex;
      '(name, st) ← CreateJointName rootJointIndex st;
      '(ok, transform) ← CreateNodeTransform rootBone;
      if negb ok then Ret (false, skeleton, st)
      else
        '(ok, children_, st) ← ImportChildren budget rootBone [] st;
        if negb ok then Ret (false, skeleton, st)
        else import_roots budget rest
               (mkRawSkeleton (roots skeleton ++ [mkJoint name transform children_])) st
  end.

(** the loop that collects [rootJoints] *)
Fixpoint collect_roots (budget : nat) (skins_ : list Skin) (rootJoints : list Z)
  : outcome (list Z) :=
  match skins_ with
  | [] => Ret rootJoints
  | skin :: rest =>
      rootJointIndex ← FindSkinRootJointIndex budget skin;
      if rootJointIndex =? -1 then collect_roots budget rest rootJoints
      else collect_roots budget rest (set_insert rootJointIndex rootJoints)
  end.

(** [Import(skeleton, types)]: the caller's [*skeleton] goes in and comes
    out; [budget] bounds each loop and the recursion of the traversal. *)
Definition Import_skeleton (budget : nat) (skeleton : RawSkeleton) (st : ImporterState)
  : outcome (bool * RawSkeleton * ImporterState) :=
  if (length (scenes m_model) =? 0)%nat then Ret (false, skeleton, st)
  else if (length (skins m_model) =? 0)%nat then Ret (false, skeleton, st)
  else
    let defaultScene_ := if defaultScene m_model =? -1 then 0 else defaultScene m_model in
    scene ← at_ (scenes m_model) defaultScene_;
    if (length (scene_nodes scene) =? 0)%nat then Ret (false, skeleton, st)
    else
      skins_ ← GetSkinsForScene budget scene;
      if (length skins_ =? 0)%nat then Ret (false, skeleton, st)
      else
        rootJoints ← collect_roots budget skins_ [];
        '(ok, skeleton, st) ← import_roots budget rootJoints skeleton st;
        if negb ok then Ret (false, skeleton, st)
        else if negb (RawSkeleton_Validate skeleton) then Ret (false, skeleton, st)
        else Ret (true, skeleton, st).

End Importer.

(** the names of a joint and of its descendants, depth first *)
Fixpoint joint_tree_names (j : Joint) : list string :=
  joint_name j :: flat_map joint_tree_names (joint_children j).

Definition skeleton_names (s : RawSkeleton) : list string :=
  flat_map joint_tree_names (roots s).

(** ** An environment for running the importer on concrete inputs *)

(** the size tables and type constants as [tiny_gltf.h] defines them *)
Definition tinygltf_component_size (componentType : Z) : Z :=
  if componentType =? 5120 then 1 else if componentType =? 5121 then 1
  else if componentType =? 5122 then 2 else if componentType =? 5123 then 2
  else if componentType =? 5124 then 4 else if componentType =? 5125 then 4
  else if componentType =? 5126 then 4 else if componentType =? 5130 then 8
  else -1.

Definition tinygltf_type_size (ty : Z) : Z :=
  if ty =? 65 then 1 else if ty =? 2 then 2 else if ty =? 3 then 3
  else if ty =? 4 then 4 else if ty =? 34 then 4 else if ty =? 35 then 9
  else if ty =? 36 then 16 else -1.

Definition COMPONENT_TYPE_FLOAT : Z := 5126.

(** ozz [math::Normalize] on quaternions: it asserts a non-zero length and
    scales by the inverse of the length *)
Definition ozz_Normalize (ndebug : bool) (q : Quaternion) : outcome Quaternion :=
  let sq_len :=
    F32.add (F32.add (F32.add (F32.mul (q_x q) (q_x q)) (F32.mul (q_y q) (q_y q)))
                     (F32.mul (q_z q) (q_z q))) (F32.mul (q_w q) (q_w q)) in
  if negb ndebug && F32.eqb sq_len F32.zero then Aborted
  else
    let inv_len := F32.div F32.one (F32.sqrt sq_len) in
    Ret (mkQuaternion (F32.mul (q_x q) inv_len) (F32.mul (q_y q) inv_len)
                      (F32.mul (q_z q) inv_len) (F32.mul (q_w q) inv_len)).

Definition reference_env (ndebug : bool)
    (validate_skeleton : RawSkeleton -> bool) (validate_animation : RawAnimation -> bool) : Env :=
  {| NDEBUG := ndebug;
     TINYGLTF_TYPE_SCALAR := 65;
     TINYGLTF_TYPE_VEC3 := 3;
     TINYGLTF_TYPE_VEC4 := 4;
     GetComponentSizeInBytes := tinygltf_component_size;
     GetTypeSizeInBytes := tinygltf_type_size;
     RawSkeleton_Validate := validate_skeleton;
     RawAnimation_Validate := validate_animation;
     Normalize := ozz_Normalize ndebug |}.

(** floats into buffer bytes *)
Definition floats_bytes (l : list float) : list Byte.byte := flat_map bytes_of_float l.

Module StepExample.

Definition f (m e : Z) := F32.of_scaled m e.

(* timestamps 0, 1 followed by the values (1,2,3), (4,5,6) *)
Definition buffer0 : Buffer :=
  mkBuffer (floats_bytes [f 0 0; f 1 0; f 1 0; f 2 0; f 3 0; f 4 0; f 5 0; f 6 0]).

Definition model : Model :=
  mkModel
    [ mkAccessor 0 0 COMPONENT_TYPE_FLOAT 2 65 [F64.of_Z 1];
      mkAccessor 0 8 COMPONENT_TYPE_FLOAT 2 3 [] ]
    [] [buffer0] [mkBufferView 0 0] [] [] [] (-1).

Definition env := reference_env true (fun _ => true) (fun _ => true).

Definition output_accessor : Accessor := mkAccessor 0 8 COMPONENT_TYPE_FLOAT 2 3 [].
Definition timestamps : list Byte.byte := data buffer0.

(* the keys of a translation track sampled from the two source samples *)
Definition sampled : outcome (bool * list (Key Float3)) :=
  Eval vm_compute in @SampleStepChannel env model Float3 _ output_accessor timestamps [].

End StepExample.

(** Modelled from the spec: the validation of the destination skeleton
    ([RawSkeleton::Validate] is not among the sources). The spec has it check
    that joint names are unique and non-empty; the tree of the model is
    acyclic by construction. *)
Definition RawSkeleton_Validate_spec (skeleton : RawSkeleton) : bool :=
  bool_decide (NoDup (skeleton_names skeleton)) &&
  forallb (fun name => negb (String.length name =? 0)%nat) (skeleton_names skeleton).

Fixpoint time_ordered {V} (keys : list (Key V)) : bool :=
  match keys with
  | k1 :: ((k2 :: _) as rest) => SFleb (time k1) (time k2) && time_ordered rest
  | _ => true
  end.

(** Modelled from the spec: the validation of the destination animation
    ([RawAnimation::Validate] is not among the sources). The spec's invariant
    of an output track: at least one key per property, and keys of a sequence
    ordered by non-decreasing time. *)
Definition RawAnimation_Validate_spec (animation : RawAnimation) : bool :=
  forallb
    (fun track =>
       negb (length (translations track) =? 0)%nat && time_ordered (translations track) &&
       negb (length (rotations track) =? 0)%nat && time_ordered (rotations track) &&
       negb (length (scales track) =? 0)%nat && time_ordered (scales track))
    (tracks animation).

Definition spec_env (ndebug : bool) : Env :=
  reference_env ndebug RawSkeleton_Validate_spec RawAnimation_Validate_spec.

(** A one-joint skeleton whose joint [root] is node 0, and the importer
    state left by its build. *)
Module OneJoint.

Definition f (m e : Z) := F32.of_scaled m e.

Definition root_node : Node := mkNode "root" [] [] [] [] [].
Definition skeleton : Skeleton := mkSkeleton ["root"].
Definition state : ImporterState := mkState {[ "root" := 0 ]} {[ 0 := "root" ]}.

(** an animation [anim] with one translation channel on node 0: the input
    accessor holds the two timestamps [t0], [t1] (maximum [t1]) in buffer 0,
    the output accessor holds [values] in buffer 1 as [n] 3-vectors *)
Definition model (interp : string) (t0 t1 : Z) (n : Z) (values : list float) : Model :=
  mkModel
    [ mkAccessor 0 0 COMPONENT_TYPE_FLOAT 2 65 [F64.of_Z t1];
      mkAccessor 1 0 COMPONENT_TYPE_FLOAT n 3 [] ]
    [ mkAnimation "anim" [mkChannel 0 0 "translation"] [mkSampler 0 1 interp] ]
    [ mkBuffer (floats_bytes [f t0 0; f t1 0]); mkBuffer (floats_bytes values) ]
    [ mkBufferView 0 0; mkBufferView 1 0 ]
    [ root_node ] [ mkScene "scene" [0] ] [ mkSkin [0] ] (-1).

(** the caller's animation object before the call: a default-constructed
    [RawAnimation] (duration 1, no track) *)
Definition fresh_animation : RawAnimation := mkRawAnimation "" F32.one [].

(** six 3-vectors: (in-tangent, value, out-tangent) of two source samples *)
Definition spline_values : list float :=
  [ f 0 0; f 0 0; f 0 0;   f 0 0; f 0 0; f 0 0;   f 0 0; f 0 0; f 0 0;
    f 0 0; f 0 0; f 0 0;   f 1 0; f 2 0; f 3 0;   f 0 0; f 0 0; f 0 0 ].

(** two 3-vectors: the values of two source samples *)
Definition two_values : list float := [ f 1 0; f 2 0; f 3 0;   f 4 0; f 5 0; f 6 0 ].

(** the same model with the name of node 0 left empty *)
Definition unnamed (m : Model) : Model :=
  mkModel (accessors m) (animations m) (buffers m) (bufferViews m)
    [ mkNode "" [] [] [] [] [] ] (scenes m) (skins m) (defaultScene m).

(** the same model with a second channel that has no target node and whose
    sampler reads an input accessor of declared maximum 5 *)
Definition with_untargeted_channel (m : Model) : Model :=
  mkModel
    (accessors m ++ [ mkAccessor 0 0 COMPONENT_TYPE_FLOAT 2 65 [F64.of_Z 5] ])
    [ mkAnimation "anim"
        [ mkChannel 0 0 "translation"; mkChannel 1 (-1) "translation" ]
        [ mkSampler 0 1 "LINEAR"; mkSampler 2 1 "LINEAR" ] ]
    (buffers m) (bufferViews m) (nodes m) (scenes m) (skins m) (defaultScene m).

(** the animation that the import of [anim] with a LINEAR channel returns *)
Definition linear_import : RawAnimation :=
  mkRawAnimation "anim" (F32.of_Z 1)
    [ mkJointTrack
        [ mkKey (F32.of_Z 0) (mkFloat3 (F32.of_Z 1) (F32.of_Z 2) (F32.of_Z 3));
          mkKey (F32.of_Z 1) (mkFloat3 (F32.of_Z 4) (F32.of_Z 5) (F32.of_Z 6)) ]
        [ mkKey F32.zero Quaternion_identity ]
        [ mkKey F32.zero Float3_one ] ].

End OneJoint.

(** three nodes: node 0 is named [a] and has the children 1, named [a_2],
    and 2, named [a] *)
Module DuplicateNames.

Definition model : Model :=
  mkModel [] [] [] []
    [ mkNode "a" [1; 2] [] [] [] [];
      mkNode "a_2" [] [] [] [] [];
      mkNode "a" [] [] [] [] [] ]
    [ mkScene "scene" [0] ] [ mkSkin [0; 1; 2] ] (-1).

Definition built : RawSkeleton :=
  mkRawSkeleton
    [ mkJoint "a" Transform_identity
        [ mkJoint "a_2" Transform_identity []; mkJoint "a_2" Transform_identity [] ] ].

(** the same nodes with the translation (1,1,1) on node 1 and (2,2,2) on
    node 2, and the animation of [OneJoint.model]: one LINEAR translation
    channel, on node 0 *)
Definition posed : Model :=
  let m := OneJoint.model "LINEAR" 0 1 2 OneJoint.two_values in
  mkModel (accessors m) (animations m) (buffers m) (bufferViews m)
    [ mkNode "a" [1; 2] [] [] [] [];
      mkNode "a_2" [] [] [F64.of_Z 1; F64.of_Z 1; F64.of_Z 1] [] [];
      mkNode "a" [] [] [F64.of_Z 2; F64.of_Z 2; F64.of_Z 2] [] [] ]
    [ mkScene "scene" [0] ] [ mkSkin [0; 1; 2] ] (-1).

End DuplicateNames.

(** two nodes of the same name: node 0, named [a], has the child 1, named
    [a] too *)
Module SameName.

Definition model : Model :=
  mkModel [] [] [] []
    [ mkNode "a" [1] [] [] [] []; mkNode "a" [] [] [] [] [] ]
    [ mkScene "scene" [0] ] [ mkSkin [0; 1] ] (-1).

End SameName.

(** two skeleton builds in one process, on the one-joint model *)
Module TwoBuilds.

Definition model : Model := OneJoint.model "LINEAR" 0 1 2 OneJoint.two_values.

Definition built (name : string) : RawSkeleton :=
  mkRawSkeleton [mkJoint name Transform_identity []].

Definition state_of (r : outcome (bool * RawSkeleton * ImporterState)) : ImporterState :=
  match r with
  | Ret (_, _, st) => st
  | _ => initial_state
  end.

Definition after_first : ImporterState :=
  Eval vm_compute in
    state_of (@Import_skeleton (spec_env true) model 5 (mkRawSkeleton []) initial_state).

Definition after_second : ImporterState :=
  Eval vm_compute in
    state_of (@Import_skeleton (spec_env true) model 5 (mkRawSkeleton []) after_first).

End TwoBuilds.

(** one node that lists itself as its child *)
Module CyclicExample.

Definition loop_node : Node := mkNode "loop" [0] [] [] [] [].

Definition model : Model :=
  mkModel [] [] [] [] [ loop_node ] [ mkScene "scene" [0] ] [ mkSkin [0] ] (-1).

End CyclicExample.

(** ** The remaining entry points *)

(** [GetAnimationNames]: the names of the animations, in their order;
    animations without a name are skipped *)
Definition GetAnimationNames (m_model : Model) : list string :=
  List.filter (fun name => negb (String.length name =? 0)%nat)
    (map animation_name (animations m_model)).

(** [path.find_last_of(c)]: the position of the last [c], [None] for [npos] *)
Fixpoint find_last_of (c : Ascii.ascii) (path : string) : option nat :=
  match path with
  | EmptyString => None
  | String a rest =>
      match find_last_of c rest with
      | Some i => Some (S i)
      | None => if Ascii.eqb a c then Some O else None
      end
  end.

(** [path.substr(pos)] for [pos] up to the size of [path] *)
Fixpoint substr_from (pos : nat) (path : string) : string :=
  match pos, path with
  | O, _ => path
  | S pos', String _ rest => substr_from pos' rest
  | S _, EmptyString => EmptyString
  end.

(** the character [.] *)
Definition dot : Ascii.ascii := Ascii.ascii_of_nat 46.

Definition GetFileExtension (path : string) : string :=
  match find_last_of dot path with
  | Some i => substr_from (i + 1) path
  | None => ""
  end.

(** ** Vocabulary of the properties *)

Definition lex_lt (e1 : Z) (m1 : positive) (e2 : Z) (m2 : positive) : Prop :=
  e1 < e2 \/ (e1 = e2 /\ (m1 < m2)%positive).

(** [d] is the greatest of the values in [P], or 0 when it exceeds them
    all: no value of [P] compares greater than [d], and [d] is 0 or is one of
    them. *)
Definition running_max (P : float -> Prop) (d : float) : Prop :=
  (forall x, P x -> F32.ltb d x = false) /\ (d = F32.zero \/ P d).

(** the channels filed under a joint name *)
Definition channels_of (cpj : gmap string (list AnimationChannel)) (name : string)
  : list AnimationChannel := default [] (cpj !! name).

(** the channels that the import samples: those of the animation with a
    target node whose name is a joint name of the skeleton *)
Definition sampled_channel (m_model : Model) (skeleton : Skeleton) (ga : Animation)
    (ch : AnimationChannel) : Prop :=
  ch ∈ channels ga /\ target_node ch <> -1 /\
  exists node, at_ (nodes m_model) (target_node ch) = Ret node /\
               node_name node ∈ joint_names skeleton.

(** the bind value of each property of a node: the three (four) components
    of the field narrowed to [float], or the default when the field is
    absent *)
Definition translation_bind_value (node : Node) : option Float3 :=
  match node_translation node with
  | [] => Some Float3_zero
  | x :: y :: z :: _ => Some (mkFloat3 (F32.of_double x) (F32.of_double y) (F32.of_double z))
  | _ => None
  end.

Definition rotation_bind_value (node : Node) : option Quaternion :=
  match node_rotation node with
  | [] => Some Quaternion_identity
  | x :: y :: z :: w :: _ =>
      Some (mkQuaternion (F32.of_double x) (F32.of_double y) (F32.of_double z) (F32.of_double w))
  | _ => None
  end.

Definition scale_bind_value (node : Node) : option Float3 :=
  match node_scale node with
  | [] => Some Float3_one
  | x :: y :: z :: _ => Some (mkFloat3 (F32.of_double x) (F32.of_double y) (F32.of_double z))
  | _ => None
  end.

(** [final] is [sampled] padded: a sequence left empty by the sampling holds
    exactly one key, at time 0, with the bind value; any other sequence is
    kept *)
Definition padded_sequence {V} (bind : option V) (sampled final : list (Key V)) : Prop :=
  match sampled with
  | [] => exists v, bind = Some v /\ final = [mkKey F32.zero v]
  | _ :: _ => final = sampled
  end.

(** the rate handed to [SampleAnimationChannel] for a joint with the
    channels [chs]: the resolved [float] rate of [Import] converted to [int] *)
Definition channel_rate (samplingRate : float) (chs : list AnimationChannel) (rate : Z)
  : Prop :=
  match chs with
  | [] => rate = 0
  | _ :: _ =>
      F32.to_int (if F32.eqb samplingRate F32.zero then F32.of_Z 60 else samplingRate)
        = Some rate
  end.

(** [sampled] is the track of joint [i], named [name], once the channels of
    the joint have been sampled and before padding *)
Definition track_after_sampling `{Env} (m_model : Model) (animationName : string)
    (skeleton : Skeleton) (samplingRate : float) (animation0 : RawAnimation)
    (i : nat) (name : string) (sampled : JointTrack) : Prop :=
  exists ga cpj track0 rate d d',
    List.find (fun a => String.eqb (animation_name a) animationName) (animations m_model)
      = Some ga /\
    for_each (channels ga) (group_channel m_model) ∅ = Ret cpj /\
    resize (length (joint_names skeleton)) JointTrack_init (tracks animation0) !! i
      = Some track0 /\
    channel_rate samplingRate (channels_of cpj name) rate /\
    sample_channels m_model ga (channels_of cpj name) rate d track0 = Ret (true, d', sampled).

(** the name of a node before disambiguation *)
Definition base_name (node : Node) (nodeIndex : Z) : string :=
  if (String.length (node_name node) =? 0)%nat then "gltf_node_" +:+ pretty nodeIndex
  else node_name node.

(** every name registered in [st] is still registered in [st'] *)
Definition names_grow (st st' : ImporterState) : Prop :=
  forall k, is_Some (existingNames st !! k) -> is_Some (existingNames st' !! k).

(** what the first [k] turns of the loop of [SampleStepChannel] have written *)
Definition step_written {V} `{ValueType V} (output : Accessor)
    (ts values : list Byte.byte) (k : nat) (kf : list (Key V)) : Prop :=
  forall i, (i < k)%nat ->
    exists t v,
      timestamp_at ts i = Ret t /\ value_at values i = Ret v /\
      kf !! (i * 2)%nat = Some (mkKey t v) /\
      ((i + 1 < Z.to_nat (count output))%nat ->
       exists t', timestamp_at ts (i + 1) = Ret t' /\
                  kf !! (i * 2 + 1)%nat = Some (mkKey (F32.sub t' eps) v)).

(** a property of the duration that survives every raise *)
Definition kept_by_raise (Q : float -> Prop) : Prop :=
  forall d x, Q d -> F32.gtb x d = true -> Q x.

(** a node index that the children relation reaches from [roots_] *)
Inductive reachable (m_model : Model) (roots_ : list Z) : Z -> Prop :=
| reachable_root r : r ∈ roots_ -> reachable m_model roots_ r
| reachable_child p node c :
    reachable m_model roots_ p ->
    at_ (nodes m_model) p = Ret node ->
    c ∈ node_children node ->
    reachable m_model roots_ c.

(** [joint] is the image of the node [nodeIndex] and of its descendants:
    its name is the name of the node (the synthesized one when the node has
    none), possibly followed by [_] and the node index, its transform is the
    one [CreateNodeTransform] gives the node, and its children are the images
    of the children of the node, in their order *)
#[warnings="-register-all"]
Inductive tree_of (m_model : Model) : Z -> Joint -> Prop :=
| tree_of_node nodeIndex node name transform children_ :
    at_ (nodes m_model) nodeIndex = Ret node ->
    name = base_name node nodeIndex \/
      name = base_name node nodeIndex +:+ "_" +:+ pretty nodeIndex ->
    CreateNodeTransform node = Ret (true, transform) ->
    Forall2 (tree_of m_model) (node_children node) children_ ->
    tree_of m_model nodeIndex (mkJoint name transform children_).

(** both registries of [st'] extend those of [st]: no entry is removed or
    changed *)
Definition state_extends (st st' : ImporterState) : Prop :=
  existingNames st ⊆ existingNames st' /\ m_nodeNames st ⊆ m_nodeNames st'.

(** a set of node indices each of which has a child in the set: the nodes
    of a cycle of the children relation, or nodes that lead to one *)
Definition never_ending (m_model : Model) (C : Z -> Prop) : Prop :=
  forall i, C i ->
    exists node c, at_ (nodes m_model) i = Ret node /\ c ∈ node_children node /\ C c.

(** [n] keys, the key at position [i] at the time [i / rate] *)
Definition evenly_timed {V} (rate : float) (n : nat) (keys : list (Key V)) : Prop :=
  length keys = n /\
  forall i, (i < n)%nat ->
    exists v, keys !! i = Some (mkKey (F32.div (F32.of_Z (Z.of_nat i)) rate) v).

(** the size of the key values of the property that a channel targets *)
Definition path_sizeof (targetPath : string) : option Z :=
  if String.eqb targetPath "translation" then Some (@sizeof Float3 _)
  else if String.eqb targetPath "rotation" then Some (@sizeof Quaternion _)
  else if String.eqb targetPath "scale" then Some (@sizeof Float3 _)
  else None.

(** [channel] targets a node named [name] *)
Definition targets (m_model : Model) (name : string) (channel : AnimationChannel) : bool :=
  negb (target_node channel =? -1) &&
  match at_ (nodes m_model) (target_node channel) with
  | Ret targetNode => String.eqb (node_name targetNode) name
  | _ => false
  end.

(** * Properties *)

(** ** Cells of a buffer *)

Example read_float_one :
  read_float (bytes_of_float F32.zero ++ bytes_of_float F32.one) 1 = Some F32.one.
Proof. reflexivity. Qed.

Example one_bits : F32.to_bits F32.one = 0x3F800000.
Proof. reflexivity. Qed.

(** ** Loops *)

Section Loops.

Context `{Env}.

Lemma obind_Ret {A B} (x : outcome A) (f : A -> outcome B) (b : B) :
  obind x f = Ret b -> exists a, x = Ret a /\ f a = Ret b.
Proof. destruct x; simpl; try discriminate. eauto. Qed.

Lemma bind_Ret {A B} (x : outcome A) (f : A -> outcome B) (b : B) :
  (x ≫= f) = Ret b -> exists a, x = Ret a /\ f a = Ret b.
Proof. apply obind_Ret. Qed.

Lemma for_each_invariant {A S} (P : S -> Prop) (l : list A)
    (body : A -> S -> outcome S) (s s' : S) :
  (forall a s s', a ∈ l -> P s -> body a s = Ret s' -> P s') ->
  P s -> for_each l body s = Ret s' -> P s'.
Proof.
  revert s. induction l as [|a l IH]; intros s Hbody Hs Hrun; simpl in Hrun.
  - congruence.
  - apply bind_Ret in Hrun as (s1 & H1 & H2).
    apply (IH s1); [| |assumption].
    + intros b t t' Hb. apply Hbody. by right.
    + eapply Hbody; [by left| |]; eassumption.
Qed.

Lemma store_Ret {A} (v : list A) (i : nat) (x : A) (v' : list A) :
  store v i x = Ret v' -> (i < length v)%nat /\ v' = <[i := x]> v.
Proof. unfold store. case_decide; [|discriminate]. intros [= <-]. done. Qed.

Lemma for_each_prefix_invariant {A S} (P : list A -> S -> Prop) (l : list A)
    (body : A -> S -> outcome S) (s s' : S) :
  P [] s ->
  (forall pre a s s', P pre s -> body a s = Ret s' -> P (pre ++ [a]) s') ->
  for_each l body s = Ret s' -> P l s'.
Proof.
  intros H0 Hbody.
  enough (Hgen : forall pre s, P pre s -> for_each l body s = Ret s' -> P (pre ++ l) s').
  { apply (Hgen [] s H0). }
  induction l as [|a l IH]; intros pre t Ht Hrun; simpl in Hrun.
  - injection Hrun as <-. by rewrite app_nil_r.
  - apply bind_Ret in Hrun as (t1 & H1 & H2).
    replace (pre ++ a :: l) with ((pre ++ [a]) ++ l) by (by rewrite <- app_assoc).
    apply (IH _ t1); [|exact H2]. by eapply Hbody.
Qed.

Lemma for_each_split_invariant {A S} (P : list A -> S -> Prop) (l : list A)
    (body : A -> S -> outcome S) (s s' : S) :
  P [] s ->
  (forall pre a suf s s',
     l = pre ++ a :: suf -> P pre s -> body a s = Ret s' -> P (pre ++ [a]) s') ->
  for_each l body s = Ret s' -> P l s'.
Proof.
  intros H0 Hbody.
  enough (Hgen : forall rest pre s,
            l = pre ++ rest -> P pre s -> for_each rest body s = Ret s' -> P l s').
  { apply (Hgen l [] s); [reflexivity|exact H0]. }
  induction rest as [|a rest IH]; intros pre t Hl Ht Hrun; simpl in Hrun.
  - injection Hrun as <-. by rewrite Hl, app_nil_r.
  - apply bind_Ret in Hrun as (t1 & H1 & H2).
    apply (IH (pre ++ [a]) t1); [by rewrite <- app_assoc| |exact H2].
    by eapply Hbody.
Qed.

Lemma seq_split_head (n : nat) (pre suf : list nat) (a : nat) :
  seq 0 n = pre ++ a :: suf -> a = length pre /\ (a < n)%nat.
Proof.
  intros Hseq.
  assert (Hlook : seq 0 n !! length pre = Some a).
  { rewrite Hseq. by apply list_lookup_middle. }
  apply lookup_seq in Hlook as [-> Hlt]. by split.
Qed.

End Loops.

(** a tactic that opens one monadic step of a run that returned *)
Ltac step_ret H :=
  let a := fresh "r" in
  let H1 := fresh "Hstep" in
  apply bind_Ret in H as (a & H1 & H).

Ltac invert_run H :=
  repeat first
    [ step_ret H
    | match type of H with
      | (let '(_, _) := ?x in _) = Ret _ =>
          is_var x; destruct x; cbv beta iota in H
      | (match ?x with Some _ => _ | None => _ end) = Ret _ => destruct x eqn:?
      | (if ?b then _ else _) = Ret _ => destruct b eqn:?
      end
    | discriminate H ].

(** ** STEP sampling *)

Section Step.

Context `{Env} (m_model : Model) {V : Type} `{ValueType V}.

Lemma step_body_length output ts values i (kf kf' : list (Key V)) :
  step_body output ts values i kf = Ret kf' -> length kf' = length kf.
Proof.
  unfold step_body. intros Hrun.
  step_ret Hrun. step_ret Hrun. step_ret Hrun.
  apply store_Ret in Hstep1 as [_ ->].
  destruct (_ <? _).
  - step_ret Hrun. step_ret Hrun. apply store_Ret in Hrun as [_ ->].
    by rewrite !length_insert.
  - injection Hrun as <-. by rewrite length_insert.
Qed.

(** the slot at index [2n - 1] is written by no turn of the loop *)
Lemma step_body_last output ts values i (kf kf' : list (Key V)) (j : nat) :
  0 <= count output < 2 ^ 63 ->
  (i < Z.to_nat (count output))%nat ->
  j = Z.to_nat (2 * count output - 1) ->
  step_body output ts values i kf = Ret kf' -> kf' !! j = kf !! j.
Proof.
  unfold step_body. intros Hc Hi -> Hrun.
  step_ret Hrun. step_ret Hrun. step_ret Hrun.
  apply store_Ret in Hstep1 as [_ ->].
  destruct (Z.ltb_spec (Z.of_nat i) (size_t_wrap (count output - 1))) as [Hlt|Hge].
  - step_ret Hrun. step_ret Hrun. apply store_Ret in Hrun as [_ ->].
    unfold size_t_wrap in Hlt. rewrite Z.mod_small in Hlt by lia.
    rewrite !list_lookup_insert_ne by lia. done.
  - injection Hrun as <-. rewrite list_lookup_insert_ne by lia. done.
Qed.

Lemma step_body_written output ts values a (kf kf' : list (Key V)) :
  0 <= count output < 2 ^ 63 ->
  (a < Z.to_nat (count output))%nat ->
  step_written output ts values a kf ->
  step_body output ts values a kf = Ret kf' ->
  step_written output ts values (S a) kf'.
Proof.
  unfold step_body. intros Hc Ha Hprev Hrun.
  apply bind_Ret in Hrun as (t & Ht & Hrun).
  apply bind_Ret in Hrun as (v & Hv & Hrun).
  apply bind_Ret in Hrun as (kf1 & Hkf1 & Hrun).
  apply store_Ret in Hkf1 as [Hlen ->].
  unfold size_t_wrap in Hrun. rewrite Z.mod_small in Hrun by lia.
  destruct (Z.ltb_spec (Z.of_nat a) (count output - 1)) as [Hlt|Hge].
  - apply bind_Ret in Hrun as (t' & Ht' & Hrun).
    apply bind_Ret in Hrun as (v' & Hv' & Hrun).
    apply store_Ret in Hrun as [Hlen' ->].
    rewrite Hv in Hv'. injection Hv' as <-.
    intros i Hi. destruct (decide (i = a)) as [->|Hne].
    + exists t, v. repeat split; try done.
      * rewrite list_lookup_insert_ne by lia. by apply list_lookup_insert_eq.
      * intros _. exists t'. split; [done|]. by apply list_lookup_insert_eq.
    + destruct (Hprev i) as (ti & vi & Hti & Hvi & Hk & Hk'); [lia|].
      exists ti, vi. repeat split; try done.
      * by rewrite !list_lookup_insert_ne by lia.
      * intros Hi'. destruct (Hk' Hi') as (ti' & Hti' & Hki').
        exists ti'. split; [done|]. by rewrite !list_lookup_insert_ne by lia.
  - injection Hrun as <-.
    intros i Hi. destruct (decide (i = a)) as [->|Hne].
    + exists t, v. repeat split; try done.
      * by apply list_lookup_insert_eq.
      * intros Hnext. lia.
    + destruct (Hprev i) as (ti & vi & Hti & Hvi & Hk & Hk'); [lia|].
      exists ti, vi. repeat split; try done.
      * by rewrite list_lookup_insert_ne by lia.
      * intros Hi'. destruct (Hk' Hi') as (ti' & Hti' & Hki').
        exists ti'. split; [done|]. by rewrite list_lookup_insert_ne by lia.
Qed.

End Step.

(** C1 (as the code has it). A STEP channel with [n] source samples is
    sampled into [2n] keys, not [2n - 1]: [keyframes.resize(output.count * 2)]
    sizes the vector and the loop leaves its last slot untouched, so when the
    vector grew the last key is the value-initialised one (time 0, zero
    value), placed after the key of the last source sample. The other keys
    are as expected: key [2i] carries the time and value of source sample
    [i], and key [2i+1], for [i] not the last index, the time
    [time[i+1] - eps] with the value of sample [i]. *)
Theorem C1_step_key_count `{Env} (m_model : Model) {V : Type} `{ValueType V}
    (output_ : Accessor) (timestamps : list Byte.byte) (keyframes keyframes' : list (Key V)) :
  0 <= count output_ < 2 ^ 63 ->
  SampleStepChannel m_model output_ timestamps keyframes = Ret (true, keyframes') ->
  length keyframes' = Z.to_nat (2 * count output_) /\
  (1 <= count output_ -> (length keyframes < Z.to_nat (2 * count output_))%nat ->
   keyframes' !! Z.to_nat (2 * count output_ - 1) = Some Key_init) /\
  exists values,
    BufferView m_model sizeof output_ = Ret (Some values) /\
    forall i, (i < Z.to_nat (count output_))%nat ->
      exists t v,
        timestamp_at timestamps i = Ret t /\ value_at values i = Ret v /\
        keyframes' !! (i * 2)%nat = Some (mkKey t v) /\
        ((i + 1 < Z.to_nat (count output_))%nat ->
         exists t', timestamp_at timestamps (i + 1) = Ret t' /\
                    keyframes' !! (i * 2 + 1)%nat = Some (mkKey (F32.sub t' eps) v)).
Proof.
  intros Hc Hrun. unfold SampleStepChannel in Hrun.
  step_ret Hrun. destruct r as [values|]; [|discriminate].
  step_ret Hrun. injection Hrun as <-.
  assert (Hsz : Z.to_nat (size_t_wrap (count output_ * 2)) = Z.to_nat (2 * count output_)).
  { unfold size_t_wrap. rewrite Z.mod_small by lia. f_equal. lia. }
  rewrite Hsz in Hstep0. split; [|split].
  - revert Hstep0.
    apply (for_each_invariant (fun s => length s = Z.to_nat (2 * count output_))).
    + intros i s s' _ Hs Hb. apply step_body_length in Hb. congruence.
    + apply length_resize.
  - intros Hn Hlen. revert Hstep0.
    apply (for_each_invariant
             (fun s => s !! Z.to_nat (2 * count output_ - 1) = Some Key_init)).
    + intros i s s' Hi Hs Hb. rewrite <- Hs.
      apply elem_of_seq in Hi.
      eapply step_body_last; [exact Hc| |reflexivity|exact Hb]. lia.
    + rewrite lookup_resize_new; [done| |]; lia.
  - exists values. split; [exact Hstep|].
    apply (for_each_split_invariant
             (fun pre s => step_written output_ timestamps values (length pre) s))
      in Hstep0.
    + by rewrite length_seq in Hstep0.
    + intros i Hi. simpl in Hi. lia.
    + intros pre a suf s s' Hsplit Hpre Hbody.
      apply seq_split_head in Hsplit as [-> Ha].
      rewrite length_app. simpl. rewrite Nat.add_1_r.
      by eapply step_body_written.
Qed.

Lemma C1_step_key_count_witness :
  StepExample.sampled =
    Ret (true,
         [ mkKey (F32.of_Z 0) (mkFloat3 (F32.of_Z 1) (F32.of_Z 2) (F32.of_Z 3));
           mkKey (F32.sub (F32.of_Z 1) eps) (mkFloat3 (F32.of_Z 1) (F32.of_Z 2) (F32.of_Z 3));
           mkKey (F32.of_Z 1) (mkFloat3 (F32.of_Z 4) (F32.of_Z 5) (F32.of_Z 6));
           Key_init ]) /\
  forall keys, StepExample.sampled = Ret (true, keys) ->
    length keys = 4%nat /\ keys !! 3%nat = Some Key_init.
Proof.
  split; [vm_compute; reflexivity|].
  intros keys Hs.
  destruct (@C1_step_key_count StepExample.env StepExample.model Float3 _
              StepExample.output_accessor StepExample.timestamps [] keys) as (Hlen & Hlast & _).
  - vm_compute. split; [discriminate|reflexivity].
  - exact Hs.
  - split; [exact Hlen|]. apply Hlast; [vm_compute; discriminate|simpl; lia].
Defined.

(** ** Cubic-spline sampling *)

(** the key count is a [size_t]; a product of duration and rate whose floor
    plus one is not, has no key count *)
Lemma cubic_key_count_size_t (duration_ rate : float) (n : nat) :
  cubic_key_count duration_ rate = Ret n -> Z.of_nat n < 2 ^ 64.
Proof.
  unfold cubic_key_count. intros Hrun.
  apply bind_Ret in Hrun as (z & Hz & Hrun). injection Hrun as <-.
  unfold F32.to_size_t in Hz.
  destruct (F32.add _ _) as [?|?| |s m e]; simpl in Hz; try discriminate.
  - injection Hz as <-. simpl. lia.
  - cbv zeta in Hz.
    match type of Hz with
    | defined (if (0 <=? ?t) && _ then _ else _) = _ => set (t' := t) in Hz
    end.
    destruct ((0 <=? t') && (t' <? 2 ^ 64)) eqn:Hrange; [|discriminate].
    injection Hz as <-. apply andb_true_iff in Hrange as [Hlo Hhi].
    apply Z.leb_le in Hlo. apply Z.ltb_lt in Hhi. rewrite Z2Nat.id by exact Hlo.
    exact Hhi.
Qed.

Example cubic_key_count_out_of_range :
  cubic_key_count (F32.of_Z (10 ^ 18)) (F32.of_Z 60) = Undef /\
  cubic_key_count (F32.of_Z (-1)) (F32.of_Z 60) = Undef /\
  cubic_key_count S754_nan (F32.of_Z 60) = Undef /\
  cubic_key_count (F32.of_Z 2) (F32.of_Z 60) = Ret 121%nat.
Proof. vm_compute. repeat split; reflexivity. Qed.

Section Cubic.

Context `{Env} (m_model : Model) {V : Type} `{ValueType V}.

Lemma cubic_body_length ts values n rate i (kf kf' : list (Key V)) c c' :
  cubic_body ts values n rate i (kf, c) = Ret (kf', c') -> length kf' = length kf.
Proof.
  unfold cubic_body. intros Hrun.
  do 7 (apply bind_Ret in Hrun as (? & _ & Hrun)).
  apply bind_Ret in Hrun as (kf1 & Hkf & Hrun).
  apply store_Ret in Hkf as [_ ->]. injection Hrun as <- _. apply length_insert.
Qed.

Lemma cubic_body_times ts values n rate a (st st' : list (Key V) * nat) :
  (forall i, (i < a)%nat ->
     exists v, st.1 !! i = Some (mkKey (F32.div (F32.of_Z (Z.of_nat i)) rate) v)) ->
  cubic_body ts values n rate a st = Ret st' ->
  forall i, (i < S a)%nat ->
    exists v, st'.1 !! i = Some (mkKey (F32.div (F32.of_Z (Z.of_nat i)) rate) v).
Proof.
  destruct st as [kf c], st' as [kf' c']. unfold cubic_body. simpl. intros Hprev Hrun.
  do 7 (apply bind_Ret in Hrun as (? & _ & Hrun)).
  apply bind_Ret in Hrun as (kf1 & Hkf & Hrun).
  apply store_Ret in Hkf as [Hlen ->]. injection Hrun as <- _.
  intros i Hi. destruct (decide (i = a)) as [->|Hne].
  - eexists. by apply list_lookup_insert_eq.
  - destruct (Hprev i) as [v Hv]; [lia|]. exists v. by rewrite list_lookup_insert_ne.
Qed.

(** What the spline sampler does deliver, for the sampling rate it is
    handed: [floor(duration * samplingRate) + 1] keys, the key at position
    [i] at the time [i / samplingRate]. *)
Lemma SampleCubicSplineChannel_keys output_ ts (kf kf' : list (Key V)) rate duration_ :
  SampleCubicSplineChannel m_model output_ ts kf rate duration_ = Ret (true, kf') ->
  cubic_key_count duration_ rate = Ret (length kf') /\
  forall i, (i < length kf')%nat ->
    exists v, kf' !! i = Some (mkKey (F32.div (F32.of_Z (Z.of_nat i)) rate) v).
Proof.
  unfold SampleCubicSplineChannel. intros Hrun.
  apply bind_Ret in Hrun as ([values|] & _ & Hrun); [|discriminate].
  apply bind_Ret in Hrun as (? & _ & Hrun).
  apply bind_Ret in Hrun as (n & Hn & Hrun).
  apply bind_Ret in Hrun as ([kf1 c1] & Hloop & Hrun). injection Hrun as <-.
  rewrite length_resize in Hloop.
  assert (Hlen : length kf1 = n).
  { apply (for_each_invariant (fun st : list (Key V) * nat => length st.1 = n)) in Hloop.
    - exact Hloop.
    - intros i [k c] [k' c'] _ Hk Hb. simpl in *. apply cubic_body_length in Hb. congruence.
    - apply length_resize. }
  split; [by rewrite Hlen|].
  pose (P := fun (pre : list nat) (st : list (Key V) * nat) =>
               forall i, (i < length pre)%nat ->
                 exists v, st.1 !! i = Some (mkKey (F32.div (F32.of_Z (Z.of_nat i)) rate) v)).
  assert (Hfinal : P (seq 0 n) (kf1, c1)).
  { eapply (for_each_split_invariant P); [| |exact Hloop].
    - intros i Hi. simpl in Hi. lia.
    - intros pre a suf st st' Hsplit Hpre Hbody.
      apply seq_split_head in Hsplit as [-> _].
      unfold P. rewrite length_app. simpl. rewrite Nat.add_1_r.
      by eapply cubic_body_times. }
  unfold P in Hfinal. rewrite length_seq in Hfinal. rewrite Hlen. exact Hfinal.
Qed.

End Cubic.

(** the cursor loop ends within its budget: by its guard, or by a read
    outside the buffer *)
Lemma advance_cursor_ends (timestamps : list Byte.byte) (numKeyframes : Z) (time_ : float) :
  forall budget currentKey,
    (1 <= budget)%nat ->
    (length timestamps + 4 <= 4 * (currentKey + budget))%nat ->
    advance_cursor budget timestamps numKeyframes time_ currentKey <> OutOfBudget.
Proof.
  induction budget as [|budget IH]; intros currentKey Hb Hlen; [lia|].
  simpl. unfold timestamp_at, read_float.
  destruct (timestamps !! (4 * currentKey)%nat) eqn:H0; [|discriminate].
  destruct (timestamps !! (4 * currentKey + 1)%nat) eqn:H1; [|discriminate].
  destruct (timestamps !! (4 * currentKey + 2)%nat) eqn:H2; [|discriminate].
  destruct (timestamps !! (4 * currentKey + 3)%nat) eqn:H3; [|discriminate].
  apply lookup_lt_Some in H3. simpl.
  destruct (_ && _); [|discriminate].
  apply IH; lia.
Qed.

(** what the guard does ensure: the cursor never moves back, and a cursor
    that moved is at most the index of the last source sample *)
Lemma advance_cursor_bounds (timestamps : list Byte.byte) (numKeyframes : Z) (time_ : float) :
  1 <= numKeyframes < 2 ^ 64 ->
  forall budget currentKey currentKey',
    advance_cursor budget timestamps numKeyframes time_ currentKey = Ret currentKey' ->
    (currentKey <= currentKey')%nat /\
    (currentKey' = currentKey \/ Z.of_nat currentKey' <= numKeyframes - 1).
Proof.
  intros Hn. induction budget as [|budget IH]; intros c c' Hrun; [discriminate|].
  simpl in Hrun. apply bind_Ret in Hrun as (ts & _ & Hrun).
  destruct (F32.gtb ts time_); simpl in Hrun.
  - destruct (Z.ltb_spec (Z.of_nat c) (size_t_wrap (numKeyframes - 1))) as [Hlt|Hge].
    + apply IH in Hrun as [Hle Hcase]. split; [lia|]. right.
      unfold size_t_wrap in Hlt. rewrite Z.mod_small in Hlt by lia.
      destruct Hcase as [->|Hle']; lia.
    + injection Hrun as <-. split; [lia|by left].
  - injection Hrun as <-. split; [lia|by left].
Qed.

(** C2 (as the code has it). The guard of the cursor loop is
    [currentKey < numKeyframes - 1], so the cursor stops at the index of the
    last source sample, not of the second-to-last. With the two source
    timestamps 1 and 2 and the destination time 0 the cursor ends at 1, the
    last index, and the read of [timestamps[currentKey + 1]] that follows is
    outside the two timestamps of the buffer. *)
Theorem C2_cursor_reaches_last_sample :
  let timestamps := floats_bytes [F32.of_Z 1; F32.of_Z 2] in
  let numKeyframes := 2 in
  let m := OneJoint.model "CUBICSPLINE" 1 2 6 OneJoint.spline_values in
  @advance_cursor (S (length timestamps)) timestamps numKeyframes (F32.of_Z 0) 0 = Ret 1%nat /\
  Z.of_nat (1 + 1) = numKeyframes /\
  timestamp_at timestamps (1 + 1) = Undef /\
  @SampleCubicSplineChannel (spec_env true) m Float3 _
     (mkAccessor 1 0 COMPONENT_TYPE_FLOAT 6 3 []) timestamps [] (F32.of_Z 1) (F32.of_Z 2) = Undef /\
  @Import_animation (spec_env true) m OneJoint.state "anim" OneJoint.skeleton
     (F32.of_Z 1) OneJoint.fresh_animation = Undef.
Proof. vm_compute. repeat split; reflexivity. Qed.

(** C7 (as the code has it). [SampleAnimationChannel] takes the sampling
    rate as an [int], so the rate 2.5 handed to [Import] reaches the spline
    sampler as 2: a channel of duration 2 gets [floor(2 * 2) + 1 = 5] keys
    at the times 0, 0.5, 1, 1.5, 2, where [floor(2 * 2.5) + 1] is 6. *)
Theorem C7_sampling_rate_truncated :
  let m := OneJoint.model "CUBICSPLINE" 0 2 6 OneJoint.spline_values in
  let samplingRate := F32.of_scaled 5 (-1) in
  exists a track,
    @Import_animation (spec_env true) m OneJoint.state "anim" OneJoint.skeleton
      samplingRate OneJoint.fresh_animation = Ret (true, a) /\
    tracks a = [track] /\
    duration a = F32.of_Z 2 /\
    time <$> translations track =
      [F32.of_Z 0; F32.of_scaled 1 (-1); F32.of_Z 1; F32.of_scaled 3 (-1); F32.of_Z 2] /\
    length (translations track) = 5%nat /\
    cubic_key_count (F32.of_Z 2) samplingRate = Ret 6%nat.
Proof.
  do 2 eexists.
  split; [vm_compute; reflexivity|].
  split; [reflexivity|].
  vm_compute. repeat split; reflexivity.
Qed.

(** ** Channels and joints *)

(** C3 (as the code has it). Channels are grouped under the raw name of
    their target node, and looked up under the joint names of the skeleton.
    A node without a name becomes the joint [gltf_node_0]; its channel is
    filed under the empty name, is never sampled, and the track of the joint
    holds the bind pose only. The same channel on a named node is sampled. *)
Theorem C3_channel_of_unnamed_node_dropped :
  let named := OneJoint.model "LINEAR" 0 1 2 OneJoint.two_values in
  let m := OneJoint.unnamed named in
  exists sk st a a',
    @Import_skeleton (spec_env true) m 5 (mkRawSkeleton []) initial_state = Ret (true, sk, st) /\
    skeleton_names sk = ["gltf_node_0"] /\
    @Import_animation (spec_env true) m st "anim" (mkSkeleton (skeleton_names sk))
      (F32.of_Z 1) OneJoint.fresh_animation = Ret (true, a) /\
    translations <$> tracks a = [[mkKey F32.zero Float3_zero]] /\
    duration a = F32.zero /\
    @Import_animation (spec_env true) named OneJoint.state "anim" OneJoint.skeleton
      (F32.of_Z 1) OneJoint.fresh_animation = Ret (true, a') /\
    translations <$> tracks a' =
      [[mkKey (F32.of_Z 0) (mkFloat3 (F32.of_Z 1) (F32.of_Z 2) (F32.of_Z 3));
        mkKey (F32.of_Z 1) (mkFloat3 (F32.of_Z 4) (F32.of_Z 5) (F32.of_Z 6))]].
Proof.
  do 4 eexists.
  split; [vm_compute; reflexivity|].
  split; [vm_compute; reflexivity|].
  split; [vm_compute; reflexivity|].
  split; [vm_compute; reflexivity|].
  split; [vm_compute; reflexivity|].
  split; vm_compute; reflexivity.
Qed.

(** ** Joint names *)

(** The name making alone does not keep names apart. On the nodes [a]
    (children 1 and 2), [a_2], [a], the third call of [CreateJointName]
    finds [a] taken and returns [a_2], which the second call has already
    given out; the suffixed name is not looked up again. The skeleton handed
    to the validation has two joints named [a_2], [Import] returns what the
    validation answers, and the validation of the destination format, which
    admits no duplicate, rejects it. *)
Lemma suffixed_name_given_twice :
  forall (ndebug : bool) (validate_skeleton : RawSkeleton -> bool)
         (validate_animation : RawAnimation -> bool),
    skeleton_names DuplicateNames.built = ["a"; "a_2"; "a_2"] /\
    ~ NoDup (skeleton_names DuplicateNames.built) /\
    RawSkeleton_Validate_spec DuplicateNames.built = false /\
    exists st,
      @Import_skeleton (reference_env ndebug validate_skeleton validate_animation)
        DuplicateNames.model 5 (mkRawSkeleton []) initial_state
      = Ret (validate_skeleton DuplicateNames.built, DuplicateNames.built, st).
Proof.
  intros ndebug vs va. split; [reflexivity|]. split; [|split; [reflexivity|]].
  - intros Hnd. apply NoDup_cons in Hnd as [_ Hnd].
    apply NoDup_cons in Hnd as [Hin _]. apply Hin. by left.
  - eexists. unfold Import_skeleton.
    change (RawSkeleton_Validate) with vs. vm_compute.
    destruct (vs _); reflexivity.
Qed.




(** ** The order of [float] comparisons *)

Lemma SFltb_irrefl (x : spec_float) : SFltb x x = false.
Proof.
  unfold SFltb. destruct x as [[]|[]| |[] m e]; simpl; try reflexivity;
    rewrite Z.compare_refl; change (Pos.compare_cont Eq m m) with (Pos.compare m m);
    rewrite Pos.compare_refl; reflexivity.
Qed.

Lemma lex_cmp_Lt e1 m1 e2 m2 :
  match e1 ?= e2 with Lt => Lt | Gt => Gt | Eq => Pos.compare_cont Eq m1 m2 end = Lt
  <-> lex_lt e1 m1 e2 m2.
Proof.
  unfold lex_lt. change (Pos.compare_cont Eq m1 m2) with (Pos.compare m1 m2).
  destruct (Z.compare_spec e1 e2); destruct (Pos.compare_spec m1 m2); split; intros; try lia; try discriminate; try reflexivity.
Qed.

Lemma lex_cmp_Gt e1 m1 e2 m2 :
  match e1 ?= e2 with Lt => Gt | Gt => Lt | Eq => CompOpp (Pos.compare_cont Eq m1 m2) end = Lt
  <-> lex_lt e2 m2 e1 m1.
Proof.
  unfold lex_lt. change (Pos.compare_cont Eq m1 m2) with (Pos.compare m1 m2).
  destruct (Z.compare_spec e1 e2); destruct (Pos.compare_spec m1 m2); simpl; split; intros; try lia; try discriminate; try reflexivity.
Qed.

Lemma SFltb_finite s1 m1 e1 s2 m2 e2 :
  SFltb (S754_finite s1 m1 e1) (S754_finite s2 m2 e2) = true <->
  match s1, s2 with
  | true, false => True
  | false, true => False
  | false, false => lex_lt e1 m1 e2 m2
  | true, true => lex_lt e2 m2 e1 m1
  end.
Proof.
  unfold SFltb, SFcompare. destruct s1, s2.
  - rewrite <- lex_cmp_Gt. destruct (match e1 ?= e2 with Lt => _ | _ => _ end); split; congruence.
  - split; auto.
  - split; [discriminate|tauto].
  - rewrite <- lex_cmp_Lt. destruct (match e1 ?= e2 with Lt => _ | _ => _ end); split; congruence.
Qed.

Lemma SFltb_trans (x y z : spec_float) :
  SFltb x y = true -> SFltb y z = true -> SFltb x z = true.
Proof.
  destruct x as [[]|[]| |sx mx ex], y as [[]|[]| |sy my ey], z as [[]|[]| |sz mz ez];
    try (intros; reflexivity); try (intros; discriminate);
    repeat match goal with s : bool |- _ => destruct s end;
    try (intros; reflexivity); try (intros; discriminate).
  all: rewrite !SFltb_finite; unfold lex_lt; intros; try tauto; lia.
Qed.

(** ** Duration of an animation *)

Lemma running_max_ext (P Q : float -> Prop) (d : float) :
  (forall x, P x <-> Q x) -> running_max P d -> running_max Q d.
Proof.
  intros HPQ [Hub Hin]. split.
  - intros x Hx. apply Hub, HPQ, Hx.
  - destruct Hin as [->|Hd]; [by left|right; by apply HPQ].
Qed.

Lemma running_max_step (P : float -> Prop) (d x : float) :
  running_max P d ->
  running_max (fun y => P y \/ y = x) (if F32.gtb x d then x else d).
Proof.
  intros [Hub Hin]. unfold F32.gtb. destruct (SFltb d x) eqn:Hlt.
  - split.
    + intros y [Hy| ->]; [|apply SFltb_irrefl].
      unfold F32.ltb. destruct (SFltb x y) eqn:Hxy; [|reflexivity].
      rewrite <- (Hub y Hy). unfold F32.ltb. symmetry. by eapply SFltb_trans.
    + right. by right.
  - split.
    + intros y [Hy| ->]; [by apply Hub|exact Hlt].
    + destruct Hin as [->|Hd]; [by left|right; by left].
Qed.

Section Duration.

Context `{Env} (m_model : Model).

(** inversion of a run that returned: opens binds, pattern bindings and
    branches until only returned values remain *)
Ltac run_inv H :=
  repeat first
    [ step_ret H
    | match type of H with
      | (let '(_, _) := ?x in _) = Ret _ =>
          is_var x; destruct x; cbv beta iota in H
      | (match ?x with Some _ => _ | None => _ end) = Ret _ => destruct x eqn:?
      | (if ?b then _ else _) = Ret _ => destruct b eqn:?
      end
    | discriminate H ].

Lemma SampleAnimationChannel_duration sampler_ targetPath d track rate ok d' track' :
  SampleAnimationChannel m_model sampler_ targetPath d track rate = Ret (ok, d', track') ->
  exists x, sampler_input_max m_model sampler_ = Ret x /\
            d' = if F32.gtb x d then x else d.
Proof.
  unfold SampleAnimationChannel, sampler_input_max. intros Hrun.
  apply bind_Ret in Hrun as (input_ & Hin & Hrun).
  apply bind_Ret in Hrun as (? & _ & Hrun).
  apply bind_Ret in Hrun as (max0 & Hmax & Hrun).
  rewrite Hin. unfold mbind at 1, outcome_bind, obind at 1. rewrite Hmax.
  exists (F32.of_double max0). split; [reflexivity|].
  run_inv Hrun; injection Hrun as _ <- _; reflexivity.
Qed.

Lemma sample_channels_duration ga chs rate (P : float -> Prop) d track d' track' :
  sample_channels m_model ga chs rate d track = Ret (true, d', track') ->
  running_max P d ->
  running_max (fun y => P y \/ exists ch, ch ∈ chs /\ channel_input_max m_model ga ch = Ret y) d'
  /\ (forall ch, ch ∈ chs -> exists x, channel_input_max m_model ga ch = Ret x).
Proof.
  revert P d track. induction chs as [|ch chs IH]; intros P d track Hrun HP; simpl in Hrun.
  - injection Hrun as <- _. split.
    + eapply running_max_ext; [|exact HP]. intros x. split; [by left|].
      intros [Hx|(ch & Hch & _)]; [done|]. by apply elem_of_nil in Hch.
    + intros ch Hch. by apply elem_of_nil in Hch.
  - apply bind_Ret in Hrun as (sampler_ & Hs & Hrun).
    apply bind_Ret in Hrun as ([[ok d1] track1] & Hch & Hrun).
    apply SampleAnimationChannel_duration in Hch as (x & Hx & ->).
    destruct ok; simpl in Hrun; [|discriminate].
    assert (Hmax : channel_input_max m_model ga ch = Ret x).
    { unfold channel_input_max. rewrite Hs. exact Hx. }
    apply (IH (fun y => P y \/ y = x)) in Hrun as [Hrm Hall].
    2:{ by apply running_max_step. }
    split.
    + eapply running_max_ext; [|exact Hrm]. intros y. split.
      * intros [[Hy| ->]|(c & Hc & Hcy)]; [by left| |].
        -- right. exists ch. split; [by left|done].
        -- right. exists c. split; [by right|done].
      * intros [Hy|(c & Hc & Hcy)]; [by left; left|].
        apply elem_of_cons in Hc as [->|Hc].
        -- left. right. rewrite Hmax in Hcy. by injection Hcy.
        -- right. by exists c.
    + intros c Hc. apply elem_of_cons in Hc as [->|Hc]; [by exists x|by apply Hall].
Qed.

Lemma import_joints_duration st ga cpj names rate joints (P : float -> Prop) anim anim' :
  import_joints m_model st ga cpj names rate joints anim = Ret (true, anim') ->
  running_max P (duration anim) ->
  running_max
    (fun y => P y \/ exists i name ch,
       i ∈ joints /\ names !! i = Some name /\ ch ∈ channels_of cpj name /\
       channel_input_max m_model ga ch = Ret y)
    (duration anim')
  /\ (forall i name ch, i ∈ joints -> names !! i = Some name -> ch ∈ channels_of cpj name ->
       exists x, channel_input_max m_model ga ch = Ret x).
Proof.
  revert P anim. induction joints as [|i joints IH]; intros P anim Hrun HP; simpl in Hrun.
  - injection Hrun as <-. split.
    + eapply running_max_ext; [|exact HP]. intros x. split; [by left|].
      intros [Hx|(i & ? & ? & Hi & _)]; [done|]. by apply elem_of_nil in Hi.
    + intros i ? ? Hi. by apply elem_of_nil in Hi.
  - apply bind_Ret in Hrun as (name & Hname & Hrun).
    apply bind_Ret in Hrun as (track & Htrack & Hrun).
    apply bind_Ret in Hrun as (r & Hrate & Hrun).
    apply bind_Ret in Hrun as ([[ok d1] track1] & Hch & Hrun).
    destruct ok; simpl in Hrun; [|discriminate].
    apply bind_Ret in Hrun as (? & _ & Hrun).
    apply bind_Ret in Hrun as (track2 & _ & Hrun).
    assert (Hn : names !! i = Some name).
    { destruct (names !! i); [by injection Hname as ->|discriminate]. }
    eapply sample_channels_duration in Hch as [Hrm Hall]; [|exact HP].
    apply IH with (P := fun y => P y \/ exists ch,
                    ch ∈ channels_of cpj name /\ channel_input_max m_model ga ch = Ret y)
      in Hrun as [Hrm' Hall']; [|exact Hrm].
    split.
    + eapply running_max_ext; [|exact Hrm']. intros y. split.
      * intros [[Hy|(c & Hc & Hcy)]|(j & n & c & Hj & Hjn & Hc & Hcy)]; [by left| |].
        -- right. exists i, name, c. repeat split; [by left|done..].
        -- right. exists j, n, c. repeat split; [by right|done..].
      * intros [Hy|(j & n & c & Hj & Hjn & Hc & Hcy)]; [by left; left|].
        apply elem_of_cons in Hj as [->|Hj].
        -- left. right. exists c. rewrite Hjn in Hn. injection Hn as ->. by split.
        -- right. by exists j, n, c.
    + intros j n c Hj Hjn Hc. apply elem_of_cons in Hj as [->|Hj].
      * apply Hall. rewrite Hjn in Hn. by injection Hn as ->.
      * by eapply Hall'.
Qed.

Lemma group_channels_spec chs cpj :
  for_each chs (group_channel m_model) ∅ = Ret cpj ->
  forall k ch,
    ch ∈ channels_of cpj k <->
    ch ∈ chs /\ target_node ch <> -1 /\
    exists node, at_ (nodes m_model) (target_node ch) = Ret node /\ node_name node = k.
Proof.
  apply (for_each_prefix_invariant
    (fun pre cpj => forall k ch,
       ch ∈ channels_of cpj k <->
       ch ∈ pre /\ target_node ch <> -1 /\
       exists node, at_ (nodes m_model) (target_node ch) = Ret node /\ node_name node = k)).
  - intros k ch. unfold channels_of. rewrite lookup_empty. simpl. split.
    + intros Hin. by apply elem_of_nil in Hin.
    + intros [Hin _]. by apply elem_of_nil in Hin.
  - intros pre a s s' IH Hbody k ch. unfold group_channel in Hbody.
    destruct (Z.eqb_spec (target_node a) (-1)) as [Hno|Hyes].
    + injection Hbody as <-. rewrite IH. rewrite elem_of_app, list_elem_of_singleton.
      split; [tauto|]. intros [[Hin| ->] Hrest]; [tauto|]. tauto.
    + apply bind_Ret in Hbody as (tn & Htn & Hbody). injection Hbody as <-.
      unfold channels_of. destruct (decide (node_name tn = k)) as [<-|Hne].
      * rewrite lookup_insert_eq. simpl. rewrite elem_of_app, list_elem_of_singleton.
        fold (channels_of s (node_name tn)). rewrite IH. split.
        -- intros [(Hin & Ht & Hn)| ->].
           ++ split; [apply elem_of_app; by left|done].
           ++ split; [apply elem_of_app; right; by apply list_elem_of_singleton|].
              split; [done|]. by exists tn.
        -- intros (Hin & Ht & Hn). apply elem_of_app in Hin as [Hin|Hin].
           ++ by left.
           ++ right. by apply list_elem_of_singleton in Hin.
      * rewrite lookup_insert_ne by done. fold (channels_of s k). rewrite IH.
        rewrite elem_of_app, list_elem_of_singleton. split; [tauto|].
        intros ([Hin| ->] & Ht & node & Hnode & Hk); [by eauto|].
        rewrite Htn in Hnode. injection Hnode as <-. done.
Qed.

End Duration.

(** What the duration is: when the import of an animation succeeds, the
    returned duration is the greatest declared input maximum (read as a
    [float]) over the channels that were sampled, i.e. those with a target
    node whose own name is a joint name of the skeleton, and 0 when that
    exceeds them all. *)
Lemma duration_is_max_over_filed_channels `{Env} (m_model : Model)
    (st : ImporterState) (animationName : string) (skeleton : Skeleton)
    (samplingRate : float) (animation0 animation : RawAnimation) :
  Import_animation m_model st animationName skeleton samplingRate animation0
    = Ret (true, animation) ->
  exists ga,
    List.find (fun a => String.eqb (animation_name a) animationName) (animations m_model)
      = Some ga /\
    (forall ch, sampled_channel m_model skeleton ga ch ->
       exists x, channel_input_max m_model ga ch = Ret x /\
                 F32.ltb (duration animation) x = false) /\
    (duration animation = F32.zero \/
     exists ch, sampled_channel m_model skeleton ga ch /\
                channel_input_max m_model ga ch = Ret (duration animation)).
Proof.
  unfold Import_animation. intros Hrun.
  destruct (List.find _ _) as [ga|] eqn:Hfind; [|discriminate].
  exists ga. split; [reflexivity|].
  apply bind_Ret in Hrun as (cpj & Hcpj & Hrun).
  apply bind_Ret in Hrun as ([ok a] & Hjoints & Hrun).
  destruct ok; simpl in Hrun; [|discriminate].
  destruct (RawAnimation_Validate a); simpl in Hrun; [|discriminate].
  injection Hrun as <-.
  pose proof (group_channels_spec m_model _ _ Hcpj) as Hgroup.
  apply import_joints_duration with (P := fun _ => False) in Hjoints as [[Hub Hin] Hall].
  2:{ split; [tauto|by left]. }
  unfold num_joints in *. rewrite Nat2Z.id in *.
  assert (Hsampled : forall ch, sampled_channel m_model skeleton ga ch ->
            exists i name, i ∈ seq 0 (length (joint_names skeleton)) /\
                           joint_names skeleton !! i = Some name /\
                           ch ∈ channels_of cpj name).
  { intros ch (Hch & Ht & node & Hnode & Hname).
    apply list_elem_of_lookup in Hname as [i Hi].
    exists i, (node_name node). split; [|split; [exact Hi|]].
    - apply elem_of_seq. apply lookup_lt_Some in Hi. lia.
    - apply Hgroup. split; [done|]. split; [done|]. by exists node. }
  split.
  - intros ch Hch. destruct (Hsampled ch Hch) as (i & name & Hi & Hn & Hc).
    destruct (Hall i name ch Hi Hn Hc) as [x Hx]. exists x. split; [done|].
    apply Hub. right. by exists i, name, ch.
  - destruct Hin as [Hz|[[]|(i & name & ch & Hi & Hn & Hc & Hmax)]]; [by left|].
    right. exists ch. split; [|done].
    apply Hgroup in Hc as (Hch & Ht & node & Hnode & <-).
    split; [done|]. split; [done|]. exists node. split; [done|].
    apply list_elem_of_lookup. by exists i.
Qed.

Example duration_is_max_over_filed_channels_example :
  let m := OneJoint.with_untargeted_channel
             (OneJoint.model "LINEAR" 0 1 2 OneJoint.two_values) in
  exists a ga,
    @Import_animation (spec_env true) m OneJoint.state "anim" OneJoint.skeleton
      (F32.of_Z 1) OneJoint.fresh_animation = Ret (true, a) /\
    duration a = F32.of_Z 1 /\
    List.find (fun a => String.eqb (animation_name a) "anim") (animations m) = Some ga /\
    (forall ch, @sampled_channel m OneJoint.skeleton ga ch ->
       exists x, @channel_input_max m ga ch = Ret x /\ F32.ltb (duration a) x = false) /\
    (duration a = F32.zero \/
     exists ch, @sampled_channel m OneJoint.skeleton ga ch /\
                @channel_input_max m ga ch = Ret (duration a)).
Proof.
  intros m.
  destruct (@duration_is_max_over_filed_channels (spec_env true) m OneJoint.state
              "anim" OneJoint.skeleton (F32.of_Z 1) OneJoint.fresh_animation
              (mkRawAnimation "anim" (F32.of_Z 1)
                 [ mkJointTrack
                     [ mkKey (F32.of_Z 0) (mkFloat3 (F32.of_Z 1) (F32.of_Z 2) (F32.of_Z 3));
                       mkKey (F32.of_Z 1) (mkFloat3 (F32.of_Z 4) (F32.of_Z 5) (F32.of_Z 6)) ]
                     [ mkKey F32.zero Quaternion_identity ]
                     [ mkKey F32.zero Float3_one ] ]))
    as (ga & Hfind & Hrest).
  - vm_compute. reflexivity.
  - eexists. exists ga. split; [vm_compute; reflexivity|]. split; [reflexivity|].
    split; [exact Hfind|exact Hrest].
Qed.

(** A channel without a target node is dropped before sampling, so its
    declared input maximum, 5 here, does not enter the duration, which is 1,
    the maximum of the only sampled channel. *)
Lemma untargeted_channel_not_counted :
  let m := OneJoint.with_untargeted_channel
             (OneJoint.model "LINEAR" 0 1 2 OneJoint.two_values) in
  exists a ga ch,
    @Import_animation (spec_env true) m OneJoint.state "anim" OneJoint.skeleton
      (F32.of_Z 1) OneJoint.fresh_animation = Ret (true, a) /\
    animations m = [ga] /\
    ch ∈ channels ga /\
    @channel_input_max m ga ch = Ret (F32.of_Z 5) /\
    duration a = F32.of_Z 1 /\
    F32.ltb (duration a) (F32.of_Z 5) = true.
Proof.
  intros m. do 2 eexists. exists (mkChannel 1 (-1) "translation").
  split; [vm_compute; reflexivity|].
  split; [reflexivity|].
  split; [apply elem_of_cons; right; apply elem_of_cons; by left|].
  split; vm_compute; repeat split; reflexivity.
Qed.


(** ** Failure of an animation import *)

Lemma find_none_iff {A} (f : A -> bool) (l : list A) :
  (forall a, a ∈ l -> f a = false) -> List.find f l = None.
Proof.
  induction l as [|a l IH]; intros Hall; simpl; [reflexivity|].
  rewrite (Hall a) by (by left). apply IH. intros b Hb. apply Hall. by right.
Qed.

(** C5 (amended). Requesting an animation name that the model does not
    contain makes the import return [false] with the caller's animation left
    as it was. *)
Theorem C5_unknown_animation_leaves_output `{Env} (m_model : Model)
    (st : ImporterState) (animationName : string) (skeleton : Skeleton)
    (samplingRate : float) (animation : RawAnimation) :
  (forall a, a ∈ animations m_model -> animation_name a <> animationName) ->
  Import_animation m_model st animationName skeleton samplingRate animation
    = Ret (false, animation).
Proof.
  intros Hnone. unfold Import_animation. rewrite find_none_iff; [reflexivity|].
  intros a Ha. apply String.eqb_neq. by apply Hnone.
Qed.

Lemma C5_unknown_animation_leaves_output_witness :
  @Import_animation (spec_env true) (OneJoint.model "LINEAR" 0 1 2 OneJoint.two_values)
    OneJoint.state "run" OneJoint.skeleton (F32.of_Z 1) OneJoint.fresh_animation
  = Ret (false, OneJoint.fresh_animation).
Proof.
  apply (@C5_unknown_animation_leaves_output (spec_env true)).
  intros a Ha. apply list_elem_of_singleton in Ha as ->. simpl. discriminate.
Defined.

(** C5 (as stated) fails: the name, the duration and the tracks of the
    caller's animation are written before any channel is sampled. A channel
    with an unknown interpolation mode makes the import return [false] with
    the name set, the duration raised to the declared maximum of the channel
    and the tracks resized. *)
Lemma C5_failed_import_leaves_partial_writes :
  let m := OneJoint.model "BOGUS" 0 2 2 OneJoint.two_values in
  exists a,
    @Import_animation (spec_env true) m OneJoint.state "anim" OneJoint.skeleton
      (F32.of_Z 1) OneJoint.fresh_animation = Ret (false, a) /\
    a = mkRawAnimation "anim" (F32.of_Z 2) [JointTrack_init] /\
    a <> OneJoint.fresh_animation.
Proof.
  eexists. split; [vm_compute; reflexivity|]. split; [vm_compute; reflexivity|].
  discriminate.
Qed.

(** ** Accessor count checks *)

(** In a build with assertions, sampling a channel whose accessor counts
    mismatch under LINEAR or STEP (the empty mode is LINEAR), or whose output
    count is not a multiple of 3 under CUBICSPLINE, stops at the failed
    [assert]: the process is aborted, no error is returned to the caller. *)
Lemma count_mismatch_aborts `{Env} (m_model : Model) (sampler_ : AnimationSampler)
    (targetPath : string) (outDuration : float) (track : JointTrack) (samplingRate : Z)
    (input_ output_ : Accessor) (timestamps : list Byte.byte) :
  NDEBUG = false ->
  at_ (accessors m_model) (input sampler_) = Ret input_ ->
  at_ (accessors m_model) (output sampler_) = Ret output_ ->
  length (maxValues input_) = 1%nat ->
  type input_ = TINYGLTF_TYPE_SCALAR ->
  type output_ = TINYGLTF_TYPE_VEC3 \/ type output_ = TINYGLTF_TYPE_VEC4 ->
  BufferView m_model 4 input_ = Ret (Some timestamps) ->
  ((interpolation sampler_ = "" \/ interpolation sampler_ = "LINEAR" \/
    interpolation sampler_ = "STEP") /\ count input_ <> count output_) \/
  (interpolation sampler_ = "CUBICSPLINE" /\ 0 <= count input_ * 3 < 2 ^ 64 /\
   count output_ mod 3 <> 0) ->
  SampleAnimationChannel m_model sampler_ targetPath outDuration track samplingRate = Aborted.
Proof.
  intros Hdebug Hin Hout Hmax Hscalar Hvec Hts Hbad.
  unfold SampleAnimationChannel, assert_. rewrite Hdebug, Hin. simpl.
  rewrite Hmax. simpl.
  destruct (maxValues input_) as [|max0 [|]] eqn:Hmv; try discriminate. simpl.
  rewrite Hscalar, Z.eqb_refl, Hout. simpl.
  assert (Hv : ((type output_ =? TINYGLTF_TYPE_VEC3) || (type output_ =? TINYGLTF_TYPE_VEC4)) = true).
  { destruct Hvec as [-> | ->]; rewrite Z.eqb_refl; [reflexivity|apply orb_true_r]. }
  rewrite Hv, Hts. simpl.
  destruct Hbad as [[Hmode Hne]|(Hmode & Hrange & Hmod)].
  - apply Z.eqb_neq in Hne.
    destruct Hmode as [-> | [-> | ->]]; simpl; rewrite Hne; reflexivity.
  - rewrite Hmode. simpl.
    assert (Hne : (size_t_wrap (count input_ * 3) =? count output_) = false).
    { apply Z.eqb_neq. unfold size_t_wrap. rewrite Z.mod_small by lia.
      intros Heq. apply Hmod. rewrite <- Heq. apply Z_mod_mult. }
    rewrite Hne. reflexivity.
Qed.

Section CountChecks.

Context `{Env} (m_model : Model).

(** the pointer is null only for an element size that is not the expected
    one *)
Lemma BufferView_not_null (sizeof_T : Z) (accessor : Accessor) :
  GetComponentSizeInBytes (componentType accessor) * GetTypeSizeInBytes (type accessor)
    = sizeof_T ->
  BufferView m_model sizeof_T accessor <> Ret None.
Proof.
  intros Hsize. unfold BufferView. rewrite Hsize, Z.eqb_refl. simpl.
  destruct (at_ (bufferViews m_model) _) as [bv| | |]; simpl; try discriminate.
  destruct (at_ (buffers m_model) _) as [b| | |]; simpl; try discriminate.
  destruct (_ <? 0); discriminate.
Qed.

(** past the null check no sampler has a [return false] *)
Lemma SampleLinearChannel_true {V} `{ValueType V} output_ ts (kf kf' : list (Key V)) ok :
  BufferView m_model sizeof output_ <> Ret None ->
  SampleLinearChannel m_model output_ ts kf = Ret (ok, kf') -> ok = true.
Proof.
  unfold SampleLinearChannel. intros Hnn Hrun.
  apply bind_Ret in Hrun as ([values|] & Hview & Hrun); [|contradiction].
  apply bind_Ret in Hrun as (k & _ & Hrun). by injection Hrun as <- _.
Qed.

Lemma SampleStepChannel_true {V} `{ValueType V} output_ ts (kf kf' : list (Key V)) ok :
  BufferView m_model sizeof output_ <> Ret None ->
  SampleStepChannel m_model output_ ts kf = Ret (ok, kf') -> ok = true.
Proof.
  unfold SampleStepChannel. intros Hnn Hrun.
  apply bind_Ret in Hrun as ([values|] & Hview & Hrun); [|contradiction].
  apply bind_Ret in Hrun as (k & _ & Hrun). by injection Hrun as <- _.
Qed.

Lemma SampleCubicSplineChannel_true {V} `{ValueType V} output_ ts (kf kf' : list (Key V))
    rate duration_ ok :
  BufferView m_model sizeof output_ <> Ret None ->
  SampleCubicSplineChannel m_model output_ ts kf rate duration_ = Ret (ok, kf') -> ok = true.
Proof.
  unfold SampleCubicSplineChannel. intros Hnn Hrun.
  apply bind_Ret in Hrun as ([values|] & Hview & Hrun); [|contradiction].
  apply bind_Ret in Hrun as (? & _ & Hrun).
  apply bind_Ret in Hrun as (n & _ & Hrun).
  apply bind_Ret in Hrun as ([k c] & _ & Hrun). by injection Hrun as <- _.
Qed.

End CountChecks.

(** C9 (as the code has it). The count conditions are [assert]s, not error
    returns. For a channel whose accessor counts mismatch under LINEAR or
    STEP (the empty mode is LINEAR), or whose output count is not a multiple
    of 3 under CUBICSPLINE, and that is well formed otherwise: a build with
    assertions stops at the failed [assert], which aborts the process, and
    in no build does the call return [false]; a build without assertions
    samples on with the mismatched counts, and returns [true] or runs into an
    access outside a buffer. *)
Theorem C9_count_mismatch_never_returns_false `{Env} (m_model : Model)
    (sampler_ : AnimationSampler) (targetPath : string) (outDuration : float)
    (track : JointTrack) (samplingRate : Z) (input_ output_ : Accessor)
    (timestamps : list Byte.byte) :
  at_ (accessors m_model) (input sampler_) = Ret input_ ->
  at_ (accessors m_model) (output sampler_) = Ret output_ ->
  length (maxValues input_) = 1%nat ->
  type input_ = TINYGLTF_TYPE_SCALAR ->
  type output_ = TINYGLTF_TYPE_VEC3 \/ type output_ = TINYGLTF_TYPE_VEC4 ->
  BufferView m_model 4 input_ = Ret (Some timestamps) ->
  ((interpolation sampler_ = "" \/ interpolation sampler_ = "LINEAR" \/
    interpolation sampler_ = "STEP") /\ count input_ <> count output_) \/
  (interpolation sampler_ = "CUBICSPLINE" /\ 0 <= count input_ * 3 < 2 ^ 64 /\
   count output_ mod 3 <> 0) ->
  (NDEBUG = false ->
   SampleAnimationChannel m_model sampler_ targetPath outDuration track samplingRate
     = Aborted) /\
  (path_sizeof targetPath
     = Some (GetComponentSizeInBytes (componentType output_)
             * GetTypeSizeInBytes (type output_)) ->
   forall outDuration' track',
     SampleAnimationChannel m_model sampler_ targetPath outDuration track samplingRate
       <> Ret (false, outDuration', track')).
Proof.
  intros Hin Hout Hmax Hscalar Hvec Hts Hbad.
  assert (Habort : NDEBUG = false ->
            SampleAnimationChannel m_model sampler_ targetPath outDuration track samplingRate
              = Aborted).
  { intros Hdebug. by eapply count_mismatch_aborts. }
  split; [exact Habort|].
  intros Hsize d' tr' Hrun.
  destruct NDEBUG eqn:Hdebug; [|rewrite Habort in Hrun by reflexivity; discriminate].
  assert (Hmode : interpolation sampler_ = "" \/ interpolation sampler_ = "LINEAR" \/
                  interpolation sampler_ = "STEP" \/ interpolation sampler_ = "CUBICSPLINE")
    by (destruct Hbad as [[[?|[?|?]] _]|[? _]]; auto).
  clear Hbad Habort.
  unfold SampleAnimationChannel in Hrun. rewrite Hin, Hout in Hrun. simpl in Hrun.
  rewrite Hts in Hrun.
  unfold path_sizeof in Hsize.
  invert_run Hrun;
    repeat match goal with
           | Heq : String.eqb _ _ = true |- _ => apply String.eqb_eq in Heq
           | Heq : String.eqb _ _ = false |- _ => apply String.eqb_neq in Heq
           | Heq : (_ || _) = false |- _ => apply orb_false_iff in Heq as [? ?]
           end;
    try (destruct Hmode as [?|[?|[?|?]]]; congruence);
    try discriminate Hsize;
    injection Hsize as Hsize; symmetry in Hsize;
    apply (BufferView_not_null m_model) in Hsize;
    try injection Hrun as Hok _ _;
    subst;
    match goal with
    | Hs : SampleLinearChannel _ _ _ _ = Ret (_, _) |- _ =>
        apply SampleLinearChannel_true in Hs; [discriminate|exact Hsize]
    | Hs : SampleStepChannel _ _ _ _ = Ret (_, _) |- _ =>
        apply SampleStepChannel_true in Hs; [discriminate|exact Hsize]
    | Hs : SampleCubicSplineChannel _ _ _ _ _ _ = Ret (_, _) |- _ =>
        apply SampleCubicSplineChannel_true in Hs;
          [first [discriminate|subst; simpl in *; discriminate]|exact Hsize]
    end.
Qed.

Lemma C9_count_mismatch_never_returns_false_witness :
  let m := OneJoint.model "LINEAR" 0 1 1 OneJoint.two_values in
  @SampleAnimationChannel (spec_env false) m (mkSampler 0 1 "LINEAR") "translation"
    F32.zero JointTrack_init 1 = Aborted /\
  @SampleAnimationChannel (spec_env true) m (mkSampler 0 1 "LINEAR") "translation"
    F32.zero JointTrack_init 1 <> Ret (false, F32.zero, JointTrack_init).
Proof.
  intros m. split.
  - eapply (@C9_count_mismatch_never_returns_false (spec_env false) m).
    + reflexivity.
    + reflexivity.
    + reflexivity.
    + reflexivity.
    + left. reflexivity.
    + vm_compute. reflexivity.
    + left. split; [right; left; reflexivity|]. simpl. discriminate.
    + reflexivity.
  - eapply (@C9_count_mismatch_never_returns_false (spec_env true) m).
    + reflexivity.
    + reflexivity.
    + reflexivity.
    + reflexivity.
    + left. reflexivity.
    + vm_compute. reflexivity.
    + left. split; [right; left; reflexivity|]. simpl. discriminate.
    + reflexivity.
Defined.

(** The mismatch at the level of [Import]. With two timestamps declared
    against one value under LINEAR, a build without assertions samples the
    one value and the import returns [true]; with two timestamps against
    three values it reads a third timestamp outside the buffer; a build with
    assertions is aborted. In no case is [false] returned. *)
Lemma count_mismatch_at_import :
  let fewer := OneJoint.model "LINEAR" 0 1 1 OneJoint.two_values in
  let more := OneJoint.model "LINEAR" 0 1 3
                (OneJoint.two_values ++ [F32.of_Z 7; F32.of_Z 8; F32.of_Z 9]) in
  (exists a,
     @Import_animation (spec_env true) fewer OneJoint.state "anim" OneJoint.skeleton
       (F32.of_Z 1) OneJoint.fresh_animation = Ret (true, a) /\
     length <$> (translations <$> tracks a) = [1%nat]) /\
  @Import_animation (spec_env true) more OneJoint.state "anim" OneJoint.skeleton
    (F32.of_Z 1) OneJoint.fresh_animation = Undef /\
  @Import_animation (spec_env false) fewer OneJoint.state "anim" OneJoint.skeleton
    (F32.of_Z 1) OneJoint.fresh_animation = Aborted /\
  @Import_animation (spec_env false) more OneJoint.state "anim" OneJoint.skeleton
    (F32.of_Z 1) OneJoint.fresh_animation = Aborted.
Proof.
  split; [eexists; split; vm_compute; reflexivity|].
  split; [vm_compute; reflexivity|].
  split; vm_compute; reflexivity.
Qed.

(** ** Bind-pose padding *)

Lemma padded_sequence_nonempty {V} (bind : option V) (sampled final : list (Key V)) :
  padded_sequence bind sampled final -> final <> [].
Proof.
  destruct sampled; simpl.
  - intros (v & _ & ->). discriminate.
  - intros ->. discriminate.
Qed.

Lemma CreateTranslationBindPoseKey_spec node key :
  CreateTranslationBindPoseKey node = Ret key ->
  exists v, translation_bind_value node = Some v /\ key = mkKey F32.zero v.
Proof.
  unfold CreateTranslationBindPoseKey, translation_bind_value.
  destruct (node_translation node) as [|x [|y [|z l]]]; simpl; try discriminate.
  - intros [= <-]. eauto.
  - intros [= <-]. eauto.
Qed.

Lemma CreateRotationBindPoseKey_spec node key :
  CreateRotationBindPoseKey node = Ret key ->
  exists v, rotation_bind_value node = Some v /\ key = mkKey F32.zero v.
Proof.
  unfold CreateRotationBindPoseKey, rotation_bind_value.
  destruct (node_rotation node) as [|x [|y [|z [|w l]]]]; simpl; try discriminate.
  - intros [= <-]. eauto.
  - intros [= <-]. eauto.
Qed.

Lemma CreateScaleBindPoseKey_spec node key :
  CreateScaleBindPoseKey node = Ret key ->
  exists v, scale_bind_value node = Some v /\ key = mkKey F32.zero v.
Proof.
  unfold CreateScaleBindPoseKey, scale_bind_value.
  destruct (node_scale node) as [|x [|y [|z l]]]; simpl; try discriminate.
  - intros [= <-]. eauto.
  - intros [= <-]. eauto.
Qed.

(** the bind values are the components of the bind transform that the
    skeleton build gives the joint of the node *)
Lemma CreateNodeTransform_bind_values node transform :
  CreateNodeTransform node = Ret (true, transform) ->
  translation_bind_value node = Some (tr_translation transform) /\
  rotation_bind_value node = Some (tr_rotation transform) /\
  scale_bind_value node = Some (tr_scale transform).
Proof.
  unfold CreateNodeTransform, translation_bind_value, rotation_bind_value, scale_bind_value.
  destruct (node_matrix node); simpl; [|discriminate].
  destruct (node_translation node) as [|x [|y [|z l]]]; simpl; try discriminate;
    destruct (node_rotation node) as [|rx [|ry [|rz [|rw rl]]]]; simpl; try discriminate;
    destruct (node_scale node) as [|sx [|sy [|sz sl]]]; simpl; try discriminate;
    intros [= <-]; auto.
Qed.

Lemma pad_track_spec (node : option Node) (sampled track : JointTrack) :
  pad_track node sampled = Ret track ->
  padded_sequence (node ≫= translation_bind_value) (translations sampled) (translations track) /\
  padded_sequence (node ≫= rotation_bind_value) (rotations sampled) (rotations track) /\
  padded_sequence (node ≫= scale_bind_value) (scales sampled) (scales track).
Proof.
  unfold pad_track. intros Hrun.
  apply bind_Ret in Hrun as (tr & Htr & Hrun).
  apply bind_Ret in Hrun as (ro & Hro & Hrun).
  apply bind_Ret in Hrun as (sc & Hsc & Hrun).
  injection Hrun as <-. simpl. repeat split.
  - destruct (translations sampled); simpl in *; [|by injection Htr as <-].
    apply bind_Ret in Htr as (n & Hn & Htr). apply bind_Ret in Htr as (key & Hkey & Htr).
    destruct node; [injection Hn as ->|discriminate]. injection Htr as <-.
    apply CreateTranslationBindPoseKey_spec in Hkey as (v & Hv & ->). by exists v.
  - destruct (rotations sampled); simpl in *; [|by injection Hro as <-].
    apply bind_Ret in Hro as (n & Hn & Hro). apply bind_Ret in Hro as (key & Hkey & Hro).
    destruct node; [injection Hn as ->|discriminate]. injection Hro as <-.
    apply CreateRotationBindPoseKey_spec in Hkey as (v & Hv & ->). by exists v.
  - destruct (scales sampled); simpl in *; [|by injection Hsc as <-].
    apply bind_Ret in Hsc as (n & Hn & Hsc). apply bind_Ret in Hsc as (key & Hkey & Hsc).
    destruct node; [injection Hn as ->|discriminate]. injection Hsc as <-.
    apply CreateScaleBindPoseKey_spec in Hkey as (v & Hv & ->). by exists v.
Qed.

Section Padding.

Context `{Env} (m_model : Model).

Lemma import_joints_other st ga cpj names rate joints anim ok anim' :
  import_joints m_model st ga cpj names rate joints anim = Ret (ok, anim') ->
  forall j, j ∉ joints -> tracks anim' !! j = tracks anim !! j.
Proof.
  revert anim. induction joints as [|i joints IH]; intros anim Hrun j Hj; simpl in Hrun.
  - by injection Hrun as _ <-.
  - apply bind_Ret in Hrun as (name & Hname & Hrun).
    apply bind_Ret in Hrun as (track & Htrack & Hrun).
    apply bind_Ret in Hrun as (r & Hrate & Hrun).
    apply bind_Ret in Hrun as ([[ok1 d1] track1] & Hch & Hrun).
    apply not_elem_of_cons in Hj as [Hji Hj].
    destruct ok1; simpl in Hrun.
    + apply bind_Ret in Hrun as (? & _ & Hrun).
      apply bind_Ret in Hrun as (track2 & _ & Hrun).
      rewrite (IH _ Hrun j Hj). simpl. by rewrite !list_lookup_insert_ne.
    + injection Hrun as _ <-. simpl. by rewrite list_lookup_insert_ne.
Qed.

Lemma import_joints_tracks st ga cpj names rate joints anim anim' :
  NoDup joints ->
  import_joints m_model st ga cpj names rate joints anim = Ret (true, anim') ->
  forall i, i ∈ joints ->
    exists name track0 r d d' sampled track,
      names !! i = Some name /\
      tracks anim !! i = Some track0 /\
      match channels_of cpj name with
      | [] => r = 0
      | _ :: _ => F32.to_int rate = Some r
      end /\
      sample_channels m_model ga (channels_of cpj name) r d track0 = Ret (true, d', sampled) /\
      pad_track (FindNodeByName m_model st name) sampled = Ret track /\
      tracks anim' !! i = Some track.
Proof.
  revert anim. induction joints as [|i joints IH]; intros anim Hnd Hrun j Hj; simpl in Hrun.
  - by apply elem_of_nil in Hj.
  - apply NoDup_cons in Hnd as [Hi Hnd].
    apply bind_Ret in Hrun as (name & Hname & Hrun).
    apply bind_Ret in Hrun as (track & Htrack & Hrun).
    apply bind_Ret in Hrun as (r & Hrate & Hrun).
    apply bind_Ret in Hrun as ([[ok1 d1] track1] & Hch & Hrun).
    destruct ok1; simpl in Hrun; [|discriminate].
    apply bind_Ret in Hrun as (? & _ & Hrun).
    apply bind_Ret in Hrun as (track2 & Hpad & Hrun).
    assert (Hn : names !! i = Some name).
    { destruct (names !! i); [by injection Hname as ->|discriminate]. }
    assert (Ht : tracks anim !! i = Some track).
    { destruct (tracks anim !! i); [by injection Htrack as ->|discriminate]. }
    apply elem_of_cons in Hj as [->|Hj].
    + exists name, track, r, (duration anim), d1, track1, track2.
      split; [done|]. split; [done|]. split.
      { unfold channels_of. destruct (default [] (cpj !! name)).
        - by injection Hrate as <-.
        - destruct (F32.to_int rate); [by injection Hrate as ->|discriminate]. }
      repeat split; try done.
      rewrite (import_joints_other _ _ _ _ _ _ _ _ _ Hrun i Hi). simpl.
      apply list_lookup_insert_eq. rewrite length_insert. by eapply lookup_lt_Some.
    + destruct (IH _ Hnd Hrun j Hj)
        as (n & t0 & r' & d & d' & s & t & Hjn & Hjt & Hr & Hs & Hp & Hf).
      exists n, t0, r', d, d', s, t. repeat split; try done.
      simpl in Hjt. rewrite !list_lookup_insert_ne in Hjt; [done|..];
        intros ->; contradiction.
Qed.

End Padding.

(** What the padding does: after a successful import, for every joint of
    the skeleton, each of the three key sequences that the sampling of the
    joint's channels left empty holds exactly one key, at time 0, whose value
    is the bind value of the node that [FindNodeByName] returns for the joint
    name (zero translation, identity rotation, unit scale when that node
    omits the field); the other sequences are as sampled. *)
Lemma bind_pose_padding `{Env} (m_model : Model) (st : ImporterState)
    (animationName : string) (skeleton : Skeleton) (samplingRate : float)
    (animation0 animation : RawAnimation) :
  Import_animation m_model st animationName skeleton samplingRate animation0
    = Ret (true, animation) ->
  forall i name, joint_names skeleton !! i = Some name ->
    exists sampled track,
      track_after_sampling m_model animationName skeleton samplingRate animation0
        i name sampled /\
      tracks animation !! i = Some track /\
      let node := FindNodeByName m_model st name in
      padded_sequence (node ≫= translation_bind_value)
        (translations sampled) (translations track) /\
      padded_sequence (node ≫= rotation_bind_value)
        (rotations sampled) (rotations track) /\
      padded_sequence (node ≫= scale_bind_value)
        (scales sampled) (scales track) /\
      translations track <> [] /\ rotations track <> [] /\ scales track <> [].
Proof.
  unfold Import_animation. intros Hrun i name Hname.
  destruct (List.find _ _) as [ga|] eqn:Hfind; [|discriminate].
  apply bind_Ret in Hrun as (cpj & Hcpj & Hrun).
  apply bind_Ret in Hrun as ([ok a] & Hjoints & Hrun).
  destruct ok; simpl in Hrun; [|discriminate].
  destruct (RawAnimation_Validate a); simpl in Hrun; [|discriminate].
  injection Hrun as <-.
  unfold num_joints in Hjoints. rewrite Nat2Z.id in Hjoints.
  eapply import_joints_tracks in Hjoints as
    (n & t0 & r & d & d' & sampled & track & Hn & Ht0 & Hr & Hs & Hp & Hf).
  - rewrite Hname in Hn. injection Hn as <-.
    exists sampled, track. split.
    { exists ga, cpj, t0, r, d, d'. repeat split; try done. }
    split; [exact Hf|].
    apply pad_track_spec in Hp as (Htr & Hro & Hsc). simpl.
    repeat split; try done; by eapply padded_sequence_nonempty.
  - apply NoDup_seq.
  - apply elem_of_seq. apply lookup_lt_Some in Hname. lia.
Qed.

Example bind_pose_padding_example :
  let m := OneJoint.model "LINEAR" 0 1 2 OneJoint.two_values in
  @Import_animation (spec_env true) m OneJoint.state "anim" OneJoint.skeleton
    (F32.of_Z 1) OneJoint.fresh_animation = Ret (true, OneJoint.linear_import) /\
  exists sampled track,
    @track_after_sampling (spec_env true) m "anim" OneJoint.skeleton (F32.of_Z 1)
      OneJoint.fresh_animation 0 "root" sampled /\
    tracks OneJoint.linear_import !! 0%nat = Some track /\
    padded_sequence (Some Float3_zero) (translations sampled) (translations track) /\
    padded_sequence (Some Quaternion_identity) (rotations sampled) (rotations track) /\
    padded_sequence (Some Float3_one) (scales sampled) (scales track) /\
    translations track <> [] /\ rotations track <> [] /\ scales track <> [].
Proof.
  intros m.
  assert (Hrun : @Import_animation (spec_env true) m OneJoint.state "anim" OneJoint.skeleton
                   (F32.of_Z 1) OneJoint.fresh_animation = Ret (true, OneJoint.linear_import)).
  { vm_compute. reflexivity. }
  split; [exact Hrun|].
  destruct (@bind_pose_padding (spec_env true) m OneJoint.state "anim" OneJoint.skeleton
              (F32.of_Z 1) OneJoint.fresh_animation OneJoint.linear_import Hrun
              0%nat "root" eq_refl) as (sampled & track & Hs & Ht & Hrest).
  exists sampled, track. split; [exact Hs|]. split; [exact Ht|]. exact Hrest.
Qed.

(** C8 (as the code has it). The node that supplies the bind values of a
    joint is looked up by the name of the joint ([FindNodeByName] returns
    the first node recorded under the name); it is not the node of the joint
    whenever the recorded names and the joint names disagree.

    Another node. On the nodes [a] (children 1 and 2), [a_2] with the
    translation (1,1,1) and [a] with the translation (2,2,2), the traversal
    of the build names the joints [a], [a_2], [a_2], records the nodes 1 and
    2 under [a_2], and gives joint 2 the bind translation (2,2,2) of its node.
    The import of [anim], which has no channel for the joints 1 and 2,
    succeeds, and the translations of joint 2 hold the one key (0, (1,1,1)):
    the bind translation of node 1.

    No node. After two builds of one model the joint of the second skeleton
    is named [root_0] while node 0 stays recorded as [root]. No node is found
    for the joint: the import ends at the failed [assert], or, without
    assertions, at the dereference of the null pointer, and the track gets no
    key. *)
Theorem C8_bind_value_of_another_node :
  (exists sk st a track joint2,
     import_roots DuplicateNames.posed 5 [0] (mkRawSkeleton []) initial_state
       = Ret (true, sk, st) /\
     skeleton_names sk = ["a"; "a_2"; "a_2"] /\
     flat_map joint_children (roots sk) !! 1%nat = Some joint2 /\
     tr_translation (joint_transform joint2)
       = mkFloat3 (F32.of_Z 2) (F32.of_Z 2) (F32.of_Z 2) /\
     (nodes DuplicateNames.posed !! 2%nat) ≫= translation_bind_value
       = Some (mkFloat3 (F32.of_Z 2) (F32.of_Z 2) (F32.of_Z 2)) /\
     @FindNodeByName DuplicateNames.posed st "a_2" = nodes DuplicateNames.posed !! 1%nat /\
     @Import_animation (spec_env true) DuplicateNames.posed st "anim"
       (mkSkeleton (skeleton_names sk)) (F32.of_Z 1) OneJoint.fresh_animation
       = Ret (true, a) /\
     tracks a !! 2%nat = Some track /\
     translations track
       = [mkKey F32.zero (mkFloat3 (F32.of_Z 1) (F32.of_Z 1) (F32.of_Z 1))]) /\
  (exists sk1 st1 sk2 st2,
     @Import_skeleton (spec_env true) TwoBuilds.model 5 (mkRawSkeleton []) initial_state
       = Ret (true, sk1, st1) /\
     @Import_skeleton (spec_env true) TwoBuilds.model 5 (mkRawSkeleton []) st1
       = Ret (true, sk2, st2) /\
     skeleton_names sk2 = ["root_0"] /\
     m_nodeNames st2 !! 0 = Some "root" /\
     @FindNodeByName TwoBuilds.model st2 "root_0" = None /\
     @Import_animation (spec_env false) TwoBuilds.model st2 "anim"
       (mkSkeleton (skeleton_names sk2)) (F32.of_Z 1) OneJoint.fresh_animation = Aborted /\
     @Import_animation (spec_env true) TwoBuilds.model st2 "anim"
       (mkSkeleton (skeleton_names sk2)) (F32.of_Z 1) OneJoint.fresh_animation = Undef).
Proof.
  split.
  - do 5 eexists.
    split; [vm_compute; reflexivity|].
    split; [vm_compute; reflexivity|].
    split; [vm_compute; reflexivity|].
    split; [vm_compute; reflexivity|].
    split; [vm_compute; reflexivity|].
    split; [vm_compute; reflexivity|].
    split; [vm_compute; reflexivity|].
    split; vm_compute; reflexivity.
  - do 4 eexists.
    split; [vm_compute; reflexivity|].
    split; [vm_compute; reflexivity|].
    split; [vm_compute; reflexivity|].
    split; [vm_compute; reflexivity|].
    split; [vm_compute; reflexivity|].
    split; vm_compute; reflexivity.
Qed.

(** ** The name registry across builds *)

Section Registry.

Context `{Env} (m_model : Model).

Lemma names_grow_refl st : names_grow st st.
Proof. intros k Hk. exact Hk. Qed.

Lemma names_grow_trans st1 st2 st3 :
  names_grow st1 st2 -> names_grow st2 st3 -> names_grow st1 st3.
Proof. intros H12 H23 k Hk. apply H23, H12, Hk. Qed.

Lemma map_insert_new_is_Some `{Countable K} {V} (k k' : K) (v : V) (m : gmap K V) :
  is_Some (map_insert_new k v m !! k') <-> k = k' \/ is_Some (m !! k').
Proof.
  unfold map_insert_new. destruct (m !! k) as [v0|] eqn:Hk.
  - split; [by right|]. intros [<-|Hk']; [by exists v0|done].
  - rewrite lookup_insert_is_Some. destruct (decide (k = k')) as [->|Hne].
    + split; intros _; by left.
    + split; intros [?|?]; try done; [right; tauto|by right].
Qed.

Lemma CreateJointName_spec nodeIndex st name st' :
  CreateJointName m_model nodeIndex st = Ret (name, st') ->
  exists node,
    at_ (nodes m_model) nodeIndex = Ret node /\
    name = match existingNames st !! base_name node nodeIndex with
           | Some _ => base_name node nodeIndex +:+ "_" +:+ pretty nodeIndex
           | None => base_name node nodeIndex
           end /\
    existingNames st' = map_insert_new name nodeIndex (existingNames st).
Proof.
  unfold CreateJointName. intros Hrun.
  apply bind_Ret in Hrun as (node & Hnode & Hrun).
  exists node. split; [exact Hnode|].
  fold (base_name node nodeIndex) in Hrun. injection Hrun as <- <-. by split.
Qed.

Lemma CreateJointName_grow nodeIndex st name st' :
  CreateJointName m_model nodeIndex st = Ret (name, st') ->
  names_grow st st' /\ is_Some (existingNames st' !! name).
Proof.
  intros Hrun. apply CreateJointName_spec in Hrun as (node & _ & _ & Hst').
  split.
  - intros k Hk. rewrite Hst'. apply map_insert_new_is_Some. by right.
  - rewrite Hst'. apply map_insert_new_is_Some. by left.
Qed.

(** every name that [CreateJointName] returns is non-empty *)
Lemma CreateJointName_nonempty nodeIndex st name st' :
  CreateJointName m_model nodeIndex st = Ret (name, st') -> name <> "".
Proof.
  intros Hrun. apply CreateJointName_spec in Hrun as (node & _ & -> & _).
  assert (Hbase : base_name node nodeIndex <> "").
  { unfold base_name. destruct (node_name node) as [|c rest]; simpl; discriminate. }
  destruct (existingNames st !! base_name node nodeIndex); [|exact Hbase].
  intros Heq. apply (f_equal String.length) in Heq.
  destruct (base_name node nodeIndex); [done|discriminate].
Qed.

Lemma ImportChildren_grow budget node children_ st ok children' st' :
  ImportChildren m_model budget node children_ st = Ret (ok, children', st') ->
  names_grow st st'.
Proof.
  revert node children_ st ok children' st'.
  induction budget as [|budget IH]; intros node children_ st ok children' st' Hrun;
    [discriminate|].
  simpl in Hrun. revert children_ st Hrun.
  induction (node_children node) as [|childIndex rest IHrest]; intros children_ st Hrun.
  - injection Hrun as _ _ <-. apply names_grow_refl.
  - apply bind_Ret in Hrun as (childNode & Hnode & Hrun).
    apply bind_Ret in Hrun as ([name st1] & Hname & Hrun).
    apply bind_Ret in Hrun as ([ok1 transform] & Htr & Hrun).
    apply CreateJointName_grow in Hname as [Hg1 _].
    destruct ok1; simpl in Hrun.
    + apply bind_Ret in Hrun as ([[ok2 grandchildren] st2] & Hrec & Hrun).
      apply IH in Hrec.
      destruct ok2; simpl in Hrun.
      * apply IHrest in Hrun. eauto using names_grow_trans.
      * injection Hrun as _ _ <-. eauto using names_grow_trans.
    + injection Hrun as _ _ <-. exact Hg1.
Qed.

End Registry.

Lemma string_length_app (a b : string) :
  String.length (a +:+ b) = (String.length a + String.length b)%nat.
Proof. induction a as [|c a IH]; simpl; [reflexivity|by rewrite IH]. Qed.

Lemma suffixed_name_differs (base suffix : string) : base +:+ "_" +:+ suffix <> base.
Proof.
  intros Heq. apply (f_equal String.length) in Heq.
  rewrite !string_length_app in Heq. simpl in Heq. lia.
Qed.

Section Roots.

Context `{Env} (m_model : Model).

Lemma at_nonneg {A} (l : list A) (i : Z) (x : A) : at_ l i = Ret x -> 0 <= i.
Proof. unfold at_. destruct (Z.ltb_spec i 0); [discriminate|lia]. Qed.

Lemma set_insert_nonempty x l : set_insert x l <> [].
Proof. destruct l as [|y l]; simpl; [discriminate|]. repeat case_match; discriminate. Qed.

Lemma follow_parents_result budget (parents : gmap Z Z) start root :
  follow_parents budget parents start = Ret root ->
  root = start \/ exists c, parents !! c = Some root.
Proof.
  revert start. induction budget as [|budget IH]; intros start Hrun; [discriminate|].
  simpl in Hrun. destruct (parents !! start) as [p|] eqn:Hp.
  - apply IH in Hrun as [->|Hrun]; [|by right]. right. by exists start.
  - injection Hrun as <-. by left.
Qed.

Lemma parents_fold_nonneg (children_ : list Z) (nodeIndex : Z) (parents : gmap Z Z) :
  0 <= nodeIndex ->
  (forall c p, parents !! c = Some p -> 0 <= p) ->
  forall c p,
    foldl (fun parents childIndex => map_insert_new childIndex nodeIndex parents)
      parents children_ !! c = Some p -> 0 <= p.
Proof.
  intros Hn. revert parents. induction children_ as [|child rest IH]; intros parents Hp; simpl.
  - exact Hp.
  - apply IH. intros c p. unfold map_insert_new.
    destruct (parents !! child) eqn:Hchild; [apply Hp|].
    destruct (decide (child = c)) as [->|Hne].
    + rewrite lookup_insert_eq. intros [= <-]. exact Hn.
    + rewrite lookup_insert_ne by done. apply Hp.
Qed.

Lemma FindSkinRootJointIndex_nonneg budget skin root :
  skin_joints skin <> [] ->
  FindSkinRootJointIndex m_model budget skin = Ret root -> 0 <= root.
Proof.
  unfold FindSkinRootJointIndex. intros Hne Hrun.
  destruct (skin_joints skin) as [|joint0 rest] eqn:Hj; [done|].
  apply bind_Ret in Hrun as (parents & Hparents & Hrun).
  apply (for_each_prefix_invariant
    (fun pre (parents : gmap Z Z) =>
       (forall j, j ∈ pre -> 0 <= j) /\ (forall c p, parents !! c = Some p -> 0 <= p)))
    in Hparents as [Hjoints Hvalues].
  - apply follow_parents_result in Hrun as [->|[c Hc]].
    + apply Hjoints. by left.
    + by eapply Hvalues.
  - split; [intros j Hj'; by apply elem_of_nil in Hj'|].
    intros c p Hc. by rewrite lookup_empty in Hc.
  - intros pre a s s' [Hpre Hvals] Hbody.
    apply bind_Ret in Hbody as (node & Hnode & Hbody). injection Hbody as <-.
    apply at_nonneg in Hnode. split.
    + intros j Hj'. apply elem_of_app in Hj' as [Hj'|Hj']; [by apply Hpre|].
      apply list_elem_of_singleton in Hj' as ->. exact Hnode.
    + by apply parents_fold_nonneg.
Qed.

Lemma collect_roots_nonempty budget skins_ acc rootJoints :
  acc <> [] -> collect_roots m_model budget skins_ acc = Ret rootJoints -> rootJoints <> [].
Proof.
  revert acc. induction skins_ as [|skin rest IH]; intros acc Hacc Hrun; simpl in Hrun.
  - by injection Hrun as <-.
  - apply bind_Ret in Hrun as (root & _ & Hrun).
    destruct (root =? -1); eapply IH; try exact Hrun; [done|apply set_insert_nonempty].
Qed.

Lemma collect_roots_of_scene_skins budget scene skins_ rootJoints :
  GetSkinsForScene m_model budget scene = Ret skins_ ->
  skins_ <> [] ->
  collect_roots m_model budget skins_ [] = Ret rootJoints ->
  rootJoints <> [].
Proof.
  unfold GetSkinsForScene. intros Hskins Hne Hrun.
  apply bind_Ret in Hskins as (found & _ & Hskins). injection Hskins as <-.
  destruct (List.filter _ _) as [|skin rest] eqn:Hf; [done|].
  assert (Hin : In skin (skin :: rest)) by (by left).
  rewrite <- Hf in Hin. apply filter_In in Hin as [_ Hskin].
  simpl in Hrun. apply bind_Ret in Hrun as (root & Hroot & Hrun).
  apply FindSkinRootJointIndex_nonneg in Hroot.
  2:{ destruct (skin_joints skin); [discriminate|done]. }
  destruct (Z.eqb_spec root (-1)) as [->|_]; [lia|].
  eapply collect_roots_nonempty; [|exact Hrun]. discriminate.
Qed.

Lemma import_roots_grow budget rootJoints skeleton st ok skeleton' st' :
  import_roots m_model budget rootJoints skeleton st = Ret (ok, skeleton', st') ->
  names_grow st st' /\ exists more, roots skeleton' = roots skeleton ++ more.
Proof.
  revert skeleton st. induction rootJoints as [|r rest IH]; intros skeleton st Hrun;
    simpl in Hrun.
  - injection Hrun as _ <- <-. split; [apply names_grow_refl|]. exists []. by rewrite app_nil_r.
  - apply bind_Ret in Hrun as (rootBone & Hbone & Hrun).
    apply bind_Ret in Hrun as ([name st1] & Hname & Hrun).
    apply bind_Ret in Hrun as ([ok1 transform] & Htr & Hrun).
    apply CreateJointName_grow in Hname as [Hg1 _].
    destruct ok1; simpl in Hrun.
    + apply bind_Ret in Hrun as ([[ok2 children_] st2] & Hch & Hrun).
      apply ImportChildren_grow in Hch.
      destruct ok2; simpl in Hrun.
      * apply IH in Hrun as [Hg [more Hmore]]. split; [eauto using names_grow_trans|].
        simpl in Hmore. rewrite <- app_assoc in Hmore. eauto.
      * injection Hrun as _ <- <-. split; [eauto using names_grow_trans|].
        exists []. by rewrite app_nil_r.
    + injection Hrun as _ <- <-. split; [done|]. exists []. by rewrite app_nil_r.
Qed.

(** a successful pass over a non-empty [rootJoints]: the first joint added
    to the skeleton carries the name that [CreateJointName] gives the first
    root in the state of entry *)
Lemma import_roots_first budget r rest skeleton st skeleton' st' :
  import_roots m_model budget (r :: rest) skeleton st = Ret (true, skeleton', st') ->
  exists name st1 joint,
    CreateJointName m_model r st = Ret (name, st1) /\
    names_grow st1 st' /\
    joint_name joint = name /\
    roots skeleton' !! length (roots skeleton) = Some joint.
Proof.
  simpl. intros Hrun.
  apply bind_Ret in Hrun as (rootBone & Hbone & Hrun).
  apply bind_Ret in Hrun as ([name st1] & Hname & Hrun).
  apply bind_Ret in Hrun as ([ok1 transform] & Htr & Hrun).
  destruct ok1; simpl in Hrun; [|discriminate].
  apply bind_Ret in Hrun as ([[ok2 children_] st2] & Hch & Hrun).
  destruct ok2; simpl in Hrun; [|discriminate].
  apply ImportChildren_grow in Hch.
  apply import_roots_grow in Hrun as [Hg [more Hmore]].
  exists name, st1, (mkJoint name transform children_).
  split; [exact Hname|]. split; [eauto using names_grow_trans|]. split; [reflexivity|].
  rewrite Hmore. simpl. rewrite <- app_assoc. simpl.
  rewrite lookup_app_r by lia. by rewrite Nat.sub_diag.
Qed.

End Roots.

(** C10. The registry of [CreateJointName] outlives a build. Two builds of
    the same model into the same skeleton, the first one in the state of
    process start and the second one in the state the first one left, both
    successful, do not give the same skeleton: the first joint added by the
    second build carries the name of the first build followed by [_] and the
    node index, because the name of the first build is found in the registry
    and treated as a collision. *)
Theorem C10_second_build_renames `{Env} (m_model : Model) (budget : nat)
    (skeleton0 skeleton1 skeleton2 : RawSkeleton) (st1 st2 : ImporterState) :
  Import_skeleton m_model budget skeleton0 initial_state = Ret (true, skeleton1, st1) ->
  Import_skeleton m_model budget skeleton0 st1 = Ret (true, skeleton2, st2) ->
  skeleton1 <> skeleton2 /\
  exists (joint1 joint2 : Joint) (nodeIndex : Z),
    roots skeleton1 !! length (roots skeleton0) = Some joint1 /\
    roots skeleton2 !! length (roots skeleton0) = Some joint2 /\
    joint_name joint2 = joint_name joint1 +:+ "_" +:+ pretty nodeIndex.
Proof.
  unfold Import_skeleton. intros Hrun1 Hrun2.
  destruct (length (scenes m_model) =? 0)%nat; [discriminate|].
  destruct (length (skins m_model) =? 0)%nat; [discriminate|].
  apply bind_Ret in Hrun1 as (scene & Hscene & Hrun1).
  rewrite Hscene in Hrun2. cbn [mbind outcome_bind obind] in Hrun2.
  destruct (length (scene_nodes scene) =? 0)%nat; [discriminate|].
  apply bind_Ret in Hrun1 as (skins_ & Hskins & Hrun1).
  rewrite Hskins in Hrun2. cbn [mbind outcome_bind obind] in Hrun2.
  destruct (length skins_ =? 0)%nat eqn:Hlen; [discriminate|].
  apply bind_Ret in Hrun1 as (rootJoints & Hroots & Hrun1).
  rewrite Hroots in Hrun2. cbn [mbind outcome_bind obind] in Hrun2.
  apply bind_Ret in Hrun1 as ([[ok1 sk1] s1] & Himp1 & Hrun1).
  apply bind_Ret in Hrun2 as ([[ok2 sk2] s2] & Himp2 & Hrun2).
  destruct ok1; simpl in Hrun1; [|discriminate].
  destruct ok2; simpl in Hrun2; [|discriminate].
  destruct (RawSkeleton_Validate sk1); simpl in Hrun1; [|discriminate].
  destruct (RawSkeleton_Validate sk2); simpl in Hrun2; [|discriminate].
  injection Hrun1 as <- <-. injection Hrun2 as <- <-.
  assert (Hne : rootJoints <> []).
  { eapply collect_roots_of_scene_skins; [exact Hskins| |exact Hroots].
    intros ->. discriminate. }
  destruct rootJoints as [|r rest]; [done|].
  apply import_roots_first in Himp1 as (name1 & sa & joint1 & Hname1 & Hgrow & Hj1 & Hl1).
  apply import_roots_first in Himp2 as (name2 & sb & joint2 & Hname2 & _ & Hj2 & Hl2).
  pose proof (CreateJointName_grow _ _ _ _ _ Hname1) as [_ Hreg].
  apply Hgrow in Hreg.
  apply CreateJointName_spec in Hname1 as (node & Hnode & Hn1 & _).
  apply CreateJointName_spec in Hname2 as (node' & Hnode' & Hn2 & _).
  rewrite Hnode in Hnode'. injection Hnode' as <-.
  simpl in Hn1. rewrite lookup_empty in Hn1. subst name1.
  destruct Hreg as [v Hv]. rewrite Hv in Hn2.
  assert (Hnames : joint_name joint2 = joint_name joint1 +:+ "_" +:+ pretty r).
  { by rewrite Hj1, Hj2. }
  split.
  - intros Heq. rewrite <- Heq, Hl1 in Hl2. injection Hl2 as <-.
    symmetry in Hnames. by apply suffixed_name_differs in Hnames.
  - by exists joint1, joint2, r.
Qed.

Lemma C10_second_build_renames_witness :
  @Import_skeleton (spec_env true) TwoBuilds.model 5 (mkRawSkeleton []) initial_state
    = Ret (true, TwoBuilds.built "root", TwoBuilds.after_first) /\
  @Import_skeleton (spec_env true) TwoBuilds.model 5 (mkRawSkeleton []) TwoBuilds.after_first
    = Ret (true, TwoBuilds.built "root_0", TwoBuilds.after_second) /\
  TwoBuilds.built "root" <> TwoBuilds.built "root_0".
Proof.
  assert (Hrun1 : @Import_skeleton (spec_env true) TwoBuilds.model 5 (mkRawSkeleton [])
                    initial_state
                  = Ret (true, TwoBuilds.built "root", TwoBuilds.after_first))
    by (vm_compute; reflexivity).
  assert (Hrun2 : @Import_skeleton (spec_env true) TwoBuilds.model 5 (mkRawSkeleton [])
                    TwoBuilds.after_first
                  = Ret (true, TwoBuilds.built "root_0", TwoBuilds.after_second))
    by (vm_compute; reflexivity).
  split; [exact Hrun1|]. split; [exact Hrun2|].
  exact (proj1 (@C10_second_build_renames (spec_env true) TwoBuilds.model 5
                  (mkRawSkeleton []) (TwoBuilds.built "root") (TwoBuilds.built "root_0")
                  TwoBuilds.after_first TwoBuilds.after_second Hrun1 Hrun2)).
Defined.

(** * Further properties of the importer *)

(** inversion of a run that returned, branch by branch *)
(** ** The samplers *)

Section Samplers.

Context `{Env} (m_model : Model).

(** X1. A LINEAR channel that is sampled successfully yields one key per
    source sample, [output.count] keys in all, and the key at position [i]
    carries [timestamps[i]] and [values[i]] unchanged; what the key vector
    held before is gone. *)
Theorem X1_linear_copies_samples {V : Type} `{ValueType V} (output_ : Accessor)
    (timestamps : list Byte.byte) (keyframes keyframes' : list (Key V)) :
  SampleLinearChannel m_model output_ timestamps keyframes = Ret (true, keyframes') ->
  length keyframes' = Z.to_nat (count output_) /\
  exists values,
    BufferView m_model sizeof output_ = Ret (Some values) /\
    forall i, (i < Z.to_nat (count output_))%nat ->
      exists t v,
        timestamp_at timestamps i = Ret t /\ value_at values i = Ret v /\
        keyframes' !! i = Some (mkKey t v).
Proof.
  unfold SampleLinearChannel. intros Hrun.
  apply bind_Ret in Hrun as ([values|] & Hview & Hrun); [|discriminate].
  apply bind_Ret in Hrun as (kf & Hloop & Hrun). injection Hrun as <-.
  set (n := Z.to_nat (count output_)) in *.
  pose (P := fun (pre : list nat) (s : list (Key V)) =>
               length s = n /\
               forall i, (i < length pre)%nat ->
                 exists t v, timestamp_at timestamps i = Ret t /\
                             value_at values i = Ret v /\ s !! i = Some (mkKey t v)).
  assert (Hfinal : P (seq 0 n) kf).
  { eapply (for_each_split_invariant P); [| |exact Hloop].
    - split; [apply length_resize|]. intros i Hi. simpl in Hi. lia.
    - intros pre a suf s s' Hsplit [Hlen Hpre] Hbody.
      apply seq_split_head in Hsplit as [-> Ha].
      apply bind_Ret in Hbody as (t & Ht & Hbody).
      apply bind_Ret in Hbody as (v & Hv & Hbody).
      apply store_Ret in Hbody as [Hlt ->]. split; [by rewrite length_insert|].
      rewrite length_app. simpl. intros i Hi.
      destruct (decide (i = length pre)) as [->|Hne].
      + exists t, v. repeat split; try done. by apply list_lookup_insert_eq.
      + destruct (Hpre i) as (ti & vi & Hti & Hvi & Hk); [lia|].
        exists ti, vi. repeat split; try done. by rewrite list_lookup_insert_ne. }
  destruct Hfinal as [Hlen Hkeys]. rewrite length_seq in Hkeys.
  split; [exact Hlen|]. exists values. by split.
Qed.

(** X2. When the element size of the output accessor is not the size of
    the value type of the keys, [BufferView] gives the null pointer and each
    of the three samplers returns [false] without touching the key vector. *)
Theorem X2_element_size_mismatch_fails {V : Type} `{ValueType V} (output_ : Accessor)
    (timestamps : list Byte.byte) (keyframes : list (Key V)) (samplingRate duration_ : float) :
  GetComponentSizeInBytes (componentType output_) * GetTypeSizeInBytes (type output_)
    <> sizeof ->
  BufferView m_model sizeof output_ = Ret None /\
  SampleLinearChannel m_model output_ timestamps keyframes = Ret (false, keyframes) /\
  SampleStepChannel m_model output_ timestamps keyframes = Ret (false, keyframes) /\
  SampleCubicSplineChannel m_model output_ timestamps keyframes samplingRate duration_
    = Ret (false, keyframes).
Proof.
  intros Hsize.
  assert (Hview : BufferView m_model sizeof output_ = Ret None).
  { unfold BufferView. apply Z.eqb_neq in Hsize. by rewrite Hsize. }
  unfold SampleLinearChannel, SampleStepChannel, SampleCubicSplineChannel.
  rewrite Hview. by repeat split.
Qed.

End Samplers.

Lemma X1_linear_copies_samples_witness :
  let keys := [ mkKey (F32.of_Z 0) (mkFloat3 (F32.of_Z 1) (F32.of_Z 2) (F32.of_Z 3));
                mkKey (F32.of_Z 1) (mkFloat3 (F32.of_Z 4) (F32.of_Z 5) (F32.of_Z 6)) ] in
  @SampleLinearChannel StepExample.env StepExample.model Float3 _
    StepExample.output_accessor StepExample.timestamps [Key_init; Key_init; Key_init]
  = Ret (true, keys) /\
  length keys = 2%nat.
Proof.
  intros keys.
  assert (Hrun : @SampleLinearChannel StepExample.env StepExample.model Float3 _
                   StepExample.output_accessor StepExample.timestamps
                   [Key_init; Key_init; Key_init] = Ret (true, keys))
    by (vm_compute; reflexivity).
  split; [exact Hrun|].
  exact (proj1 (@X1_linear_copies_samples StepExample.env StepExample.model Float3 _
                  StepExample.output_accessor StepExample.timestamps _ keys Hrun)).
Defined.

Lemma X2_element_size_mismatch_fails_witness :
  let vec4_accessor := mkAccessor 0 8 COMPONENT_TYPE_FLOAT 2 4 [] in
  @SampleLinearChannel StepExample.env StepExample.model Float3 _
    vec4_accessor StepExample.timestamps [] = Ret (false, []) /\
  @SampleStepChannel StepExample.env StepExample.model Float3 _
    vec4_accessor StepExample.timestamps [] = Ret (false, []).
Proof.
  intros vec4_accessor.
  destruct (@X2_element_size_mismatch_fails StepExample.env StepExample.model Float3 _
              vec4_accessor StepExample.timestamps [] F32.one F32.one)
    as (_ & Hlinear & Hstep & _).
  - vm_compute. discriminate.
  - by split.
Defined.

(** ** Dispatch of a channel *)

Section Dispatch.

Context `{Env} (m_model : Model).

(** X3. Sampling a channel changes at most the key sequence of the
    property it targets: the two other sequences of the track come back as
    they went in, whatever the interpolation mode and whether or not the
    call succeeds. *)
Theorem X3_channel_touches_its_property_only (sampler_ : AnimationSampler)
    (targetPath : string) (outDuration : float) (track : JointTrack) (samplingRate : Z)
    (ok : bool) (outDuration' : float) (track' : JointTrack) :
  SampleAnimationChannel m_model sampler_ targetPath outDuration track samplingRate
    = Ret (ok, outDuration', track') ->
  (targetPath <> "translation" -> translations track' = translations track) /\
  (targetPath <> "rotation" -> rotations track' = rotations track) /\
  (targetPath <> "scale" -> scales track' = scales track).
Proof.
  unfold SampleAnimationChannel. intros Hrun.
  invert_run Hrun; injection Hrun as _ _ <-;
    repeat match goal with
           | Heq : String.eqb _ _ = true |- _ => apply String.eqb_eq in Heq
           | Heq : String.eqb _ _ = false |- _ => clear Heq
           end;
    subst; simpl; repeat split; intros Hne; try reflexivity; try congruence.
Qed.

(** X4. A channel whose interpolation mode is none of the empty mode,
    LINEAR, STEP and CUBICSPLINE, or whose target path is none of
    translation, rotation and scale, makes the call return [false] with the
    track unchanged. *)
Theorem X4_unknown_mode_or_path_fails (sampler_ : AnimationSampler)
    (targetPath : string) (outDuration : float) (track : JointTrack) (samplingRate : Z)
    (ok : bool) (outDuration' : float) (track' : JointTrack) :
  SampleAnimationChannel m_model sampler_ targetPath outDuration track samplingRate
    = Ret (ok, outDuration', track') ->
  (interpolation sampler_ <> "" /\ interpolation sampler_ <> "LINEAR" /\
   interpolation sampler_ <> "STEP" /\ interpolation sampler_ <> "CUBICSPLINE") \/
  (targetPath <> "translation" /\ targetPath <> "rotation" /\ targetPath <> "scale") ->
  ok = false /\ track' = track.
Proof.
  unfold SampleAnimationChannel. intros Hrun Hunknown.
  invert_run Hrun; injection Hrun as <- _ <-;
    repeat match goal with
           | Heq : String.eqb _ _ = true |- _ => apply String.eqb_eq in Heq
           | Heq : (_ || _) = true |- _ => apply orb_true_iff in Heq as [Heq|Heq]
           end;
    try (split; reflexivity);
    exfalso; destruct Hunknown as [(? & ? & ? & ?)|(? & ? & ?)]; congruence.
Qed.

End Dispatch.

Lemma X3_channel_touches_its_property_only_witness :
  let m := OneJoint.model "LINEAR" 0 1 2 OneJoint.two_values in
  let track := mkJointTrack [] [mkKey F32.one Quaternion_identity] [mkKey F32.one Float3_one] in
  exists d' track',
    @SampleAnimationChannel (spec_env true) m (mkSampler 0 1 "LINEAR") "translation"
      F32.zero track 1 = Ret (true, d', track') /\
    rotations track' = rotations track /\ scales track' = scales track.
Proof.
  intros m track. do 2 eexists.
  assert (Hrun : @SampleAnimationChannel (spec_env true) m (mkSampler 0 1 "LINEAR")
                   "translation" F32.zero track 1 = Ret (true, _, _))
    by (vm_compute; reflexivity).
  split; [exact Hrun|].
  destruct (@X3_channel_touches_its_property_only (spec_env true) m _ _ _ _ _ _ _ _ Hrun)
    as (_ & Hrot & Hsc).
  split; [apply Hrot|apply Hsc]; discriminate.
Defined.

Lemma X4_unknown_mode_or_path_fails_witness :
  let m := OneJoint.model "BOGUS" 0 1 2 OneJoint.two_values in
  @SampleAnimationChannel (spec_env true) m (mkSampler 0 1 "BOGUS") "translation"
    F32.zero JointTrack_init 1 = Ret (false, F32.of_Z 1, JointTrack_init) /\
  false = false /\ JointTrack_init = JointTrack_init.
Proof.
  intros m.
  assert (Hrun : @SampleAnimationChannel (spec_env true) m (mkSampler 0 1 "BOGUS")
                   "translation" F32.zero JointTrack_init 1
                 = Ret (false, F32.of_Z 1, JointTrack_init))
    by (vm_compute; reflexivity).
  split; [exact Hrun|].
  apply (@X4_unknown_mode_or_path_fails (spec_env true) m _ _ _ _ _ _ _ _ Hrun).
  left. repeat split; discriminate.
Defined.

(** ** Shape of the imported animation *)

Section Shape.

Context `{Env} (m_model : Model).

Lemma SFltb_asym (x y : spec_float) : SFltb x y = true -> SFltb y x = false.
Proof.
  intros Hxy. destruct (SFltb y x) eqn:Hyx; [|reflexivity].
  pose proof (SFltb_trans _ _ _ Hxy Hyx) as Hxx. by rewrite SFltb_irrefl in Hxx.
Qed.

Lemma not_below_kept (bound : float) : kept_by_raise (fun d => F32.ltb d bound = false).
Proof.
  unfold kept_by_raise, F32.ltb, F32.gtb. intros d x Hd Hdx.
  destruct (SFltb x bound) eqn:Hxb; [|reflexivity].
  by rewrite (SFltb_trans _ _ _ Hdx Hxb) in Hd.
Qed.

Lemma not_nan_kept : kept_by_raise (fun d => d <> S754_nan).
Proof.
  unfold kept_by_raise, F32.gtb. intros d x _ Hdx ->. by destruct d as [[]|[]| |[] ? ?].
Qed.

Lemma sample_channels_keeps (Q : float -> Prop) ga chs rate d track ok d' track' :
  kept_by_raise Q ->
  sample_channels m_model ga chs rate d track = Ret (ok, d', track') ->
  Q d -> Q d'.
Proof.
  intros HQ. revert d track. induction chs as [|ch chs IH]; intros d track Hrun Hd;
    simpl in Hrun.
  - by injection Hrun as _ <- _.
  - apply bind_Ret in Hrun as (sampler_ & _ & Hrun).
    apply bind_Ret in Hrun as ([[ok1 d1] track1] & Hch & Hrun).
    apply SampleAnimationChannel_duration in Hch as (x & _ & ->).
    assert (Hd1 : Q (if F32.gtb x d then x else d)).
    { destruct (F32.gtb x d) eqn:Hx; [by eapply HQ|exact Hd]. }
    destruct ok1; simpl in Hrun.
    + by eapply IH.
    + by injection Hrun as _ <- _.
Qed.

Lemma import_joints_shape (Q : float -> Prop) st ga cpj names rate joints anim ok anim' :
  kept_by_raise Q ->
  import_joints m_model st ga cpj names rate joints anim = Ret (ok, anim') ->
  anim_name anim' = anim_name anim /\
  length (tracks anim') = length (tracks anim) /\
  (Q (duration anim) -> Q (duration anim')).
Proof.
  intros HQ. revert anim. induction joints as [|i joints IH]; intros anim Hrun;
    simpl in Hrun.
  - by injection Hrun as _ <-.
  - apply bind_Ret in Hrun as (name & _ & Hrun).
    apply bind_Ret in Hrun as (track & _ & Hrun).
    apply bind_Ret in Hrun as (r & _ & Hrun).
    apply bind_Ret in Hrun as ([[ok1 d1] track1] & Hch & Hrun).
    pose proof (sample_channels_keeps Q _ _ _ _ _ _ _ _ HQ Hch) as Hd.
    destruct ok1; simpl in Hrun.
    + apply bind_Ret in Hrun as (? & _ & Hrun).
      apply bind_Ret in Hrun as (track2 & _ & Hrun).
      apply IH in Hrun as (Hname & Hlen & Hdur). simpl in *.
      rewrite !length_insert in Hlen. auto.
    + injection Hrun as _ <-. simpl. rewrite length_insert. auto.
Qed.

(** X5. Whenever the import of an animation that exists in the model
    returns, with success or with failure, the output animation carries the
    name of the glTF animation and exactly one track per joint of the
    skeleton. *)
Theorem X5_output_name_and_track_count (st : ImporterState) (animationName : string)
    (skeleton : Skeleton) (samplingRate : float) (animation0 animation : RawAnimation)
    (ga : Animation) (ok : bool) :
  List.find (fun a => String.eqb (animation_name a) animationName) (animations m_model)
    = Some ga ->
  Import_animation m_model st animationName skeleton samplingRate animation0
    = Ret (ok, animation) ->
  anim_name animation = animation_name ga /\
  anim_name animation = animationName /\
  length (tracks animation) = length (joint_names skeleton).
Proof.
  unfold Import_animation. intros Hfind Hrun. rewrite Hfind in Hrun.
  apply find_some in Hfind as [_ Heq]. apply String.eqb_eq in Heq.
  apply bind_Ret in Hrun as (cpj & _ & Hrun).
  apply bind_Ret in Hrun as ([ok1 a] & Hjoints & Hrun).
  apply (import_joints_shape (fun _ => True)) in Hjoints as (Hname & Hlen & _);
    [|by intros ? ? ? ?].
  simpl in Hname, Hlen. rewrite length_resize in Hlen.
  unfold num_joints in Hlen. rewrite Nat2Z.id in Hlen.
  assert (a = animation) as <-.
  { destruct ok1; simpl in Hrun; [|by injection Hrun as _ <-].
    destruct (RawAnimation_Validate a); simpl in Hrun; by injection Hrun as _ <-. }
  rewrite Hname. by repeat split.
Qed.

(** X6. Whenever the import of an animation that exists in the model
    returns, the duration of the output is not below 0: it starts at 0 and
    a channel only ever raises it, so a negative or NaN declared maximum is
    ignored. *)
Theorem X6_duration_not_negative (st : ImporterState) (animationName : string)
    (skeleton : Skeleton) (samplingRate : float) (animation0 animation : RawAnimation)
    (ga : Animation) (ok : bool) :
  List.find (fun a => String.eqb (animation_name a) animationName) (animations m_model)
    = Some ga ->
  Import_animation m_model st animationName skeleton samplingRate animation0
    = Ret (ok, animation) ->
  F32.ltb (duration animation) F32.zero = false /\ duration animation <> S754_nan.
Proof.
  unfold Import_animation. intros Hfind Hrun. rewrite Hfind in Hrun.
  apply bind_Ret in Hrun as (cpj & _ & Hrun).
  apply bind_Ret in Hrun as ([ok1 a] & Hjoints & Hrun).
  assert (a = animation) as <-.
  { destruct ok1; simpl in Hrun; [|by injection Hrun as _ <-].
    destruct (RawAnimation_Validate a); simpl in Hrun; by injection Hrun as _ <-. }
  split.
  - apply (import_joints_shape _ _ _ _ _ _ _ _ _ _ (not_below_kept F32.zero)) in Hjoints
      as (_ & _ & Hdur).
    apply Hdur. reflexivity.
  - apply (import_joints_shape _ _ _ _ _ _ _ _ _ _ not_nan_kept) in Hjoints
      as (_ & _ & Hdur).
    apply Hdur. discriminate.
Qed.

End Shape.

Lemma X5_output_name_and_track_count_witness :
  let m := OneJoint.model "BOGUS" 0 2 2 OneJoint.two_values in
  let a := mkRawAnimation "anim" (F32.of_Z 2) [JointTrack_init] in
  @Import_animation (spec_env true) m OneJoint.state "anim" OneJoint.skeleton
    (F32.of_Z 1) OneJoint.fresh_animation = Ret (false, a) /\
  anim_name a = "anim" /\ length (tracks a) = 1%nat.
Proof.
  intros m a.
  assert (Hrun : @Import_animation (spec_env true) m OneJoint.state "anim" OneJoint.skeleton
                   (F32.of_Z 1) OneJoint.fresh_animation = Ret (false, a))
    by (vm_compute; reflexivity).
  split; [exact Hrun|].
  destruct (@X5_output_name_and_track_count (spec_env true) m OneJoint.state "anim"
              OneJoint.skeleton (F32.of_Z 1) OneJoint.fresh_animation a
              (mkAnimation "anim" [mkChannel 0 0 "translation"] [mkSampler 0 1 "BOGUS"])
              false eq_refl Hrun) as (_ & Hname & Hlen).
  by split.
Defined.

Lemma X6_duration_not_negative_witness :
  let m := OneJoint.model "BOGUS" 0 2 2 OneJoint.two_values in
  let a := mkRawAnimation "anim" (F32.of_Z 2) [JointTrack_init] in
  @Import_animation (spec_env true) m OneJoint.state "anim" OneJoint.skeleton
    (F32.of_Z 1) OneJoint.fresh_animation = Ret (false, a) /\
  F32.ltb (duration a) F32.zero = false /\ duration a <> S754_nan.
Proof.
  intros m a.
  assert (Hrun : @Import_animation (spec_env true) m OneJoint.state "anim" OneJoint.skeleton
                   (F32.of_Z 1) OneJoint.fresh_animation = Ret (false, a))
    by (vm_compute; reflexivity).
  split; [exact Hrun|].
  exact (@X6_duration_not_negative (spec_env true) m OneJoint.state "anim"
           OneJoint.skeleton (F32.of_Z 1) OneJoint.fresh_animation a
           (mkAnimation "anim" [mkChannel 0 0 "translation"] [mkSampler 0 1 "BOGUS"])
           false eq_refl Hrun).
Defined.

(** ** Lookup of a node by joint name *)

Lemma find_first {A} (f : A -> bool) (l : list A) (x : A) :
  List.find f l = Some x ->
  exists pre suf, l = pre ++ x :: suf /\ f x = true /\ forall y, y ∈ pre -> f y = false.
Proof.
  induction l as [|a l IH]; simpl; [discriminate|].
  destruct (f a) eqn:Ha.
  - intros [= <-]. exists [], l. repeat split; [done|]. intros y Hy. by apply elem_of_nil in Hy.
  - intros Hfind. destruct (IH Hfind) as (pre & suf & -> & Hx & Hpre).
    exists (a :: pre), suf. repeat split; [done|].
    intros y Hy. apply elem_of_cons in Hy as [->|Hy]; [done|by apply Hpre].
Qed.

Section Lookup.

Context `{Env} (m_model : Model).

(** X7. [FindNodeByName] returns the node of the smallest index whose
    recorded joint name is the name asked for, and the null pointer exactly
    when no node of the model has that recorded name. *)
Theorem X7_FindNodeByName_first_match (st : ImporterState) (name : string) :
  match FindNodeByName m_model st name with
  | Some node =>
      exists i : nat,
        nodes m_model !! i = Some node /\
        m_nodeNames st !! Z.of_nat i = Some name /\
        forall j : nat, (j < i)%nat -> m_nodeNames st !! Z.of_nat j <> Some name
  | None =>
      forall i : nat, (i < length (nodes m_model))%nat ->
        m_nodeNames st !! Z.of_nat i <> Some name
  end.
Proof.
  unfold FindNodeByName.
  destruct (List.find _ _) as [i|] eqn:Hfind; simpl.
  - apply find_first in Hfind as (pre & suf & Hsplit & Hi & Hpre).
    pose proof Hsplit as Hsplit'.
    apply seq_split_head in Hsplit as [-> Hlt].
    destruct (nodes m_model !! length pre) as [node|] eqn:Hnode.
    + exists (length pre). split; [done|]. split; [by apply bool_decide_eq_true in Hi|].
      intros j Hj. assert (Hin : j ∈ pre).
      { assert (Hj' : j ∈ take (length pre) (seq 0 (length (nodes m_model)))).
        { rewrite take_seq. apply elem_of_seq. lia. }
        by rewrite Hsplit', take_app_length in Hj'. }
      apply Hpre in Hin. by apply bool_decide_eq_false in Hin.
    + apply lookup_ge_None in Hnode. lia.
  - intros i Hi. eapply find_none in Hfind.
    + by apply bool_decide_eq_false in Hfind.
    + apply list_elem_of_In, elem_of_seq. lia.
Qed.

(** X8. Lookup after insert: once [CreateJointName] has named a node that
    had no recorded name yet, [FindNodeByName] finds a node for the returned
    name. A node that already has a recorded name keeps it: the name
    returned by a later call is not recorded. *)
Theorem X8_named_node_is_found (nodeIndex : Z) (st st' : ImporterState) (name : string) :
  CreateJointName m_model nodeIndex st = Ret (name, st') ->
  m_nodeNames st' !! nodeIndex = Some (default name (m_nodeNames st !! nodeIndex)) /\
  (m_nodeNames st !! nodeIndex = None -> is_Some (FindNodeByName m_model st' name)).
Proof.
  unfold CreateJointName. intros Hrun.
  apply bind_Ret in Hrun as (node & Hnode & Hrun). injection Hrun as Hname <-. simpl.
  rewrite Hname. clear Hname.
  assert (Hrec : map_insert_new nodeIndex name (m_nodeNames st) !! nodeIndex
                 = Some (default name (m_nodeNames st !! nodeIndex))).
  { unfold map_insert_new. destruct (m_nodeNames st !! nodeIndex) eqn:Hold; simpl.
    - exact Hold.
    - apply lookup_insert_eq. }
  split; [exact Hrec|]. intros Hnew. rewrite Hnew in Hrec. simpl in Hrec.
  unfold at_ in Hnode. destruct (Z.ltb_spec nodeIndex 0) as [|Hpos]; [discriminate|].
  destruct (nodes m_model !! Z.to_nat nodeIndex) eqn:Hlook; [|discriminate].
  apply lookup_lt_Some in Hlook.
  unfold FindNodeByName. simpl.
  destruct (List.find _ _) as [i|] eqn:Hfind; simpl.
  - apply find_some in Hfind as [Hin _].
    apply list_elem_of_In, elem_of_seq in Hin. apply lookup_lt_is_Some. lia.
  - eapply find_none with (x := Z.to_nat nodeIndex) in Hfind.
    + apply bool_decide_eq_false in Hfind. rewrite Z2Nat.id in Hfind by lia. done.
    + apply list_elem_of_In, elem_of_seq. lia.
Qed.

End Lookup.

Lemma X8_named_node_is_found_witness :
  let m := OneJoint.model "LINEAR" 0 1 2 OneJoint.two_values in
  exists st',
    @CreateJointName m 0 initial_state = Ret ("root", st') /\
    is_Some (@FindNodeByName m st' "root").
Proof.
  intros m. eexists.
  assert (Hrun : @CreateJointName m 0 initial_state = Ret ("root", _))
    by (vm_compute; reflexivity).
  split; [exact Hrun|].
  apply (@X8_named_node_is_found m 0 initial_state _ "root" Hrun).
  apply lookup_empty.
Defined.

(** ** Roots of the skins *)

Section SkinRoots.

Context `{Env} (m_model : Model).

Lemma follow_parents_top budget (parents : gmap Z Z) start root :
  follow_parents budget parents start = Ret root -> parents !! root = None.
Proof.
  revert start. induction budget as [|budget IH]; intros start Hrun; [discriminate|].
  simpl in Hrun. destruct (parents !! start) as [p|] eqn:Hp.
  - by eapply IH.
  - by injection Hrun as <-.
Qed.

Lemma parents_fold_spec (children_ : list Z) (nodeIndex : Z) (parents : gmap Z Z) (c : Z) :
  let parents' :=
    foldl (fun parents childIndex => map_insert_new childIndex nodeIndex parents)
      parents children_ in
  (forall p, parents' !! c = Some p ->
     parents !! c = Some p \/ (p = nodeIndex /\ c ∈ children_)) /\
  (c ∈ children_ \/ is_Some (parents !! c) -> is_Some (parents' !! c)).
Proof.
  revert parents. induction children_ as [|child rest IH]; intros parents; simpl.
  - split; [by left|]. intros [Hc|Hc]; [by apply elem_of_nil in Hc|done].
  - destruct (IH (map_insert_new child nodeIndex parents)) as [IH1 IH2]. split.
    + intros p Hp. apply IH1 in Hp as [Hp|[-> Hc]].
      * unfold map_insert_new in Hp. destruct (parents !! child) eqn:Hchild; [by left|].
        destruct (decide (child = c)) as [->|Hne].
        -- rewrite lookup_insert_eq in Hp. injection Hp as <-. right. split; [done|by left].
        -- rewrite lookup_insert_ne in Hp by done. by left.
      * right. split; [done|by right].
    + intros Hc. apply IH2.
      destruct Hc as [Hc|Hc].
      * apply elem_of_cons in Hc as [->|Hc]; [|by left].
        right. apply map_insert_new_is_Some. by left.
      * right. apply map_insert_new_is_Some. by right.
Qed.

(** the parent map that [FindSkinRootJointIndex] builds *)
Lemma skin_parents_spec (joints : list Z) (parents : gmap Z Z) :
  for_each joints
    (fun nodeIndex parents =>
       node ← at_ (nodes m_model) nodeIndex;
       Ret (foldl (fun parents childIndex => map_insert_new childIndex nodeIndex parents)
              parents (node_children node)))
    (∅ : gmap Z Z) = Ret parents ->
  (forall c p, parents !! c = Some p ->
     p ∈ joints /\ exists node, at_ (nodes m_model) p = Ret node /\ c ∈ node_children node) /\
  (forall p node c, p ∈ joints -> at_ (nodes m_model) p = Ret node ->
     c ∈ node_children node -> is_Some (parents !! c)).
Proof.
  intros Hrun.
  pose (P := fun (pre : list Z) (parents : gmap Z Z) =>
    (forall c p, parents !! c = Some p ->
       p ∈ pre /\ exists node, at_ (nodes m_model) p = Ret node /\ c ∈ node_children node) /\
    (forall p node c, p ∈ pre -> at_ (nodes m_model) p = Ret node ->
       c ∈ node_children node -> is_Some (parents !! c))).
  apply (for_each_prefix_invariant P) in Hrun; [exact Hrun| |].
  - split.
    + intros c p Hc. by rewrite lookup_empty in Hc.
    + intros p node c Hp. by apply elem_of_nil in Hp.
  - intros pre a s s' [Hsound Hcomplete] Hbody.
    apply bind_Ret in Hbody as (node & Hnode & Hbody). injection Hbody as <-. split.
    + intros c p Hc. apply (parents_fold_spec (node_children node) a s c) in Hc
        as [Hc|[-> Hc]].
      * apply Hsound in Hc as [Hp Hn]. split; [apply elem_of_app; by left|done].
      * split; [apply elem_of_app; right; by apply list_elem_of_singleton|]. by exists node.
    + intros p node' c Hp Hnode' Hc.
      apply (parents_fold_spec (node_children node) a s c).
      apply elem_of_app in Hp as [Hp|Hp].
      * right. by eapply Hcomplete.
      * apply list_elem_of_singleton in Hp as ->. rewrite Hnode in Hnode'.
        injection Hnode' as <-. by left.
Qed.

(** X9. [FindSkinRootJointIndex] answers -1 for a skin without joints. For
    any other skin the index it returns is one of the joints of the skin, and
    no joint of the skin lists it as a child. *)
Theorem X9_skin_root_is_a_parentless_joint (budget : nat) (skin : Skin) (root : Z) :
  FindSkinRootJointIndex m_model budget skin = Ret root ->
  match skin_joints skin with
  | [] => root = -1
  | _ :: _ =>
      root ∈ skin_joints skin /\
      forall p node, p ∈ skin_joints skin -> at_ (nodes m_model) p = Ret node ->
        root ∉ node_children node
  end.
Proof.
  unfold FindSkinRootJointIndex. intros Hrun.
  destruct (skin_joints skin) as [|joint0 rest] eqn:Hj; [by injection Hrun as <-|].
  apply bind_Ret in Hrun as (parents & Hparents & Hrun).
  apply skin_parents_spec in Hparents as [Hsound Hcomplete].
  pose proof (follow_parents_top _ _ _ _ Hrun) as Htop.
  apply follow_parents_result in Hrun as [->|[c Hc]].
  - split; [by left|]. intros p node Hp Hnode Hchild.
    destruct (Hcomplete p node joint0 Hp Hnode Hchild) as [v Hv]. congruence.
  - split; [by apply Hsound in Hc as [Hc _]|].
    intros p node Hp Hnode Hchild.
    destruct (Hcomplete p node root Hp Hnode Hchild) as [v Hv]. congruence.
Qed.

End SkinRoots.

Lemma X9_skin_root_is_a_parentless_joint_witness :
  FindSkinRootJointIndex DuplicateNames.model 5 (mkSkin [2; 0; 1]) = Ret 0 /\
  0 ∈ [2; 0; 1] /\
  forall p node, p ∈ [2; 0; 1] -> at_ (nodes DuplicateNames.model) p = Ret node ->
    0 ∉ node_children node.
Proof.
  assert (Hrun : FindSkinRootJointIndex DuplicateNames.model 5 (mkSkin [2; 0; 1]) = Ret 0)
    by (vm_compute; reflexivity).
  split; [exact Hrun|].
  exact (X9_skin_root_is_a_parentless_joint DuplicateNames.model 5 (mkSkin [2; 0; 1]) 0 Hrun).
Defined.

(** ** The set of root joints *)

Lemma elem_of_set_insert (x y : Z) (l : list Z) : x ∈ set_insert y l <-> x = y \/ x ∈ l.
Proof.
  induction l as [|z l IH]; simpl.
  - rewrite list_elem_of_singleton, elem_of_nil. tauto.
  - destruct (Z.ltb_spec y z).
    + by rewrite elem_of_cons.
    + destruct (Z.eqb_spec y z) as [->|Hne].
      * rewrite elem_of_cons. tauto.
      * rewrite !elem_of_cons, IH. tauto.
Qed.

Lemma set_insert_sorted (y : Z) (l : list Z) :
  StronglySorted Z.lt l -> StronglySorted Z.lt (set_insert y l).
Proof.
  induction 1 as [|z l Hsorted IH Hall]; simpl.
  - repeat constructor.
  - destruct (Z.ltb_spec y z).
    + constructor; [by constructor|]. constructor; [done|].
      eapply Forall_impl; [exact Hall|]. intros; simpl in *; lia.
    + destruct (Z.eqb_spec y z) as [->|Hne]; [by constructor|].
      constructor; [exact IH|]. apply Forall_forall. intros x Hx.
      apply elem_of_set_insert in Hx as [->|Hx]; [lia|].
      by apply (proj1 (Forall_forall _ _) Hall).
Qed.

Section RootSet.

Context `{Env} (m_model : Model).

Lemma collect_roots_spec budget skins_ acc rootJoints :
  collect_roots m_model budget skins_ acc = Ret rootJoints ->
  (StronglySorted Z.lt acc -> StronglySorted Z.lt rootJoints) /\
  forall r, r ∈ rootJoints <->
    r ∈ acc \/
    exists skin, skin ∈ skins_ /\ r <> -1 /\
                 FindSkinRootJointIndex m_model budget skin = Ret r.
Proof.
  revert acc. induction skins_ as [|skin rest IH]; intros acc Hrun; simpl in Hrun.
  - injection Hrun as <-. split; [done|]. intros r. split; [by left|].
    intros [Hr|(skin & Hs & _)]; [done|]. by apply elem_of_nil in Hs.
  - apply bind_Ret in Hrun as (root & Hroot & Hrun).
    destruct (Z.eqb_spec root (-1)) as [->|Hne]; apply IH in Hrun as [Hsorted Hmem].
    + split; [exact Hsorted|]. intros r. rewrite Hmem. split.
      * intros [Hr|(s & Hs & Hr & Hf)]; [by left|]. right. exists s. by rewrite elem_of_cons; auto.
      * intros [Hr|(s & Hs & Hr & Hf)]; [by left|].
        apply elem_of_cons in Hs as [->|Hs]; [|right; by exists s].
        rewrite Hroot in Hf. by injection Hf as <-.
    + split; [intros Hacc; by apply Hsorted, set_insert_sorted|].
      intros r. rewrite Hmem, elem_of_set_insert. split.
      * intros [[->|Hr]|(s & Hs & Hr & Hf)]; [|by left|].
        -- right. exists skin. split; [by left|done].
        -- right. exists s. split; [by right|done].
      * intros [Hr|(s & Hs & Hr & Hf)]; [by left; right|].
        apply elem_of_cons in Hs as [->|Hs]; [|right; by exists s].
        rewrite Hroot in Hf. injection Hf as <-. by left; left.
Qed.

(** X10. The root joints that [Import] collects are the roots of the
    skins, those of skins without joints left out; they form a set: the list
    is strictly increasing, so a root shared by several skins appears once
    and the roots are traversed in increasing index order. *)
Theorem X10_root_joints_form_a_set (budget : nat) (skins_ : list Skin) (rootJoints : list Z) :
  collect_roots m_model budget skins_ [] = Ret rootJoints ->
  StronglySorted Z.lt rootJoints /\
  NoDup rootJoints /\
  forall r, r ∈ rootJoints <->
    exists skin, skin ∈ skins_ /\ r <> -1 /\
                 FindSkinRootJointIndex m_model budget skin = Ret r.
Proof.
  intros Hrun. apply collect_roots_spec in Hrun as [Hsorted Hmem].
  assert (Hs : StronglySorted Z.lt rootJoints) by (apply Hsorted; constructor).
  split; [exact Hs|]. split.
  - clear Hmem Hsorted. induction Hs as [|z l Hs IH Hall]; constructor; [|exact IH].
    intros Hz. apply (proj1 (Forall_forall _ _) Hall) in Hz. lia.
  - intros r. rewrite Hmem. split; [|by right].
    intros [Hr|Hr]; [by apply elem_of_nil in Hr|done].
Qed.

End RootSet.

Lemma X10_root_joints_form_a_set_witness :
  let skins_ := [mkSkin [1; 0]; mkSkin []; mkSkin [2; 0]] in
  collect_roots DuplicateNames.model 5 skins_ [] = Ret [0] /\
  StronglySorted Z.lt [0] /\ NoDup [0].
Proof.
  intros skins_.
  assert (Hrun : collect_roots DuplicateNames.model 5 skins_ [] = Ret [0])
    by (vm_compute; reflexivity).
  split; [exact Hrun|].
  destruct (X10_root_joints_form_a_set DuplicateNames.model 5 skins_ [0] Hrun)
    as (Hsorted & Hnodup & _).
  by split.
Defined.

(** ** Skins of a scene *)

Lemma elem_of_fold_set_insert (x : Z) (l acc : list Z) :
  x ∈ foldl (fun open childIndex => set_insert childIndex open) acc l <-> x ∈ acc \/ x ∈ l.
Proof.
  revert acc. induction l as [|c l IH]; intros acc; simpl.
  - rewrite elem_of_nil. tauto.
  - rewrite IH, elem_of_set_insert, elem_of_cons. tauto.
Qed.

Lemma set_mem_true (x : Z) (l : list Z) : set_mem x l = true <-> x ∈ l.
Proof.
  unfold set_mem. rewrite existsb_exists. split.
  - intros (y & Hy & Heq). apply Z.eqb_eq in Heq as ->. by apply list_elem_of_In.
  - intros Hx. exists x. split; [by apply list_elem_of_In|apply Z.eqb_refl].
Qed.

Section SceneSkins.

Context `{Env} (m_model : Model).

Lemma scene_closure_spec (roots_ : list Z) budget open found result :
  scene_closure m_model budget open found = Ret result ->
  (forall n, n ∈ open \/ n ∈ found -> reachable m_model roots_ n) ->
  (forall r, r ∈ roots_ -> r ∈ open \/ r ∈ found) ->
  (forall p node c, p ∈ found -> at_ (nodes m_model) p = Ret node ->
     c ∈ node_children node -> c ∈ open \/ c ∈ found) ->
  forall n, n ∈ result <-> reachable m_model roots_ n.
Proof.
  revert open found. induction budget as [|budget IH]; intros open found Hrun Hsound Hroots
    Hclosed; [discriminate|].
  simpl in Hrun. destruct open as [|nodeIndex open'].
  - injection Hrun as <-. intros n. split; [intros Hn; apply Hsound; by right|].
    induction 1 as [r Hr|p node c Hp IHp Hnode Hc].
    + destruct (Hroots r Hr) as [Hin|Hin]; [by apply elem_of_nil in Hin|done].
    + destruct (Hclosed p node c IHp Hnode Hc) as [Hin|Hin]; [by apply elem_of_nil in Hin|done].
  - apply bind_Ret in Hrun as (node & Hnode & Hrun).
    eapply IH; [exact Hrun| | |].
    + intros n [Hn|Hn].
      * apply elem_of_fold_set_insert in Hn as [Hn|Hn].
        -- apply Hsound. left. by right.
        -- eapply reachable_child; [|exact Hnode|exact Hn]. apply Hsound. left. by left.
      * apply elem_of_set_insert in Hn as [->|Hn]; apply Hsound; [left; by left|by right].
    + intros r Hr. destruct (Hroots r Hr) as [Hin|Hin].
      * apply elem_of_cons in Hin as [->|Hin].
        -- right. apply elem_of_set_insert. by left.
        -- left. apply elem_of_fold_set_insert. by left.
      * right. apply elem_of_set_insert. by right.
    + intros p node' c Hp Hnode' Hc.
      apply elem_of_set_insert in Hp as [->|Hp].
      * rewrite Hnode in Hnode'. injection Hnode' as <-.
        left. apply elem_of_fold_set_insert. by right.
      * destruct (Hclosed p node' c Hp Hnode' Hc) as [Hin|Hin].
        -- apply elem_of_cons in Hin as [->|Hin].
           ++ right. apply elem_of_set_insert. by left.
           ++ left. apply elem_of_fold_set_insert. by left.
        -- right. apply elem_of_set_insert. by right.
Qed.

(** X11. The skins that [GetSkinsForScene] returns are the skins of the
    model, in their order, that have at least one joint and whose first joint
    is a root node of the scene or a descendant of one. *)
Theorem X11_skins_of_scene_are_the_reachable_ones (budget : nat) (scene : Scene)
    (skins_ : list Skin) :
  GetSkinsForScene m_model budget scene = Ret skins_ ->
  exists keep : Skin -> bool,
    skins_ = List.filter keep (skins m_model) /\
    forall skin,
      keep skin = true <->
      exists joint0 rest,
        skin_joints skin = joint0 :: rest /\
        reachable m_model (scene_nodes scene) joint0.
Proof.
  unfold GetSkinsForScene. intros Hrun.
  apply bind_Ret in Hrun as (found & Hfound & Hrun). injection Hrun as <-.
  eexists. split; [reflexivity|].
  assert (Hspec : forall n, n ∈ found <-> reachable m_model (scene_nodes scene) n).
  { eapply scene_closure_spec; [exact Hfound| | |].
    - intros n [Hn|Hn]; [|by apply elem_of_nil in Hn].
      apply elem_of_fold_set_insert in Hn as [Hn|Hn]; [by apply elem_of_nil in Hn|].
      by apply reachable_root.
    - intros r Hr. left. apply elem_of_fold_set_insert. by right.
    - intros p node c Hp. by apply elem_of_nil in Hp. }
  intros skin. simpl. destruct (skin_joints skin) as [|joint0 rest].
  - split; [discriminate|]. by intros (? & ? & ? & _).
  - rewrite set_mem_true, Hspec. split.
    + intros Hreach. by exists joint0, rest.
    + by intros (j & r & [= <- <-] & Hreach).
Qed.

End SceneSkins.

Lemma X11_skins_of_scene_are_the_reachable_ones_witness :
  GetSkinsForScene DuplicateNames.model 5 (mkScene "scene" [0]) = Ret [mkSkin [0; 1; 2]] /\
  exists keep : Skin -> bool,
    [mkSkin [0; 1; 2]] = List.filter keep (skins DuplicateNames.model) /\
    forall skin,
      keep skin = true <->
      exists joint0 rest,
        skin_joints skin = joint0 :: rest /\ reachable DuplicateNames.model [0] joint0.
Proof.
  assert (Hrun : GetSkinsForScene DuplicateNames.model 5 (mkScene "scene" [0])
                 = Ret [mkSkin [0; 1; 2]]) by (vm_compute; reflexivity).
  split; [exact Hrun|].
  exact (X11_skins_of_scene_are_the_reachable_ones DuplicateNames.model 5
           (mkScene "scene" [0]) [mkSkin [0; 1; 2]] Hrun).
Defined.

(** ** The joint tree *)

Section JointTree.

Context `{Env} (m_model : Model).

Lemma CreateJointName_forms nodeIndex st name st' :
  CreateJointName m_model nodeIndex st = Ret (name, st') ->
  exists node,
    at_ (nodes m_model) nodeIndex = Ret node /\
    (name = base_name node nodeIndex \/
     name = base_name node nodeIndex +:+ "_" +:+ pretty nodeIndex).
Proof.
  intros Hrun. apply CreateJointName_spec in Hrun as (node & Hnode & -> & _).
  exists node. split; [exact Hnode|].
  destruct (existingNames st !! base_name node nodeIndex); [by right|by left].
Qed.

Lemma ImportChildren_tree budget node children_ st children' st' :
  ImportChildren m_model budget node children_ st = Ret (true, children', st') ->
  exists added,
    children' = children_ ++ added /\
    Forall2 (tree_of m_model) (node_children node) added.
Proof.
  revert node children_ st children' st'.
  induction budget as [|budget IH]; intros node children_ st children' st' Hrun;
    [discriminate|].
  simpl in Hrun. revert children_ st Hrun.
  induction (node_children node) as [|childIndex rest IHrest]; intros children_ st Hrun.
  - injection Hrun as <- _. exists []. split; [by rewrite app_nil_r|constructor].
  - apply bind_Ret in Hrun as (childNode & Hnode & Hrun).
    apply bind_Ret in Hrun as ([name st1] & Hname & Hrun).
    apply bind_Ret in Hrun as ([ok1 transform] & Htr & Hrun).
    destruct ok1; simpl in Hrun; [|discriminate].
    apply bind_Ret in Hrun as ([[ok2 grandchildren] st2] & Hrec & Hrun).
    destruct ok2; simpl in Hrun; [|discriminate].
    apply IH in Hrec as (g & -> & Hg). simpl in Hg.
    apply IHrest in Hrun as (added & -> & Hadded).
    apply CreateJointName_forms in Hname as (node' & Hnode' & Hforms).
    rewrite Hnode in Hnode'. injection Hnode' as <-.
    exists (mkJoint name transform g :: added). split; [by rewrite <- app_assoc|].
    constructor; [|exact Hadded]. by econstructor.
Qed.

Lemma import_roots_tree budget rootJoints skeleton st skeleton' st' :
  import_roots m_model budget rootJoints skeleton st = Ret (true, skeleton', st') ->
  exists added,
    roots skeleton' = roots skeleton ++ added /\
    Forall2 (tree_of m_model) rootJoints added.
Proof.
  revert skeleton st. induction rootJoints as [|r rest IH]; intros skeleton st Hrun;
    simpl in Hrun.
  - injection Hrun as <- _. exists []. split; [by rewrite app_nil_r|constructor].
  - apply bind_Ret in Hrun as (rootBone & Hbone & Hrun).
    apply bind_Ret in Hrun as ([name st1] & Hname & Hrun).
    apply bind_Ret in Hrun as ([ok1 transform] & Htr & Hrun).
    destruct ok1; simpl in Hrun; [|discriminate].
    apply bind_Ret in Hrun as ([[ok2 children_] st2] & Hch & Hrun).
    destruct ok2; simpl in Hrun; [|discriminate].
    apply ImportChildren_tree in Hch as (g & -> & Hg). simpl in Hg.
    apply IH in Hrun as (added & Hroots & Hadded). simpl in Hroots.
    apply CreateJointName_forms in Hname as (node' & Hnode' & Hforms).
    rewrite Hbone in Hnode'. injection Hnode' as <-.
    exists (mkJoint name transform g :: added).
    split; [by rewrite Hroots, <- app_assoc|].
    constructor; [|exact Hadded]. by econstructor.
Qed.

(** X12. A successful skeleton build appends to the caller's skeleton one
    joint tree per root joint, in increasing order of the root indices, and
    each tree mirrors the node tree under its root: every joint stands for
    one node, carries the name of the node (the synthesized one when the node
    has none) possibly followed by [_] and the node index, has the transform
    [CreateNodeTransform] gives the node, which carries no matrix, and has
    one child joint per child of the node, in the order of the node. There is
    at least one root joint, and the skeleton passed the validation. *)
Theorem X12_built_skeleton_mirrors_nodes (budget : nat) (skeleton skeleton' : RawSkeleton)
    (st st' : ImporterState) :
  Import_skeleton m_model budget skeleton st = Ret (true, skeleton', st') ->
  exists rootJoints added,
    rootJoints <> [] /\
    StronglySorted Z.lt rootJoints /\
    roots skeleton' = roots skeleton ++ added /\
    Forall2 (tree_of m_model) rootJoints added /\
    RawSkeleton_Validate skeleton' = true.
Proof.
  unfold Import_skeleton. intros Hrun.
  destruct (length (scenes m_model) =? 0)%nat; [discriminate|].
  destruct (length (skins m_model) =? 0)%nat; [discriminate|].
  apply bind_Ret in Hrun as (scene & Hscene & Hrun).
  destruct (length (scene_nodes scene) =? 0)%nat; [discriminate|].
  apply bind_Ret in Hrun as (skins_ & Hskins & Hrun).
  destruct (length skins_ =? 0)%nat eqn:Hlen; [discriminate|].
  apply bind_Ret in Hrun as (rootJoints & Hroots & Hrun).
  apply bind_Ret in Hrun as ([[ok1 sk1] s1] & Himp & Hrun).
  destruct ok1; simpl in Hrun; [|discriminate].
  destruct (RawSkeleton_Validate sk1) eqn:Hvalid; simpl in Hrun; [|discriminate].
  injection Hrun as <- <-.
  apply import_roots_tree in Himp as (added & Hadded & Htrees).
  exists rootJoints, added. split; [|split; [|by repeat split]].
  - eapply collect_roots_of_scene_skins; [exact Hskins| |exact Hroots].
    intros ->. discriminate.
  - apply collect_roots_spec in Hroots as [Hsorted _]. apply Hsorted. constructor.
Qed.

Lemma cyclic_children_fail (C : Z -> Prop) (budget : nat) (nodeIndex : Z)
    (node : Node) (children_ children' : list Joint) (st st' : ImporterState) (ok : bool) :
  never_ending m_model C ->
  C nodeIndex ->
  at_ (nodes m_model) nodeIndex = Ret node ->
  ImportChildren m_model budget node children_ st = Ret (ok, children', st') ->
  ok = false.
Proof.
  intros HC. revert nodeIndex node children_ children' st st' ok.
  induction budget as [|budget IH]; intros nodeIndex node children_ children' st st' ok
    Hi Hnode Hrun; [discriminate|].
  destruct (HC nodeIndex Hi) as (node' & c & Hnode' & Hc & HCc).
  rewrite Hnode in Hnode'. injection Hnode' as <-.
  simpl in Hrun. revert children_ st Hrun Hc.
  induction (node_children node) as [|childIndex rest IHrest]; intros children_ st Hrun Hc.
  - by apply elem_of_nil in Hc.
  - apply bind_Ret in Hrun as (childNode & Hchild & Hrun).
    apply bind_Ret in Hrun as ([name st1] & Hname & Hrun).
    apply bind_Ret in Hrun as ([ok1 transform] & Htr & Hrun).
    destruct ok1; simpl in Hrun; [|by injection Hrun as <- _ _].
    apply bind_Ret in Hrun as ([[ok2 grandchildren] st2] & Hrec & Hrun).
    destruct ok2; simpl in Hrun; [|by injection Hrun as <- _ _].
    apply elem_of_cons in Hc as [->|Hc].
    + by apply (IH _ _ _ _ _ _ _ HCc Hchild) in Hrec.
    + by eapply IHrest.
Qed.

(** X13. Traversal of a node that lies on a cycle of the children
    relation, or leads to one, never succeeds: whatever the budget, the call
    does not return [true] (in the source the recursion does not end). *)
Theorem X13_cyclic_children_never_succeed (C : Z -> Prop) (budget : nat) (nodeIndex : Z)
    (node : Node) (children_ children' : list Joint) (st st' : ImporterState) :
  never_ending m_model C ->
  C nodeIndex ->
  at_ (nodes m_model) nodeIndex = Ret node ->
  ImportChildren m_model budget node children_ st <> Ret (true, children', st').
Proof.
  intros HC Hi Hnode Hrun.
  by apply (cyclic_children_fail C _ _ _ _ _ _ _ _ HC Hi Hnode) in Hrun.
Qed.

End JointTree.

Lemma X12_built_skeleton_mirrors_nodes_witness :
  exists st',
    @Import_skeleton StepExample.env DuplicateNames.model 5 (mkRawSkeleton []) initial_state
      = Ret (true, DuplicateNames.built, st') /\
    exists rootJoints added,
      rootJoints <> [] /\
      StronglySorted Z.lt rootJoints /\
      roots DuplicateNames.built = [] ++ added /\
      Forall2 (tree_of DuplicateNames.model) rootJoints added /\
      @RawSkeleton_Validate StepExample.env DuplicateNames.built = true.
Proof.
  eexists.
  assert (Hrun : @Import_skeleton StepExample.env DuplicateNames.model 5 (mkRawSkeleton [])
                   initial_state = Ret (true, DuplicateNames.built, _))
    by (vm_compute; reflexivity).
  split; [exact Hrun|].
  exact (@X12_built_skeleton_mirrors_nodes StepExample.env DuplicateNames.model 5
           _ _ _ _ Hrun).
Defined.

Lemma X13_cyclic_children_never_succeed_witness :
  @ImportChildren CyclicExample.model 7 CyclicExample.loop_node [] initial_state
  <> Ret (true, [], initial_state).
Proof.
  apply (@X13_cyclic_children_never_succeed CyclicExample.model (fun i => i = 0) 7 0).
  - intros i ->. exists CyclicExample.loop_node, 0. repeat split. by left.
  - reflexivity.
  - reflexivity.
Defined.

(** ** Scenes with a cycle *)

Section CyclicScene.

Context `{Env} (m_model : Model).

Lemma scene_closure_never_ends (C : Z -> Prop) budget open found result :
  never_ending m_model C ->
  (exists c, c ∈ open /\ C c) ->
  scene_closure m_model budget open found <> Ret result.
Proof.
  intros HC. revert open found. induction budget as [|budget IH];
    intros open found (c & Hc & HCc) Hrun; [discriminate|].
  simpl in Hrun. destruct open as [|nodeIndex open']; [by apply elem_of_nil in Hc|].
  apply bind_Ret in Hrun as (node & Hnode & Hrun).
  revert Hrun. apply IH.
  apply elem_of_cons in Hc as [->|Hc].
  - destruct (HC nodeIndex HCc) as (node' & c' & Hnode' & Hc' & HCc').
    rewrite Hnode in Hnode'. injection Hnode' as <-.
    exists c'. split; [|exact HCc']. apply elem_of_fold_set_insert. by right.
  - exists c. split; [|exact HCc]. apply elem_of_fold_set_insert. by left.
Qed.

(** X14. When a root node of the scene lies on a cycle of the children
    relation, or leads to one, [GetSkinsForScene] never returns, whatever the
    budget (in the source its loop does not end), and the skeleton build
    never reports success. *)
Theorem X14_cyclic_scene_never_builds (C : Z -> Prop) (budget : nat) (scene : Scene)
    (r : Z) (skeleton skeleton' : RawSkeleton) (st st' : ImporterState) (skins_ : list Skin) :
  never_ending m_model C ->
  at_ (scenes m_model) (if defaultScene m_model =? -1 then 0 else defaultScene m_model)
    = Ret scene ->
  r ∈ scene_nodes scene ->
  C r ->
  GetSkinsForScene m_model budget scene <> Ret skins_ /\
  Import_skeleton m_model budget skeleton st <> Ret (true, skeleton', st').
Proof.
  intros HC Hscene Hr HCr.
  assert (Hnever : forall skins_, GetSkinsForScene m_model budget scene <> Ret skins_).
  { intros sk Hrun. unfold GetSkinsForScene in Hrun.
    apply bind_Ret in Hrun as (found & Hfound & _).
    revert Hfound. apply (scene_closure_never_ends C); [exact HC|].
    exists r. split; [|exact HCr]. apply elem_of_fold_set_insert. by right. }
  split; [apply Hnever|].
  unfold Import_skeleton. intros Hrun.
  destruct (length (scenes m_model) =? 0)%nat; [discriminate|].
  destruct (length (skins m_model) =? 0)%nat; [discriminate|].
  rewrite Hscene in Hrun. cbn [mbind outcome_bind obind] in Hrun.
  destruct (length (scene_nodes scene) =? 0)%nat; [discriminate|].
  apply bind_Ret in Hrun as (sk & Hskins & _). by apply Hnever in Hskins.
Qed.

End CyclicScene.

Lemma X14_cyclic_scene_never_builds_witness :
  GetSkinsForScene CyclicExample.model 7 (mkScene "scene" [0]) <> Ret [] /\
  @Import_skeleton StepExample.env CyclicExample.model 7 (mkRawSkeleton []) initial_state
  <> Ret (true, mkRawSkeleton [], initial_state).
Proof.
  apply (@X14_cyclic_scene_never_builds StepExample.env CyclicExample.model
           (fun i => i = 0) 7 (mkScene "scene" [0]) 0).
  - intros i ->. exists CyclicExample.loop_node, 0. repeat split. by left.
  - reflexivity.
  - by left.
  - reflexivity.
Defined.

(** ** What a build leaves behind *)

Section Leftovers.

Context `{Env} (m_model : Model).

Lemma map_insert_new_extends `{Countable K} {V} (k : K) (v : V) (m : gmap K V) :
  m ⊆ map_insert_new k v m.
Proof.
  unfold map_insert_new. destruct (m !! k) eqn:Hk; [done|]. by apply insert_subseteq.
Qed.

Lemma state_extends_refl st : state_extends st st.
Proof. by split. Qed.

Lemma state_extends_trans st1 st2 st3 :
  state_extends st1 st2 -> state_extends st2 st3 -> state_extends st1 st3.
Proof. intros [H1 H2] [H3 H4]. split; by etrans. Qed.

Lemma CreateJointName_extends nodeIndex st name st' :
  CreateJointName m_model nodeIndex st = Ret (name, st') -> state_extends st st'.
Proof.
  unfold CreateJointName. intros Hrun.
  apply bind_Ret in Hrun as (node & _ & Hrun). injection Hrun as _ <-.
  split; apply map_insert_new_extends.
Qed.

Lemma ImportChildren_extends budget node children_ st ok children' st' :
  ImportChildren m_model budget node children_ st = Ret (ok, children', st') ->
  state_extends st st' /\ exists added, children' = children_ ++ added.
Proof.
  revert node children_ st ok children' st'.
  induction budget as [|budget IH]; intros node children_ st ok children' st' Hrun;
    [discriminate|].
  simpl in Hrun. revert children_ st Hrun.
  induction (node_children node) as [|childIndex rest IHrest]; intros children_ st Hrun.
  - injection Hrun as _ <- <-. split; [apply state_extends_refl|].
    exists []. by rewrite app_nil_r.
  - apply bind_Ret in Hrun as (childNode & Hnode & Hrun).
    apply bind_Ret in Hrun as ([name st1] & Hname & Hrun).
    apply bind_Ret in Hrun as ([ok1 transform] & Htr & Hrun).
    apply CreateJointName_extends in Hname.
    destruct ok1; simpl in Hrun.
    + apply bind_Ret in Hrun as ([[ok2 grandchildren] st2] & Hrec & Hrun).
      apply IH in Hrec as [Hrec _].
      destruct ok2; simpl in Hrun.
      * apply IHrest in Hrun as [Hext [added ->]].
        split; [eauto using state_extends_trans|]. rewrite <- app_assoc. eauto.
      * injection Hrun as _ <- <-. split; [eauto using state_extends_trans|].
        exists []. by rewrite app_nil_r.
    + injection Hrun as _ <- <-. split; [done|]. exists []. by rewrite app_nil_r.
Qed.

Lemma import_roots_extends budget rootJoints skeleton st ok skeleton' st' :
  import_roots m_model budget rootJoints skeleton st = Ret (ok, skeleton', st') ->
  state_extends st st'.
Proof.
  revert skeleton st. induction rootJoints as [|r rest IH]; intros skeleton st Hrun;
    simpl in Hrun.
  - injection Hrun as _ _ <-. apply state_extends_refl.
  - apply bind_Ret in Hrun as (rootBone & Hbone & Hrun).
    apply bind_Ret in Hrun as ([name st1] & Hname & Hrun).
    apply bind_Ret in Hrun as ([ok1 transform] & Htr & Hrun).
    apply CreateJointName_extends in Hname.
    destruct ok1; simpl in Hrun.
    + apply bind_Ret in Hrun as ([[ok2 children_] st2] & Hch & Hrun).
      apply ImportChildren_extends in Hch as [Hch _].
      destruct ok2; simpl in Hrun.
      * apply IH in Hrun. eauto using state_extends_trans.
      * injection Hrun as _ _ <-. eauto using state_extends_trans.
    + by injection Hrun as _ _ <-.
Qed.

(** X15. Whatever a skeleton build returns, the roots the caller's
    skeleton already had are still there, in front of what the build added,
    and both registries only grew: no registered name and no recorded node
    name was removed or changed, so a node keeps the first name recorded for
    it for the life of the importer. *)
Theorem X15_build_only_adds (budget : nat) (skeleton skeleton' : RawSkeleton)
    (st st' : ImporterState) (ok : bool) :
  Import_skeleton m_model budget skeleton st = Ret (ok, skeleton', st') ->
  (exists added, roots skeleton' = roots skeleton ++ added) /\
  state_extends st st' /\
  (forall name nodeIndex, existingNames st !! name = Some nodeIndex ->
     existingNames st' !! name = Some nodeIndex) /\
  (forall nodeIndex name, m_nodeNames st !! nodeIndex = Some name ->
     m_nodeNames st' !! nodeIndex = Some name).
Proof.
  intros Hrun.
  assert (Hmain : (exists added, roots skeleton' = roots skeleton ++ added) /\
                  state_extends st st').
  { unfold Import_skeleton in Hrun.
    assert (Hsame : (exists added, roots skeleton = roots skeleton ++ added) /\
                    state_extends st st).
    { split; [exists []; by rewrite app_nil_r|apply state_extends_refl]. }
    destruct (length (scenes m_model) =? 0)%nat; [by injection Hrun as _ <- <-|].
    destruct (length (skins m_model) =? 0)%nat; [by injection Hrun as _ <- <-|].
    apply bind_Ret in Hrun as (scene & _ & Hrun).
    destruct (length (scene_nodes scene) =? 0)%nat; [by injection Hrun as _ <- <-|].
    apply bind_Ret in Hrun as (skins_ & _ & Hrun).
    destruct (length skins_ =? 0)%nat; [by injection Hrun as _ <- <-|].
    apply bind_Ret in Hrun as (rootJoints & _ & Hrun).
    apply bind_Ret in Hrun as ([[ok1 sk1] s1] & Himp & Hrun).
    pose proof (import_roots_extends _ _ _ _ _ _ _ Himp) as Hext.
    apply import_roots_grow in Himp as [_ Hadded].
    assert (sk1 = skeleton' /\ s1 = st') as [<- <-].
    { destruct ok1; simpl in Hrun; [|by injection Hrun as _ <- <-].
      destruct (RawSkeleton_Validate sk1); simpl in Hrun; by injection Hrun as _ <- <-. }
    by split. }
  destruct Hmain as [Hroots [Hnames Hnodes]].
  split; [exact Hroots|]. split; [by split|]. split.
  - intros name i Hi. by eapply lookup_weaken.
  - intros i name Hi. by eapply lookup_weaken.
Qed.

End Leftovers.

Lemma X15_build_only_adds_witness :
  @Import_skeleton (spec_env true) TwoBuilds.model 5 (mkRawSkeleton []) TwoBuilds.after_first
    = Ret (true, TwoBuilds.built "root_0", TwoBuilds.after_second) /\
  m_nodeNames TwoBuilds.after_second !! 0 = Some "root".
Proof.
  assert (Hrun : @Import_skeleton (spec_env true) TwoBuilds.model 5 (mkRawSkeleton [])
                   TwoBuilds.after_first
                 = Ret (true, TwoBuilds.built "root_0", TwoBuilds.after_second))
    by (vm_compute; reflexivity).
  split; [exact Hrun|].
  destruct (@X15_build_only_adds (spec_env true) TwoBuilds.model 5 _ _ _ _ _ Hrun)
    as (_ & _ & _ & Hnodes).
  apply Hnodes. vm_compute. reflexivity.
Defined.

(** ** File extension *)

Lemma find_last_of_app (c : Ascii.ascii) (a b : string) :
  find_last_of c (a +:+ b) =
    match find_last_of c b with
    | Some i => Some (String.length a + i)%nat
    | None => find_last_of c a
    end.
Proof.
  induction a as [|x a IH].
  - change ("" +:+ b) with b. by destruct (find_last_of c b).
  - change (String x a +:+ b) with (String x (a +:+ b)). simpl.
    rewrite IH. by destruct (find_last_of c b).
Qed.

Lemma substr_from_app (a b : string) (n : nat) :
  substr_from (String.length a + n) (a +:+ b) = substr_from n b.
Proof.
  induction a as [|x a IH]; [reflexivity|].
  change (String x a +:+ b) with (String x (a +:+ b)). simpl. exact IH.
Qed.

Lemma find_last_of_split (c : Ascii.ascii) (path : string) (i : nat) :
  find_last_of c path = Some i ->
  exists stem ext,
    path = stem +:+ String c ext /\ String.length stem = i /\ find_last_of c ext = None.
Proof.
  revert i. induction path as [|x path IH]; intros i; simpl; [discriminate|].
  destruct (find_last_of c path) as [j|] eqn:Hrest.
  - intros [= <-]. destruct (IH j eq_refl) as (stem & ext & -> & Hlen & Hext).
    exists (String x stem), ext. simpl. by rewrite Hlen.
  - destruct (Ascii.eqb_spec x c) as [->|Hne]; [|discriminate].
    intros [= <-]. by exists "", path.
Qed.

(** X16. [GetFileExtension] returns what follows the last dot of the
    path: for a path [stem.ext] whose [ext] holds no dot it returns [ext], for
    a path without a dot it returns the empty string, and what it returns
    never holds a dot. *)
Theorem X16_extension_follows_last_dot (path : string) :
  (find_last_of dot path = None -> GetFileExtension path = "") /\
  (forall stem ext, path = stem +:+ "." +:+ ext -> find_last_of dot ext = None ->
     GetFileExtension path = ext) /\
  find_last_of dot (GetFileExtension path) = None.
Proof.
  assert (Hext : forall stem ext, find_last_of dot ext = None ->
            GetFileExtension (stem +:+ String dot ext) = ext).
  { intros stem ext Hnone. unfold GetFileExtension.
    rewrite find_last_of_app.
    change (find_last_of dot (String dot ext))
      with (match find_last_of dot ext with
            | Some i => Some (S i)
            | None => if Ascii.eqb dot dot then Some O else None
            end).
    rewrite Hnone, Ascii.eqb_refl.
    replace (String.length stem + 0 + 1)%nat with (String.length stem + 1)%nat by lia.
    rewrite substr_from_app. reflexivity. }
  split; [|split].
  - intros Hnone. unfold GetFileExtension. by rewrite Hnone.
  - intros stem ext -> Hnone. by apply Hext.
  - destruct (find_last_of dot path) as [i|] eqn:Hfind.
    + apply find_last_of_split in Hfind as (stem & ext & -> & _ & Hnone).
      by rewrite Hext.
    + unfold GetFileExtension. by rewrite Hfind.
Qed.

Lemma X16_extension_follows_last_dot_witness :
  GetFileExtension "models/walk.v2.glb" = "glb" /\ GetFileExtension "README" = "".
Proof.
  split.
  - apply (proj1 (proj2 (X16_extension_follows_last_dot "models/walk.v2.glb"))
             "models/walk.v2" "glb"); reflexivity.
  - apply (proj1 (X16_extension_follows_last_dot "README")). reflexivity.
Defined.

(** ** Names of the animations *)

(** X17. [GetAnimationNames] lists, in the order of the model, the names
    of the animations that have one. Every listed name can be imported: the
    import finds an animation for it, namely the first animation of the model
    with that name, so an animation behind another one of the same name is
    never the one imported. *)
Theorem X17_listed_names_are_found (m_model : Model) (name : string) :
  name ∈ GetAnimationNames m_model ->
  name <> "" /\
  exists ga before after,
    List.find (fun a => String.eqb (animation_name a) name) (animations m_model) = Some ga /\
    animations m_model = before ++ ga :: after /\
    animation_name ga = name /\
    forall a, a ∈ before -> animation_name a <> name.
Proof.
  unfold GetAnimationNames. intros Hin.
  apply list_elem_of_In, filter_In in Hin as [Hin Hne].
  split; [by destruct name|].
  apply in_map_iff in Hin as (a & Ha & Hina).
  destruct (List.find (fun a => String.eqb (animation_name a) name) (animations m_model))
    as [ga|] eqn:Hfind.
  - apply find_first in Hfind as (before & after & Hsplit & Hga & Hbefore).
    exists ga, before, after. split; [reflexivity|]. split; [exact Hsplit|].
    split; [by apply String.eqb_eq|].
    intros b Hb. apply String.eqb_neq. by apply Hbefore.
  - eapply find_none in Hfind; [|exact Hina]. simpl in Hfind.
    rewrite Ha, String.eqb_refl in Hfind. discriminate.
Qed.

Lemma X17_listed_names_are_found_witness :
  let m := OneJoint.model "LINEAR" 0 1 2 OneJoint.two_values in
  GetAnimationNames m = ["anim"] /\
  "anim" <> "" /\
  exists ga before after,
    List.find (fun a => String.eqb (animation_name a) "anim") (animations m) = Some ga /\
    animations m = before ++ ga :: after /\
    animation_name ga = "anim" /\
    forall a, a ∈ before -> animation_name a <> "anim".
Proof.
  intros m. split; [reflexivity|].
  apply (X17_listed_names_are_found m "anim"). by left.
Defined.

(** ** Bind transform of a node *)

(** X18. [CreateNodeTransform] fails exactly on a node that carries a
    matrix. On a node without a matrix it succeeds with the translation,
    rotation and scale of the node narrowed to [float], each replaced by its
    default (zero, identity, one) when the node omits it. *)
Theorem X18_transform_of_node (node : Node) :
  (node_matrix node <> [] -> exists tr, CreateNodeTransform node = Ret (false, tr)) /\
  (node_matrix node = [] ->
   forall t r s,
     translation_bind_value node = Some t ->
     rotation_bind_value node = Some r ->
     scale_bind_value node = Some s ->
     CreateNodeTransform node = Ret (true, mkTransform t r s)) /\
  (forall ok tr, CreateNodeTransform node = Ret (ok, tr) ->
     (ok = true <-> node_matrix node = [])).
Proof.
  unfold CreateNodeTransform, translation_bind_value, rotation_bind_value, scale_bind_value.
  split; [|split].
  - intros Hm. destruct (node_matrix node); [done|]. simpl. eauto.
  - intros -> t r s. simpl.
    destruct (node_translation node) as [|x [|y [|z l]]]; simpl; try discriminate;
      destruct (node_rotation node) as [|rx [|ry [|rz [|rw rl]]]]; simpl; try discriminate;
      destruct (node_scale node) as [|sx [|sy [|sz sl]]]; simpl; try discriminate;
      by intros [= <-] [= <-] [= <-].
  - intros ok tr. destruct (node_matrix node) as [|m0 ms]; simpl.
    + intros Hrun. split; [done|intros _].
      apply bind_Ret in Hrun as (? & _ & Hrun).
      apply bind_Ret in Hrun as (? & _ & Hrun).
      apply bind_Ret in Hrun as (? & _ & Hrun). by injection Hrun as <- _.
    + intros [= <- _]. split; discriminate.
Qed.

Lemma X18_transform_of_node_witness :
  let node := mkNode "n" [] [] [F64.of_Z 1; F64.of_Z 2; F64.of_Z 3] [] [] in
  CreateNodeTransform node
  = Ret (true, mkTransform (mkFloat3 (F32.of_Z 1) (F32.of_Z 2) (F32.of_Z 3))
                 Quaternion_identity Float3_one) /\
  exists tr, CreateNodeTransform (mkNode "n" [] [F64.of_Z 1] [] [] []) = Ret (false, tr).
Proof.
  intros node. split.
  - apply (proj1 (proj2 (X18_transform_of_node node))); reflexivity.
  - apply (proj1 (X18_transform_of_node (mkNode "n" [] [F64.of_Z 1] [] [] []))).
    discriminate.
Defined.

(** ** The cursor of the spline sampler *)

(** X21. The cursor loop of the spline sampler always ends, by its guard
    or by a read outside the buffer; the cursor it returns is not before the
    one it started from, and a cursor that moved is at most the index of the
    last source sample. *)
Theorem X21_cursor_loop_ends_and_is_bounded (timestamps : list Byte.byte)
    (numKeyframes : Z) (time_ : float) (currentKey : nat) :
  1 <= numKeyframes < 2 ^ 64 ->
  advance_cursor (S (length timestamps)) timestamps numKeyframes time_ currentKey
    <> OutOfBudget /\
  forall currentKey',
    advance_cursor (S (length timestamps)) timestamps numKeyframes time_ currentKey
      = Ret currentKey' ->
    (currentKey <= currentKey')%nat /\
    (currentKey' = currentKey \/ Z.of_nat currentKey' <= numKeyframes - 1).
Proof.
  intros Hn. split.
  - apply advance_cursor_ends; lia.
  - intros c'. by apply advance_cursor_bounds.
Qed.

Lemma X21_cursor_loop_ends_and_is_bounded_witness :
  let timestamps := floats_bytes [F32.of_Z 1; F32.of_Z 2] in
  advance_cursor (S (length timestamps)) timestamps 2 (F32.of_Z 0) 0 = Ret 1%nat /\
  (0 <= 1)%nat /\ (1%nat = 0%nat \/ Z.of_nat 1 <= 2 - 1).
Proof.
  intros timestamps.
  assert (Hrun : advance_cursor (S (length timestamps)) timestamps 2 (F32.of_Z 0) 0
                 = Ret 1%nat) by (vm_compute; reflexivity).
  split; [exact Hrun|].
  apply (proj2 (X21_cursor_loop_ends_and_is_bounded timestamps 2 (F32.of_Z 0) 0
                  ltac:(lia)) 1%nat Hrun).
Defined.

(** ** Spline channels *)

Section SplineChannels.

Context `{Env} (m_model : Model).

Lemma normalize_keys_spec (keys keys' : list (Key Quaternion)) :
  normalize_keys keys = Ret keys' ->
  Forall2 (fun k k' => time k' = time k /\ Normalize (value k) = Ret (value k')) keys keys'.
Proof.
  revert keys'. induction keys as [|k keys IH]; intros keys' Hrun; simpl in Hrun.
  - injection Hrun as <-. constructor.
  - apply bind_Ret in Hrun as (q & Hq & Hrun).
    apply bind_Ret in Hrun as (rest & Hrest & Hrun). injection Hrun as <-.
    constructor; [by split|by apply IH].
Qed.

Lemma evenly_timed_normalized rate n (keys keys' : list (Key Quaternion)) :
  evenly_timed rate n keys ->
  normalize_keys keys = Ret keys' ->
  evenly_timed rate n keys' /\
  Forall (fun k' => exists q, Normalize q = Ret (value k')) keys'.
Proof.
  intros [Hlen Htimes] Hrun. apply normalize_keys_spec in Hrun.
  split; [split|].
  - by rewrite <- (Forall2_length _ _ _ Hrun).
  - intros i Hi. destruct (Htimes i Hi) as [v Hv].
    destruct (Forall2_lookup_l _ _ _ _ _ Hrun Hv) as ([t' v'] & Hk' & Htime & _).
    simpl in Htime. subst t'. by exists v'.
  - apply Forall_forall. intros k' Hk'.
    apply list_elem_of_lookup in Hk' as [i Hi].
    destruct (Forall2_lookup_r _ _ _ _ _ Hrun Hi) as (k & _ & _ & Hq). by exists (value k).
Qed.

(** X20. A CUBICSPLINE channel that is sampled successfully leaves, in the
    sequence of the property it targets, the number of keys that the sampler
    computes for its [resize]: [floor(duration * rate) + 1] evaluated in
    [float] arithmetic and converted to [size_t], a count below [2^64]. The
    key at position [i] is at the time [i / rate]. Here [duration] is the
    declared maximum of the input accessor and [rate] is the integer rate the
    call was handed. On a rotation channel every key value is a result of
    [math::Normalize]. *)
Theorem X20_spline_channel_keys (sampler_ : AnimationSampler) (targetPath : string)
    (outDuration : float) (track : JointTrack) (samplingRate : Z)
    (outDuration' : float) (track' : JointTrack) :
  interpolation sampler_ = "CUBICSPLINE" ->
  SampleAnimationChannel m_model sampler_ targetPath outDuration track samplingRate
    = Ret (true, outDuration', track') ->
  exists duration_ n,
    sampler_input_max m_model sampler_ = Ret duration_ /\
    cubic_key_count duration_ (F32.of_Z samplingRate) = Ret n /\
    Z.of_nat n < 2 ^ 64 /\
    (targetPath = "translation" ->
     evenly_timed (F32.of_Z samplingRate) n (translations track')) /\
    (targetPath = "rotation" ->
     evenly_timed (F32.of_Z samplingRate) n (rotations track') /\
     Forall (fun k => exists q, Normalize q = Ret (value k)) (rotations track')) /\
    (targetPath = "scale" ->
     evenly_timed (F32.of_Z samplingRate) n (scales track')).
Proof.
  unfold SampleAnimationChannel, sampler_input_max. intros Hmode Hrun.
  apply bind_Ret in Hrun as (input_ & Hin & Hrun).
  apply bind_Ret in Hrun as (? & _ & Hrun).
  apply bind_Ret in Hrun as (max0 & Hmax & Hrun).
  rewrite Hin. unfold mbind at 1, outcome_bind, obind at 1. rewrite Hmax.
  exists (F32.of_double max0).
  apply bind_Ret in Hrun as (? & _ & Hrun).
  apply bind_Ret in Hrun as (output_ & _ & Hrun).
  apply bind_Ret in Hrun as (? & _ & Hrun).
  apply bind_Ret in Hrun as ([timestamps|] & _ & Hrun); [|discriminate].
  rewrite Hmode in Hrun.
  change (String.eqb "CUBICSPLINE" "") with false in Hrun.
  change (String.eqb "CUBICSPLINE" "LINEAR") with false in Hrun.
  change (String.eqb "CUBICSPLINE" "STEP") with false in Hrun.
  change (String.eqb "CUBICSPLINE" "CUBICSPLINE") with true in Hrun.
  cbv beta iota in Hrun. simpl orb in Hrun. cbv beta iota in Hrun.
  apply bind_Ret in Hrun as (? & _ & Hrun).
  destruct (String.eqb_spec targetPath "translation") as [->|Hnt].
  { apply bind_Ret in Hrun as ([ok k] & Hs & Hrun). injection Hrun as -> _ <-.
    apply SampleCubicSplineChannel_keys in Hs as [Hn Htimes].
    exists (length k). split; [reflexivity|]. split; [exact Hn|].
    split; [by eapply cubic_key_count_size_t|].
    split; [by intros _|]. split; intros; discriminate. }
  destruct (String.eqb_spec targetPath "rotation") as [->|Hnr].
  { apply bind_Ret in Hrun as ([ok k] & Hs & Hrun).
    destruct ok; simpl in Hrun; [|discriminate].
    apply bind_Ret in Hrun as (k' & Hnorm & Hrun). injection Hrun as _ <-.
    apply SampleCubicSplineChannel_keys in Hs as [Hn Htimes].
    exists (length k). split; [reflexivity|]. split; [exact Hn|].
    split; [by eapply cubic_key_count_size_t|].
    split; [intros; discriminate|]. split; [|intros; discriminate].
    intros _. simpl. by eapply evenly_timed_normalized. }
  destruct (String.eqb_spec targetPath "scale") as [->|Hns]; [|discriminate].
  apply bind_Ret in Hrun as ([ok k] & Hs & Hrun). injection Hrun as -> _ <-.
  apply SampleCubicSplineChannel_keys in Hs as [Hn Htimes].
  exists (length k). split; [reflexivity|]. split; [exact Hn|].
    split; [by eapply cubic_key_count_size_t|].
  split; [intros; discriminate|]. split; [intros; discriminate|]. by intros _.
Qed.

End SplineChannels.

Lemma X20_spline_channel_keys_witness :
  let m := OneJoint.model "CUBICSPLINE" 0 2 6 OneJoint.spline_values in
  exists d' track',
    @SampleAnimationChannel (spec_env true) m (mkSampler 0 1 "CUBICSPLINE") "translation"
      F32.zero JointTrack_init 2 = Ret (true, d', track') /\
    exists duration_ n,
      @sampler_input_max m (mkSampler 0 1 "CUBICSPLINE") = Ret duration_ /\
      cubic_key_count duration_ (F32.of_Z 2) = Ret n /\
      Z.of_nat n < 2 ^ 64 /\
      ("translation" = "translation" ->
       evenly_timed (F32.of_Z 2) n (translations track')).
Proof.
  intros m. do 2 eexists.
  assert (Hrun : @SampleAnimationChannel (spec_env true) m (mkSampler 0 1 "CUBICSPLINE")
                   "translation" F32.zero JointTrack_init 2 = Ret (true, _, _))
    by (vm_compute; reflexivity).
  split; [exact Hrun|].
  destruct (@X20_spline_channel_keys (spec_env true) m (mkSampler 0 1 "CUBICSPLINE")
              _ _ _ _ _ _ eq_refl Hrun)
    as (duration_ & n & Hmax & Hn & Hsize & Htr & _).
  exists duration_, n. split; [exact Hmax|]. split; [exact Hn|]. split; [exact Hsize|exact Htr].
Defined.

(** ** A later channel on the same property *)

Section LastChannelWins.

Context `{Env} (m_model : Model) {V : Type} `{ValueType V}.

Lemma linear_loop_agree (timestamps values : list Byte.byte) (m k : nat)
    (s1 s2 r1 : list (Key V)) :
  length s1 = length s2 ->
  (forall i, (i < k)%nat -> s1 !! i = s2 !! i) ->
  for_each (seq k m)
    (fun i keyframes =>
       t ← timestamp_at timestamps i; v ← value_at values i; store keyframes i (mkKey t v))
    s1 = Ret r1 ->
  exists r2,
    for_each (seq k m)
      (fun i keyframes =>
         t ← timestamp_at timestamps i; v ← value_at values i; store keyframes i (mkKey t v))
      s2 = Ret r2 /\
    length r1 = length s1 /\ length r2 = length s1 /\
    forall i, (i < k + m)%nat -> r1 !! i = r2 !! i.
Proof.
  revert k s1 s2. induction m as [|m IH]; intros k s1 s2 Hlen Hagree Hrun; simpl in Hrun.
  - injection Hrun as <-. exists s2. simpl. repeat split; try done.
    intros i Hi. apply Hagree. lia.
  - apply bind_Ret in Hrun as (s1' & Hbody & Hrun).
    apply bind_Ret in Hbody as (t & Ht & Hbody).
    apply bind_Ret in Hbody as (v & Hv & Hbody).
    apply store_Ret in Hbody as [Hk ->].
    destruct (IH (S k) (<[k := mkKey t v]> s1) (<[k := mkKey t v]> s2)) as
      (r2 & Hrun2 & Hl1 & Hl2 & Hag); [by rewrite !length_insert| |exact Hrun|].
    + intros i Hi. destruct (decide (i = k)) as [->|Hne].
      * rewrite !list_lookup_insert_eq; [done|lia|lia].
      * rewrite !list_lookup_insert_ne by done. apply Hagree. lia.
    + exists r2. rewrite length_insert in Hl1, Hl2. repeat split; try done.
      * simpl. rewrite Ht. simpl. rewrite Hv. simpl. unfold store.
        destruct (decide (k < length s2)%nat); [exact Hrun2|lia].
      * intros i Hi. apply Hag. lia.
Qed.

(** X23. What a LINEAR channel leaves in a key sequence does not depend on
    what the sequence held before: when two channels of a joint target the
    same property, the keys of the later one replace those of the earlier
    one. *)
Theorem X23_linear_result_ignores_previous_keys (output_ : Accessor)
    (timestamps : list Byte.byte) (before other keys : list (Key V)) :
  SampleLinearChannel m_model output_ timestamps before = Ret (true, keys) ->
  SampleLinearChannel m_model output_ timestamps other = Ret (true, keys).
Proof.
  unfold SampleLinearChannel. intros Hrun.
  apply bind_Ret in Hrun as ([values|] & Hview & Hrun); [|discriminate].
  rewrite Hview. cbn [mbind outcome_bind obind].
  apply bind_Ret in Hrun as (r1 & Hloop & Hrun). injection Hrun as <-.
  set (n := Z.to_nat (count output_)) in *.
  destruct (linear_loop_agree timestamps values n 0
              (resize n Key_init before) (resize n Key_init other) r1)
    as (r2 & Hloop2 & Hl1 & Hl2 & Hag); [by rewrite !length_resize| |exact Hloop|].
  { intros i Hi. lia. }
  rewrite Hloop2. cbn [mbind outcome_bind obind]. do 2 f_equal.
  rewrite length_resize in Hl1, Hl2.
  apply list_eq. intros i. destruct (decide (i < n)%nat) as [Hi|Hi].
  - symmetry. apply Hag. lia.
  - rewrite !lookup_ge_None_2; [done|lia|lia].
Qed.

End LastChannelWins.

Lemma X23_linear_result_ignores_previous_keys_witness :
  let keys := [ mkKey (F32.of_Z 0) (mkFloat3 (F32.of_Z 1) (F32.of_Z 2) (F32.of_Z 3));
                mkKey (F32.of_Z 1) (mkFloat3 (F32.of_Z 4) (F32.of_Z 5) (F32.of_Z 6)) ] in
  @SampleLinearChannel StepExample.env StepExample.model Float3 _
    StepExample.output_accessor StepExample.timestamps [] = Ret (true, keys) /\
  @SampleLinearChannel StepExample.env StepExample.model Float3 _
    StepExample.output_accessor StepExample.timestamps [Key_init; Key_init; Key_init]
  = Ret (true, keys).
Proof.
  intros keys.
  assert (Hrun : @SampleLinearChannel StepExample.env StepExample.model Float3 _
                   StepExample.output_accessor StepExample.timestamps [] = Ret (true, keys))
    by (vm_compute; reflexivity).
  split; [exact Hrun|].
  exact (@X23_linear_result_ignores_previous_keys StepExample.env StepExample.model
           Float3 _ StepExample.output_accessor StepExample.timestamps [] _ keys Hrun).
Defined.

(** ** A failed build *)

Section FailedBuild.

Context `{Env} (m_model : Model).

(** X19. A root joint whose node carries a matrix makes the traversal
    return [false] with nothing added to the skeleton, but not without a
    trace: the name made for the node is registered by then and stays
    registered. *)
Theorem X19_failed_root_still_registers_its_name (budget : nat) (r : Z) (rest : list Z)
    (node : Node) (skeleton : RawSkeleton) (st : ImporterState) :
  at_ (nodes m_model) r = Ret node ->
  node_matrix node <> [] ->
  exists name st',
    CreateJointName m_model r st = Ret (name, st') /\
    import_roots m_model budget (r :: rest) skeleton st = Ret (false, skeleton, st') /\
    is_Some (existingNames st' !! name).
Proof.
  intros Hnode Hmatrix.
  destruct (CreateJointName m_model r st) as [[name st']| | |] eqn:Hname;
    try (unfold CreateJointName in Hname; rewrite Hnode in Hname; discriminate).
  exists name, st'. split; [reflexivity|]. split.
  - simpl. rewrite Hnode. cbn [mbind outcome_bind obind]. rewrite Hname.
    cbn [mbind outcome_bind obind].
    unfold CreateNodeTransform. destruct (node_matrix node); [done|]. reflexivity.
  - by apply CreateJointName_grow in Hname as [_ Hreg].
Qed.

End FailedBuild.

Lemma X19_failed_root_still_registers_its_name_witness :
  let node := mkNode "hips" [] [F64.of_Z 1] [] [] [] in
  let m := mkModel [] [] [] [] [node] [mkScene "scene" [0]] [mkSkin [0]] (-1) in
  exists name st',
    CreateJointName m 0 initial_state = Ret (name, st') /\
    import_roots m 5 [0] (mkRawSkeleton []) initial_state
      = Ret (false, mkRawSkeleton [], st') /\
    is_Some (existingNames st' !! name).
Proof.
  intros node m.
  apply (X19_failed_root_still_registers_its_name m 5 0 [] node); [reflexivity|discriminate].
Defined.

(** ** Channels of a joint *)

Section Grouping.

Context `{Env} (m_model : Model).

Lemma filter_snoc {A} (f : A -> bool) (l : list A) (a : A) :
  List.filter f (l ++ [a]) = List.filter f l ++ (if f a then [a] else []).
Proof. rewrite List.filter_app. simpl. by destruct (f a). Qed.

(** X22. The channels filed under a name are the channels of the
    animation that have a target node of that name, in the order of the
    animation; so the channels of a joint are sampled in that order. *)
Theorem X22_channels_filed_in_order (channels_ : list AnimationChannel)
    (channelsPerJoint : gmap string (list AnimationChannel)) (name : string) :
  for_each channels_ (group_channel m_model) ∅ = Ret channelsPerJoint ->
  channels_of channelsPerJoint name = List.filter (targets m_model name) channels_.
Proof.
  intros Hrun. revert name.
  pose (P := fun (pre : list AnimationChannel) (cpj : gmap string (list AnimationChannel)) =>
               forall name, channels_of cpj name = List.filter (targets m_model name) pre).
  change (P channels_ channelsPerJoint).
  eapply (for_each_prefix_invariant P); [| |exact Hrun].
  - intros name. unfold channels_of. by rewrite lookup_empty.
  - intros pre a s s' Hpre Hbody name. rewrite filter_snoc.
    unfold group_channel in Hbody. unfold targets at 2.
    destruct (Z.eqb_spec (target_node a) (-1)) as [Hno|Hyes]; simpl.
    + injection Hbody as <-. by rewrite app_nil_r.
    + apply bind_Ret in Hbody as (tn & Htn & Hbody). injection Hbody as <-.
      rewrite Htn. unfold channels_of.
      destruct (String.eqb_spec (node_name tn) name) as [<-|Hne].
      * rewrite lookup_insert_eq. simpl. f_equal. apply Hpre.
      * rewrite lookup_insert_ne by done. rewrite app_nil_r. apply Hpre.
Qed.

End Grouping.

Lemma X22_channels_filed_in_order_witness :
  let m := OneJoint.with_untargeted_channel
             (OneJoint.model "LINEAR" 0 1 2 OneJoint.two_values) in
  let channels_ := [mkChannel 0 0 "translation"; mkChannel 1 (-1) "translation"] in
  exists cpj,
    for_each channels_ (group_channel m) ∅ = Ret cpj /\
    channels_of cpj "root" = [mkChannel 0 0 "translation"].
Proof.
  intros m channels_. eexists.
  assert (Hrun : for_each channels_ (group_channel m) ∅ = Ret _) by reflexivity.
  split; [exact Hrun|].
  rewrite (X22_channels_filed_in_order m channels_ _ "root" Hrun). reflexivity.
Defined.
